(** * mediawiki-to-notion: block store, page resolver and upload worker

    A shallow embedding of the three Lambda functions that move rendered
    blocks from the content staging bucket into Notion:

    - [Store]        lambdas/store_notion_blocks.py
    - [Uploader]     lambdas/upload_notion_blocks/upload_notion_blocks.py
    - [FlatUploader] lambdas/upload_notion_blocks.py (the older, flat copy
                     of the worker that is still in the tree)
    - [PageFails]    lambdas/store_notion_page_fails/store_notion_page_fails.py
    - [get_image_object], the file getter the worker hands to [uploadBlock]

    The DynamoDB tables are finite maps keyed by their primary key, the
    Notion client is an interface ([NotionAPI]) over an abstract remote
    state, and every function of the source is a computation in a
    state/exception monad that also returns the calls it made.

    What the model leaves out: the tables and the local disk are available
    (a table call raises only for a failed condition or an invalid request,
    [os.mkdir] and [shutil.rmtree] succeed), logging and metrics have no
    effect on the result, and strings are sequences of 8-bit characters.
    [uploadBlock] is a call on the remote state only: the downloads it
    makes through the file getter while it uploads a block are not part of
    a worker's trace, the getter is modelled on its own. *)

From stdpp Require Import base option list gmap strings sorting pretty.
From Stdlib Require Import Ascii ZArith Lia.

Local Open Scope string_scope.
Local Open Scope list_scope.
Local Open Scope stdpp_scope.

(** ** Strings *)

Module Py.

(** [str.rsplit("/", 1)] when the string holds a slash: the text before
    the last slash and the text after it. *)
Fixpoint rsplit_slash (s : string) : option (string * string) :=
  match s with
  | EmptyString => None
  | String c r =>
      match rsplit_slash r with
      | Some (h, t) => Some (String c h, t)
      | None => if decide (c = "/"%char) then Some (EmptyString, r) else None
      end
  end.

(** [s.rsplit("/", 1)[0]] *)
Definition rsplit_head (s : string) : string :=
  match rsplit_slash s with Some (h, _) => h | None => s end.

(** [s.rsplit("/", 1)[1] if "/" in s else s], which is also
    [os.path.basename(s)]. *)
Definition basename (s : string) : string :=
  match rsplit_slash s with Some (_, t) => t | None => s end.

(** [s.endswith(suffix)] *)
Definition endswith (s suffix : string) : bool :=
  String.prefix (String.rev suffix) (String.rev s).

Fixpoint drop (n : nat) (s : string) : string :=
  match n, s with
  | S n', String _ r => drop n' r
  | _, _ => s
  end.

(** [s[:-3]] *)
Definition drop_last3 (s : string) : string :=
  String.rev (drop 3 (String.rev s)).

(** Whitespace as [str.isspace] sees it below code point 128. *)
Definition isspace (c : ascii) : bool :=
  let n := nat_of_ascii c in
  ((9 <=? n)%nat && (n <=? 13)%nat) || ((28 <=? n)%nat && (n <=? 32)%nat).

(** [s.rstrip()] *)
Fixpoint rstrip (s : string) : string :=
  match s with
  | EmptyString => EmptyString
  | String c r =>
      match rstrip r with
      | EmptyString => if isspace c then EmptyString else String c EmptyString
      | r' => String c r'
      end
  end.

(** [s.lstrip()] *)
Fixpoint lstrip (s : string) : string :=
  match s with
  | EmptyString => EmptyString
  | String c r => if isspace c then lstrip r else s
  end.

(** [s.strip()] *)
Definition strip (s : string) : string := rstrip (lstrip s).

(** [f.readline()] on a file opened in text mode: the first line with its
    terminator (a carriage return ends a line too and is read as a line
    feed). *)
Fixpoint readline (s : string) : string :=
  match s with
  | EmptyString => EmptyString
  | String c r =>
      if decide (c = "010"%char) then String "010"%char EmptyString
      else if decide (c = "013"%char) then String "010"%char EmptyString
      else String c (readline r)
  end.

End Py.

(** ** Data model *)

(** The block classes of notion-py that the code tests for. *)
Inductive BlockClass :=
| TextBlock
| PageBlock
| CollectionViewBlock
| CollectionViewPageBlock
| OtherBlock (name : string).

#[global] Instance BlockClass_eq_dec : EqDecision BlockClass.
Proof. solve_decision. Defined.

(** A rendered block, one element of what md2notion's [convert] yields: a
    dict of which the pipeline reads the entries "type" and "title" and
    pickles the whole. *)
Record Rendered := mkRendered {
  b_type : option BlockClass;
  b_title : option string;
  b_rest : string
}.

#[global] Instance Rendered_eq_dec : EqDecision Rendered.
Proof. solve_decision. Defined.

(** An item of the NotionBlocks table. [BlockContent] is the pickled block;
    [pickle.loads] of [pickle.dumps] is the identity, so the model keeps the
    block itself. *)
Record BlockItem := mkBlockItem {
  BlockBatch : string;
  BlockIndex : Z;
  S3BucketName : string;
  S3ObjectKey : string;
  BlockContent : Rendered
}.

#[global] Instance BlockItem_eq_dec : EqDecision BlockItem.
Proof. solve_decision. Defined.

(** The primary key of NotionBlocks: partition key BlockBatch (a string),
    sort key BlockIndex (a number). *)
Abbreviation BlockKey := (string * Z)%type.

Definition key_of (item : BlockItem) : BlockKey :=
  (BlockBatch item, BlockIndex item).

(** NotionBlocks, keyed by its primary key; the value holds the attributes
    of the item that are not part of the key. *)
Abbreviation BlocksTable := (gmap BlockKey (string * string * Rendered)).

(** NotionPages: partition key BlockBatch, attribute PageUrl. *)
Abbreviation PagesTable := (gmap string string).

Definition item_of (e : BlockKey * (string * string * Rendered)) : BlockItem :=
  {| BlockBatch := e.1.1; BlockIndex := e.1.2;
     S3BucketName := e.2.1.1; S3ObjectKey := e.2.1.2; BlockContent := e.2.2 |}.

Definition attrs_of (item : BlockItem) : string * string * Rendered :=
  (S3BucketName item, S3ObjectKey item, BlockContent item).

(** Every row of the table, in the order the storage happens to keep them. *)
Definition items (t : BlocksTable) : list BlockItem := item_of <$> map_to_list t.

(** ** Exceptions and results *)

Inductive exn :=
| ConditionalCheckFailedException
| ValidationException
| S3ClientError
| FileNotFoundError
| NotionError
| AttributeError
| ValueError.

#[global] Instance exn_eq_dec : EqDecision exn.
Proof. solve_decision. Defined.

Inductive outcome (A : Type) :=
| Ok (a : A)
| Raise (e : exn).

Arguments Ok {A} a.
Arguments Raise {A} e.

(** ** The two tables *)

(** [table.put_item(Item=item, ConditionExpression=Attr("BlockBatch").not_exists())]
    on NotionBlocks. DynamoDB evaluates the condition on the stored item with
    the primary key of [item]; such an item always carries its key attribute
    BlockBatch, so the condition holds exactly when no item has that key. *)
Definition blocks_put_item (item : BlockItem) (t : BlocksTable)
  : BlocksTable * outcome unit :=
  match t !! key_of item with
  | Some _ => (t, Raise ConditionalCheckFailedException)
  | None => (<[key_of item := attrs_of item]> t, Ok tt)
  end.

(** A sequence of such inserts, whatever their outcomes. *)
Definition put_all (l : list BlockItem) (t : BlocksTable) : BlocksTable :=
  foldl (λ t item, (blocks_put_item item t).1) t l.

(** [table.delete_item(Key=...)]: no condition, no error when absent. *)
Definition blocks_delete_item (k : BlockKey) (t : BlocksTable) : BlocksTable :=
  delete k t.

Definition index_le (a b : BlockItem) : Prop := (BlockIndex a ≤ BlockIndex b)%Z.

#[global] Instance index_le_dec a b : Decision (index_le a b).
Proof. unfold index_le. apply _. Defined.

(** [table.query(Limit=limit, KeyConditionExpression=Key("BlockBatch").eq(batch),
    ScanIndexForward=True)["Items"]]: the items of the partition in ascending
    order of the sort key, cut at [limit]; DynamoDB refuses a [Limit] below 1.
    (A response is also cut at 1 MB of data; the model returns the full
    [limit] items when the partition has them.) *)
Definition blocks_query (limit : Z) (batch : string) (t : BlocksTable)
  : outcome (list BlockItem) :=
  if decide (limit < 1)%Z then Raise ValidationException
  else Ok (take (Z.to_nat limit)
             (merge_sort index_le
                (filter (λ item, BlockBatch item = batch) (items t)))).

(** [table.get_item(Key={"BlockBatch": batch}).get("Item")] on NotionPages,
    read at its "PageUrl". *)
Definition pages_get_item (batch : string) (t : PagesTable) : option string :=
  t !! batch.

(** [table.put_item(Item={"BlockBatch": batch, "PageUrl": url},
    ConditionExpression=Attr("PageUrl").not_exists())] on NotionPages: every
    item of the table has a PageUrl, so the condition holds exactly when the
    batch has no item. *)
Definition pages_put_item (batch url : string) (t : PagesTable)
  : PagesTable * outcome unit :=
  match t !! batch with
  | Some _ => (t, Raise ConditionalCheckFailedException)
  | None => (<[batch := url]> t, Ok tt)
  end.

(** ** The world and the calls made on it *)

(** A handle on a Notion page as the client returns it. *)
Record Page := mkPage {
  page_url : string;       (* get_browseable_url() *)
  page_type : BlockClass;  (* type(page) *)
  page_title : string
}.

#[global] Instance Page_eq_dec : EqDecision Page.
Proof. solve_decision. Defined.

(** The calls a function makes, in the order it makes them. [ok] tells
    whether the call returned or raised. *)
Inductive Event :=
| EvProcess (k : BlockKey)                        (* the worker's record_handler is entered *)
| EvS3Download (bucket key : string) (ok : bool)  (* download_file, get_object *)
| EvNewClient (ok : bool)                         (* NotionClient(...) *)
| EvGetBlock (url : string) (ok : bool)           (* notion_client.get_block *)
| EvAddRow (parent : string) (ok : bool)          (* parent.collection.add_row *)
| EvSetTitle (url title : string) (ok : bool)     (* new_page.title = title *)
| EvAddNew (parent title : string) (ok : bool)    (* parent.children.add_new *)
| EvPutPage (batch url : string) (ok : bool)      (* put_item on NotionPages *)
| EvUpload (k : BlockKey) (ok : bool)             (* uploadBlock *)
| EvDelete (k : BlockKey)                         (* delete_item on NotionBlocks *)
| EvPutBlock (k : BlockKey) (ok : bool)           (* put_item on NotionBlocks *)
| EvPutEvents (batch : string).                   (* events.put_events *)

#[global] Instance Event_eq_dec : EqDecision Event.
Proof. solve_decision. Defined.

(** The notion-py client and md2notion's [uploadBlock], over a remote state
    [Remote] that the model leaves open: each call may change the remote and
    may raise (a throttle or server error that outlives the transport's
    retries, a missing block, ...). [get_block] answers [None] for a block
    the workspace does not have. *)
Class NotionAPI (Remote : Type) := {
  new_client : Remote → Remote * outcome unit;
  get_block : string → Remote → Remote * outcome (option Page);
  add_row : Page → Remote → Remote * outcome Page;
  set_title : Page → string → Remote → Remote * outcome unit;
  add_new : Page → string → Remote → Remote * outcome Page;
  uploadBlock : Rendered → option Page → Remote → Remote * outcome unit
}.

Record World (Remote : Type) := mkWorld {
  blocks : BlocksTable;                 (* the NotionBlocks table *)
  pages : PagesTable;                   (* the NotionPages table *)
  s3 : gmap (string * string) string;   (* staged objects, by bucket and key *)
  tmp : gmap string string;             (* the function's files under /tmp *)
  notion : Remote;                      (* the workspace behind the client *)
  notion_client : bool;                 (* the global client is initialised *)
  max_blocks : Z;                       (* the /MwToNotion/MaxBlocks parameter *)
  rivals : list (option string);        (* page URLs concurrent resolvers store *)
  uuid_seed : N                         (* source of uuid4 *)
}.

Arguments mkWorld {Remote}.
Arguments blocks {Remote}.
Arguments pages {Remote}.
Arguments s3 {Remote}.
Arguments tmp {Remote}.
Arguments notion {Remote}.
Arguments notion_client {Remote}.
Arguments max_blocks {Remote}.
Arguments rivals {Remote}.
Arguments uuid_seed {Remote}.

Section setters.
Context {Remote : Type}.

Definition set_blocks (t : BlocksTable) (w : World Remote) : World Remote :=
  mkWorld t (pages w) (s3 w) (tmp w) (notion w) (notion_client w)
    (max_blocks w) (rivals w) (uuid_seed w).

Definition set_pages (t : PagesTable) (w : World Remote) : World Remote :=
  mkWorld (blocks w) t (s3 w) (tmp w) (notion w) (notion_client w)
    (max_blocks w) (rivals w) (uuid_seed w).

Definition set_tmp (t : gmap string string) (w : World Remote) : World Remote :=
  mkWorld (blocks w) (pages w) (s3 w) t (notion w) (notion_client w)
    (max_blocks w) (rivals w) (uuid_seed w).

Definition set_notion (n : Remote) (w : World Remote) : World Remote :=
  mkWorld (blocks w) (pages w) (s3 w) (tmp w) n (notion_client w)
    (max_blocks w) (rivals w) (uuid_seed w).

Definition set_notion_client (b : bool) (w : World Remote) : World Remote :=
  mkWorld (blocks w) (pages w) (s3 w) (tmp w) (notion w) b
    (max_blocks w) (rivals w) (uuid_seed w).

Definition set_rivals (l : list (option string)) (w : World Remote) : World Remote :=
  mkWorld (blocks w) (pages w) (s3 w) (tmp w) (notion w) (notion_client w)
    (max_blocks w) l (uuid_seed w).

Definition set_uuid_seed (n : N) (w : World Remote) : World Remote :=
  mkWorld (blocks w) (pages w) (s3 w) (tmp w) (notion w) (notion_client w)
    (max_blocks w) (rivals w) n.

End setters.

(** ** The monad of the handlers

    A computation takes the world and returns the world it leaves, the calls
    it made and its result or the exception it raised. *)
Definition M (Remote A : Type) : Type :=
  World Remote → World Remote * list Event * outcome A.

#[global] Instance M_ret {Remote} : MRet (M Remote) :=
  λ A a w, (w, [], Ok a).

#[global] Instance M_bind {Remote} : MBind (M Remote) :=
  λ A B f m w,
    match m w with
    | (w1, e1, Ok a) => let '(w2, e2, r) := f a w1 in (w2, e1 ++ e2, r)
    | (w1, e1, Raise x) => (w1, e1, Raise x)
    end.

Definition is_ok {A} (r : outcome A) : bool :=
  match r with Ok _ => true | Raise _ => false end.

Section primitives.
Context {Remote : Type}.

Definition raise {A} (e : exn) : M Remote A := λ w, (w, [], Raise e).

(** [try: m  finally: cleanup] *)
Definition finally {A} (m : M Remote A) (cleanup : M Remote unit) : M Remote A :=
  λ w,
    let '(w1, e1, r) := m w in
    match cleanup w1 with
    | (w2, e2, Ok _) => (w2, e1 ++ e2, r)
    | (w2, e2, Raise x) => (w2, e1 ++ e2, Raise x)
    end.

Definition emit (e : Event) : M Remote unit := λ w, (w, [e], Ok tt).

(** [int(parameters.get_parameter(MAX_BLOCKS_PARAM))] *)
Definition get_max_blocks : M Remote Z := λ w, (w, [], Ok (max_blocks w)).

Definition query (limit : Z) (batch : string) : M Remote (list BlockItem) :=
  λ w, (w, [], blocks_query limit batch (blocks w)).

Definition delete_item (k : BlockKey) : M Remote unit :=
  λ w, (set_blocks (blocks_delete_item k (blocks w)) w, [EvDelete k], Ok tt).

Definition put_block (item : BlockItem) : M Remote unit :=
  λ w,
    let '(t, r) := blocks_put_item item (blocks w) in
    (set_blocks t w, [EvPutBlock (key_of item) (is_ok r)], r).

Definition get_page (batch : string) : M Remote (option string) :=
  λ w, (w, [], Ok (pages_get_item batch (pages w))).

Definition put_page (batch url : string) : M Remote unit :=
  λ w,
    let '(t, r) := pages_put_item batch url (pages w) in
    (set_pages t w, [EvPutPage batch url (is_ok r)], r).

(** What a concurrent resolver of the same batch stores between this
    resolver's [get_item] and its [put_item]: the head of [rivals], written
    with the same conditional insert; nothing when the list is empty. *)
Definition rival_put (batch : string) : M Remote unit :=
  λ w,
    match rivals w with
    | Some url :: rest =>
        (set_rivals rest (set_pages (pages_put_item batch url (pages w)).1 w), [], Ok tt)
    | None :: rest => (set_rivals rest w, [], Ok tt)
    | [] => (w, [], Ok tt)
    end.

(** [s3_client.download_file(bucket, key, path)] *)
Definition download_file (bucket key path : string) : M Remote unit :=
  λ w,
    match s3 w !! (bucket, key) with
    | Some body => (set_tmp (<[path := body]> (tmp w)) w, [EvS3Download bucket key true], Ok tt)
    | None => (w, [EvS3Download bucket key false], Raise S3ClientError)
    end.

(** [s3_client.get_object(Bucket=bucket, Key=key)["Body"].read().decode("utf-8")] *)
Definition get_object (bucket key : string) : M Remote string :=
  λ w,
    match s3 w !! (bucket, key) with
    | Some body => (w, [EvS3Download bucket key true], Ok body)
    | None => (w, [EvS3Download bucket key false], Raise S3ClientError)
    end.

(** [os.path.isfile(path)] *)
Definition isfile (path : string) : M Remote bool :=
  λ w, (w, [], Ok (bool_decide (is_Some (tmp w !! path)))).

(** [open(path, "r")] and [f.readline()] *)
Definition open_readline (path : string) : M Remote string :=
  λ w,
    match tmp w !! path with
    | Some body => (w, [], Ok (Py.readline body))
    | None => (w, [], Raise FileNotFoundError)
    end.

(** [open(path, "r")] and reading the whole file *)
Definition read_file (path : string) : M Remote string :=
  λ w,
    match tmp w !! path with
    | Some body => (w, [], Ok body)
    | None => (w, [], Raise FileNotFoundError)
    end.

(** [shutil.rmtree(dir)]: the files below [dir] are gone. *)
Definition rmtree (dir : string) : M Remote unit :=
  λ w,
    (set_tmp (filter (λ f : string * string, String.prefix dir f.1 = false) (tmp w)) w,
     [], Ok tt).

(** The global [notion_client]: is it set, and setting it. *)
Definition client_ready : M Remote bool :=
  λ w, (w, [], Ok (notion_client w)).

Definition client_set : M Remote unit :=
  λ w, (set_notion_client true w, [], Ok tt).

(** A call of the Notion client. *)
Definition notion_call {A} (op : Remote → Remote * outcome A) (ev : bool → Event)
  : M Remote A :=
  λ w, let '(n, r) := op (notion w) in (set_notion n w, [ev (is_ok r)], r).

End primitives.

Section control.
Context {Remote : Type}.

(** [try: m  except Exception: handler  else: orelse] *)
Definition try_except_else {A B} (m : M Remote A)
    (handler : exn → M Remote B) (orelse : A → M Remote B) : M Remote B :=
  λ w,
    match m w with
    | (w1, e1, Ok a) => let '(w2, e2, r) := orelse a w1 in (w2, e1 ++ e2, r)
    | (w1, e1, Raise x) => let '(w2, e2, r) := handler x w1 in (w2, e1 ++ e2, r)
    end.

(** [sum(r[0] == status for r in processed_messages)] *)
Definition count_status (status : string) (processed_messages : list (string * BlockItem))
  : nat :=
  length (filter (λ r, r.1 = status) processed_messages).

End control.

(** ** The upload worker: lambdas/upload_notion_blocks/upload_notion_blocks.py *)

Module Uploader.

Definition PARENT_URL_FILENAME : string := "parenturl.txt".

(** What the handler returns to the state machine. *)
Record Results := mkResults {
  result : string;
  success_block_count : nat;
  fail_block_count : nat
}.

Section code.
Context {Remote : Type} `{!NotionAPI Remote}.

Definition get_or_make_page (batch_id title parent_page_url : string)
  : M Remote (option Page) :=
  page ← get_page batch_id;
  match page with
  | Some url => notion_call (get_block url) (EvGetBlock url)
  | None =>
      (* Page doesn't exist yet. Create it. *)
      parent ← notion_call (get_block parent_page_url) (EvGetBlock parent_page_url);
      match parent with
      | None => raise AttributeError (* [parent_page.title] of [None] *)
      | Some parent_page =>
          new_page ←
            (if decide (page_type parent_page = CollectionViewBlock
                        ∨ page_type parent_page = CollectionViewPageBlock)
             then
               row ← notion_call (add_row parent_page) (EvAddRow (page_url parent_page));
               notion_call (set_title row title) (EvSetTitle (page_url row) title);;
               mret row
             else if decide (page_type parent_page = PageBlock)
             then notion_call (add_new parent_page title)
                    (EvAddNew (page_url parent_page) title)
             else raise ValueError);
          rival_put batch_id;;
          (* the rejection is logged and raised again *)
          put_page batch_id (page_url new_page);;
          mret (Some new_page)
      end
  end.

Definition init_notion_client : M Remote unit :=
  ready ← client_ready;
  if ready : bool then mret tt
  else notion_call new_client EvNewClient;; client_set.

Definition record_handler (record : BlockItem) (tmpdir : string) : M Remote bool :=
  emit (EvProcess (key_of record));;
  cached ← isfile (tmpdir +:+ PARENT_URL_FILENAME);
  (if cached : bool then mret tt
   else download_file (S3BucketName record)
          (Py.rsplit_head (S3ObjectKey record) +:+ "/" +:+ PARENT_URL_FILENAME)
          (tmpdir +:+ PARENT_URL_FILENAME));;
  line ← open_readline (tmpdir +:+ PARENT_URL_FILENAME);
  let parent_page_url := Py.rstrip line in
  init_notion_client;;
  let title := Py.basename (S3ObjectKey record) in
  let title := if Py.endswith title ".md" then Py.drop_last3 title else title in
  new_page ← get_or_make_page (BlockBatch record) title parent_page_url;
  let block := BlockContent record in
  notion_call (uploadBlock block new_page) (EvUpload (key_of record));;
  mret true.

(** The [for record in response["Items"]] loop of the handler: [break] at
    the first record whose handler raises. *)
Fixpoint process_records (tmpdir : string) (records : list BlockItem)
    (processed_messages : list (string * BlockItem))
  : M Remote (list (string * BlockItem)) :=
  match records with
  | [] => mret processed_messages
  | record :: rest =>
      try_except_else (record_handler record tmpdir)
        (λ _, mret (processed_messages ++ [("fail", record)]))
        (λ r,
           delete_item (key_of record);;
           process_records tmpdir rest
             (if r : bool then processed_messages ++ [("success", record)]
              else processed_messages))
  end.

Definition handler (batch : string) : M Remote Results :=
  max_blocks ← get_max_blocks;
  records ← query max_blocks batch;
  (* Storage for images, PDFs, etc, which are embedded in the block. *)
  let tmpdir := "/tmp/" +:+ batch +:+ "/" in
  processed_messages ← process_records tmpdir records [];
  let success := count_status "success" processed_messages in
  let fail := count_status "fail" processed_messages in
  rmtree tmpdir;;
  mret {| result := if decide (0 < fail) then "FAIL" else "SUCCESS";
          success_block_count := success;
          fail_block_count := fail |}.

End code.
End Uploader.

(** ** The older worker: lambdas/upload_notion_blocks.py *)

Module FlatUploader.
Section code.
Context {Remote : Type} `{!NotionAPI Remote}.

Definition get_or_make_page (batch_id title parent_page_url : string)
  : M Remote (option Page) :=
  page ← get_page batch_id;
  match page with
  | Some url => notion_call (get_block url) (EvGetBlock url)
  | None =>
      (* Page doesn't exist yet. Create it. *)
      parent ← notion_call (get_block parent_page_url) (EvGetBlock parent_page_url);
      match parent with
      | None => raise AttributeError (* [parent_page.title] of [None] *)
      | Some parent_page =>
          new_page ← notion_call (add_new parent_page title)
                       (EvAddNew (page_url parent_page) title);
          rival_put batch_id;;
          (* the rejection is logged and dropped *)
          try_except_else (put_page batch_id (page_url new_page))
            (λ _, mret tt) (λ _, mret tt);;
          mret (Some new_page)
      end
  end.

Definition init_notion_client : M Remote unit :=
  ready ← client_ready;
  if ready : bool then mret tt
  else notion_call new_client EvNewClient;; client_set.

Definition record_handler (record : BlockItem) : M Remote bool :=
  emit (EvProcess (key_of record));;
  (* Storage for images, PDFs, etc, which are embedded in the block. *)
  let tmpdir := "/tmp/" +:+ BlockBatch record +:+ "/" in
  let parent_page_filename :=
    Py.rsplit_head (S3ObjectKey record) +:+ "/parenturl.txt" in
  body ← get_object (S3BucketName record) parent_page_filename;
  let parent_page_url := Py.strip body in
  init_notion_client;;
  let title := Py.basename (S3ObjectKey record) in
  let title := if Py.endswith title ".md" then Py.drop_last3 title else title in
  new_page ← get_or_make_page (BlockBatch record) title parent_page_url;
  let block := BlockContent record in
  finally (notion_call (uploadBlock block new_page) (EvUpload (key_of record)))
    (rmtree tmpdir);;
  mret true.

(** The [for record in response["Items"]] loop: no [break]. *)
Fixpoint process_records (records : list BlockItem)
    (processed_messages : list (string * BlockItem))
  : M Remote (list (string * BlockItem)) :=
  match records with
  | [] => mret processed_messages
  | record :: rest =>
      try_except_else (record_handler record)
        (λ _, process_records rest (processed_messages ++ [("fail", record)]))
        (λ r,
           delete_item (key_of record);;
           process_records rest
             (if r : bool then processed_messages ++ [("success", record)]
              else processed_messages))
  end.

(** The handler computes the two counts for its metrics and returns [None]. *)
Definition handler (batch : string) : M Remote unit :=
  max_blocks ← get_max_blocks;
  records ← query max_blocks batch;
  processed_messages ← process_records records [];
  let success := count_status "success" processed_messages in
  let fail := count_status "fail" processed_messages in
  mret tt.

End code.
End FlatUploader.

(** ** The ingestion consumer: lambdas/store_notion_blocks.py *)

Module Store.

(** One record of an S3 event notification. *)
Record S3EventRecord := mkS3EventRecord {
  bucket_name : string;   (* s3e.s3.bucket.name *)
  object_key : string     (* s3e.s3.get_object.key *)
}.

(** [S3Event(json.loads(record.body))] *)
Record S3Event := mkS3Event {
  Event : option string;  (* s3events.get("Event") *)
  Records : list S3EventRecord
}.

Section code.
Context {Remote : Type}.

(** [urllib.parse.unquote_plus], md2notion's [convert] applied to the text
    of the Markdown file, and the text of the [n]-th UUID that [uuid.uuid4]
    draws. *)
Variable unquote_plus : string → string.
Variable convert : string → list Rendered.
Variable uuid_str : N → string.

(** [str(uuid.uuid4())] *)
Definition uuid4 : M Remote string :=
  λ w, (set_uuid_seed (N.succ (uuid_seed w)) w, [], Ok (uuid_str (uuid_seed w))).

(** [block.get("type") is TextBlock and block.get("title") == "<!-- -->"] *)
Definition is_comment (block : Rendered) : bool :=
  bool_decide (b_type block = Some TextBlock)
  && bool_decide (b_title block = Some "<!-- -->").

(** [for idx, block in enumerate(rendered)], from [idx] on. *)
Fixpoint store_blocks (batch_id bucket unquote_key : string) (idx : Z)
    (rendered : list Rendered) : M Remote unit :=
  match rendered with
  | [] => mret tt
  | block :: rest =>
      if is_comment block
      then store_blocks batch_id bucket unquote_key (idx + 1) rest
      else
        put_block {| BlockBatch := batch_id;
                     BlockIndex := idx;
                     S3BucketName := bucket;
                     S3ObjectKey := unquote_key;
                     BlockContent := block |};;
        store_blocks batch_id bucket unquote_key (idx + 1) rest
  end.

(** The body of [for s3e in s3events.records]. *)
Definition store_page (s3e : S3EventRecord) : M Remote unit :=
  batch_id ← uuid4;
  let unquote_key := unquote_plus (object_key s3e) in
  let md_filename := Py.basename unquote_key in
  let tmpdir := "/tmp/" +:+ batch_id +:+ "/" in
  finally
    (download_file (bucket_name s3e) unquote_key (tmpdir +:+ md_filename);;
     md_file ← read_file (tmpdir +:+ md_filename);
     let rendered := convert md_file in
     store_blocks batch_id (bucket_name s3e) unquote_key 0 rendered)
    (rmtree tmpdir);;
  (* Signal that a new batch of blocks is ready. *)
  emit (EvPutEvents batch_id).

Fixpoint store_pages (records : list S3EventRecord) : M Remote unit :=
  match records with
  | [] => mret tt
  | s3e :: rest => store_page s3e;; store_pages rest
  end.

Definition record_handler (s3events : S3Event) : M Remote unit :=
  if decide (Event s3events = Some "s3:TestEvent") then mret tt
  else store_pages (Records s3events).

End code.
End Store.

(** ** A small workspace to run the functions on

    Pages are known by URL, uploaded blocks are appended to a journal, and a
    script of outages tells which of the coming calls fail. *)

Module Demo.

Record Workspace := mkWorkspace {
  known : list Page;
  uploaded : list (string * Rendered);
  outages : list bool
}.

Definition guarded {A} (op : Workspace → Workspace * outcome A) (ws : Workspace)
  : Workspace * outcome A :=
  match outages ws with
  | true :: rest => (mkWorkspace (known ws) (uploaded ws) rest, Raise NotionError)
  | false :: rest => op (mkWorkspace (known ws) (uploaded ws) rest)
  | [] => op ws
  end.

Definition fresh_url (ws : Workspace) : string :=
  "https://www.notion.so/" +:+ pretty (length (known ws)).

Definition create (title : string) (ws : Workspace) : Workspace * outcome Page :=
  let p := mkPage (fresh_url ws) PageBlock title in
  (mkWorkspace (known ws ++ [p]) (uploaded ws) (outages ws), Ok p).

#[global] Instance api : NotionAPI Workspace := {
  new_client := guarded (λ ws, (ws, Ok tt));
  get_block url :=
    guarded (λ ws, (ws, Ok (snd <$> list_find (λ p, page_url p = url) (known ws))));
  add_row parent := guarded (create "");
  set_title p title := guarded (λ ws, (ws, Ok tt));
  add_new parent title := guarded (create title);
  uploadBlock block page :=
    guarded (λ ws,
      match page with
      | None => (ws, Raise AttributeError)
      | Some p =>
          (mkWorkspace (known ws) (uploaded ws ++ [(page_url p, block)]) (outages ws),
           Ok tt)
      end)
}.

Definition text (s : string) : Rendered := mkRendered (Some TextBlock) (Some s) "".

Definition parent : Page := mkPage "https://www.notion.so/wiki" PageBlock "Wiki".

Definition block (batch : string) (i : Z) (s : string) : BlockItem :=
  mkBlockItem batch i "staging" "Wiki/Doc.md" (text s).

(** Batch b1 holds the blocks 0, 1 and 2 (stored out of order), the staging
    bucket holds the parent URL of the document, no page is mapped yet. *)
Definition world (limit : Z) (script : list bool) (races : list (option string))
  : World Workspace :=
  {| blocks := put_all [block "b1" 2 "c"; block "b1" 0 "a"; block "b1" 1 "b"] ∅;
     pages := ∅;
     s3 := {[ ("staging", "Wiki/parenturl.txt") :=
                "https://www.notion.so/wiki" +:+ String "010"%char "" ]};
     tmp := ∅;
     notion := mkWorkspace [parent] [] script;
     notion_client := false;
     max_blocks := limit;
     rivals := races;
     uuid_seed := 0 |}.

(** Scenario B: the upload of block 1 fails. The calls of the run that reach
    Notion are: new client, fetch the parent, add the page, upload block 0,
    fetch the page, upload block 1. *)
Definition failing_script : list bool := [false; false; false; false; false; true].

(** The batch is already mapped to a page of the workspace. *)
Definition mapped_world : World Workspace :=
  set_pages {[ "b1" := "https://www.notion.so/wiki" ]} (world 200 [] []).

(** The ingestion side: a staged Markdown file, a renderer that yields a
    paragraph, the comment pandoc puts after a list, and a second
    paragraph, and identifiers numbered as they are drawn. *)
Definition comment : Rendered := text "<!-- -->".

Definition convert (md : string) : list Rendered := [text md; comment; text "end"].

Definition uuid_str (n : N) : string := "batch-" +:+ pretty n.

Definition staged_world : World Workspace :=
  {| blocks := ∅;
     pages := ∅;
     s3 := {[ ("staging", "Wiki/Doc.md") := "hello" ]};
     tmp := ∅;
     notion := mkWorkspace [parent] [] [];
     notion_client := false;
     max_blocks := 200;
     rivals := [];
     uuid_seed := 0 |}.

Definition arrival : Store.S3Event :=
  Store.mkS3Event None [Store.mkS3EventRecord "staging" "Wiki/Doc.md"].

Definition deliver (w : World Workspace) :=
  Store.record_handler (λ s, s) convert uuid_str arrival w.

(** A concurrent resolver stores its page for the batch while this one is
    creating its own. *)
Definition raced_world : World Workspace :=
  world 200 [] [Some "https://www.notion.so/rival"].

End Demo.

(** ** Reading the calls of a run *)

(** The events that concern a block of the store: the worker entered its
    record handler, uploaded it, deleted it. *)
Definition is_block_event (e : Event) : bool :=
  match e with
  | EvProcess _ | EvUpload _ _ | EvDelete _ => true
  | _ => false
  end.

Definition block_events (evs : list Event) : list Event :=
  filter (λ e, is_block_event e = true) evs.

(** The calls that reach Notion. *)
Definition is_remote_call (e : Event) : bool :=
  match e with
  | EvNewClient _ | EvGetBlock _ _ | EvAddRow _ _ | EvSetTitle _ _ _
  | EvAddNew _ _ _ | EvUpload _ _ => true
  | _ => false
  end.

(** The keys of the blocks the worker took up, in the order it did. *)
Definition processed_keys (evs : list Event) : list BlockKey :=
  omap (λ e, match e with EvProcess k => Some k | _ => None end) evs.

(** The keys of the blocks whose upload went through, of those that were
    deleted, and of those whose upload raised. *)
Definition uploaded_keys (evs : list Event) : list BlockKey :=
  omap (λ e, match e with EvUpload k true => Some k | _ => None end) evs.

Definition deleted_keys (evs : list Event) : list BlockKey :=
  omap (λ e, match e with EvDelete k => Some k | _ => None end) evs.

Definition failed_uploads (evs : list Event) : list BlockKey :=
  omap (λ e, match e with EvUpload k false => Some k | _ => None end) evs.

(** The keys the ingestion consumer tried to insert, in order. *)
Definition put_keys (evs : list Event) : list BlockKey :=
  omap (λ e, match e with EvPutBlock k _ => Some k | _ => None end) evs.

(** What a chunk leaves in the trace for a block that went through, and for
    the block it stopped at ([reached]: the failure was the upload itself). *)
Definition success_events (r : BlockItem) : list Event :=
  [EvProcess (key_of r); EvUpload (key_of r) true; EvDelete (key_of r)].

Definition failure_events (failed : option (BlockItem * bool)) : list Event :=
  match failed with
  | None => []
  | Some (f, reached) =>
      EvProcess (key_of f) :: (if reached then [EvUpload (key_of f) false] else [])
  end.

Definition chunk_events (done : list BlockItem) (failed : option (BlockItem * bool))
  : list Event :=
  (done ≫= success_events) ++ failure_events failed.

(** What a listing of [batch] cut at [limit] is, for the table [t]: at most
    [limit] items of the batch, all stored, in strictly ascending order of
    their index, and no stored item of the batch that was left out comes
    before a listed one. *)
Definition index_lt (a b : BlockItem) : Prop := (BlockIndex a < BlockIndex b)%Z.

Record listing (limit : Z) (batch : string) (t : BlocksTable) (l : list BlockItem)
  : Prop := mkListing {
  listing_length : (Z.of_nat (length l) ≤ limit)%Z;
  listing_sorted : StronglySorted Z.lt (BlockIndex <$> l);
  listing_batch : Forall (λ item, BlockBatch item = batch) l;
  listing_stored : Forall (λ item, t !! key_of item = Some (attrs_of item)) l;
  listing_keys : NoDup (key_of <$> l);
  listing_lowest : ∀ item, item ∈ items t → BlockBatch item = batch → item ∉ l →
                   Forall (λ x, index_lt x item) l
}.

(** A computation that leaves the block store and the chunk size alone and
    makes no call about a block. *)
Definition quiet {Remote A} (m : M Remote A) : Prop :=
  ∀ w w' evs r, m w = (w', evs, r) →
    blocks w' = blocks w ∧ max_blocks w' = max_blocks w
    ∧ Forall (λ e, is_block_event e = false) evs.

(** A computation that ends with the upload of block [k]: quiet calls, then
    either the upload went through and the result is [True], or an
    exception, raised by the upload or before it was reached. *)
Definition uploads {Remote} (k : BlockKey) (m : M Remote bool) : Prop :=
  ∀ w w' evs r, m w = (w', evs, r) →
    blocks w' = blocks w ∧ max_blocks w' = max_blocks w
    ∧ ∃ q u, evs = q ++ u ∧ Forall (λ e, is_block_event e = false) q
        ∧ ((r = Ok true ∧ u = [EvUpload k true])
           ∨ (∃ x, r = Raise x ∧ (u = [] ∨ u = [EvUpload k false]))).

(** The records of a chunk that are left when the loop ends: the one it
    stopped at and those after it. *)
Definition left_over (failed : option (BlockItem * bool)) (later : list BlockItem)
  : list BlockItem :=
  match failed with Some (f, _) => f :: later | None => [] end.

Definition fail_count (failed : option (BlockItem * bool)) : nat :=
  match failed with Some _ => 1 | None => 0 end.

(** The indices the ingestion loop stores when it numbers [rendered] from
    [idx] on: the positions of the blocks that are no pandoc comment. *)
Fixpoint kept_from (idx : Z) (rendered : list Rendered) : list Z :=
  match rendered with
  | [] => []
  | block :: rest =>
      if Store.is_comment block then kept_from (idx + 1) rest
      else idx :: kept_from (idx + 1) rest
  end.

(** The batch identifiers announced on the event bus, in order. *)
Definition announced (evs : list Event) : list string :=
  omap (λ e, match e with EvPutEvents b => Some b | _ => None end) evs.

(** No block is stored under a batch identifier that [uuid4] has yet to
    draw. *)
Definition unused {Remote} (uuid_str : N → string) (w : World Remote) : Prop :=
  ∀ n j, (uuid_seed w ≤ n)%N → blocks w !! (uuid_str n, j) = None.

(** A computation made of calls to Notion only: it leaves the page mappings
    and the concurrent resolvers alone and attempts no insert of a mapping. *)
Definition is_put_page (e : Event) : bool :=
  match e with EvPutPage _ _ _ => true | _ => false end.

Definition remote_only {Remote A} (m : M Remote A) : Prop :=
  ∀ w w' evs r, m w = (w', evs, r) →
    pages w' = pages w ∧ rivals w' = rivals w
    ∧ Forall (λ e, is_put_page e = false) evs.

(** The blocks of [batch] that the table holds: what is left to upload. *)
Definition backlog (batch : string) (t : BlocksTable) : list BlockItem :=
  filter (λ item, BlockBatch item = batch) (items t).

(** ** The file getter of the worker

    [get_image_object], the function [record_handler] of
    lambdas/upload_notion_blocks/upload_notion_blocks.py hands to
    [uploadBlock] as [imagePathFunc]. *)

(** [needle in s] *)
Fixpoint str_contains (needle s : string) : bool :=
  String.prefix needle s
  || match s with
     | EmptyString => false
     | String _ r => str_contains needle r
     end.

(** What the getter returns: the URL it was given, or the local path
    [Path(tmpdir) / Path(file_name)]. *)
Inductive ImagePath :=
| RemoteUrl (url : string)
| LocalFile (dir file_name : string).

Definition get_image_object {Remote} (record : BlockItem) (tmpdir : string)
    (relative_path : string) : M Remote ImagePath :=
  if str_contains "://" relative_path then mret (RemoteUrl relative_path)
  else
    let file_name :=
      if str_contains "/" relative_path
      then match Py.rsplit_slash relative_path with
           | Some (_, t) => t
           | None => relative_path
           end
      else relative_path in
    download_file (S3BucketName record) ("File/" +:+ relative_path)
      (tmpdir +:+ file_name);;
    mret (LocalFile tmpdir file_name).

(** ** The failure recorder: lambdas/store_notion_page_fails/store_notion_page_fails.py *)

Module PageFails.

(** One record of an S3 event notification. *)
Record S3EventRecord := mkS3EventRecord {
  bucket_name : string;   (* s3e.s3.bucket.name *)
  object_key : string;    (* s3e.s3.get_object.key *)
  event_time : string     (* s3e.event_time *)
}.

Record S3Event := mkS3Event {
  Event : option string;  (* s3events.get("Event") *)
  Records : list S3EventRecord
}.

Section code.

(** [urllib.parse.unquote_plus], and
    [Decimal(dt.timestamp(dt.strptime(s, "%Y-%m-%dT%H:%M:%S.%fZ")) * 1000)],
    which is [None] where [strptime] raises ValueError. *)
Variable unquote_plus : string → string.
Context {Time : Type} `{Countable Time}.
Variable event_time_usec : string → option Time.

(** NotionPageFailures: partition key S3ObjectKey (a string), sort key
    EventTime (a number), attribute S3BucketName. *)
Abbreviation FailsTable := (gmap (string * Time) string).

(** [table.put_item(Item=...)] without a condition: the item replaces the
    one with its key. *)
Definition fails_put_item (key : string) (time : Time) (bucket : string)
    (t : FailsTable) : FailsTable :=
  <[(key, time) := bucket]> t.

(** [for s3e in s3events.records] *)
Fixpoint store_fails (records : list S3EventRecord) (t : FailsTable)
  : FailsTable * outcome unit :=
  match records with
  | [] => (t, Ok tt)
  | s3e :: rest =>
      let key := unquote_plus (object_key s3e) in
      match event_time_usec (event_time s3e) with
      | None => (t, Raise ValueError)
      | Some time => store_fails rest (fails_put_item key time (bucket_name s3e) t)
      end
  end.

Definition record_handler (s3events : S3Event) (t : FailsTable)
  : FailsTable * outcome unit :=
  if decide (Event s3events = Some "s3:TestEvent") then (t, Ok tt)
  else store_fails (Records s3events) t.

End code.
End PageFails.

(** ** Properties of every run of a computation *)

(** [R] relates the world a run of [m] starts in, the calls it makes and
    the world it leaves, whatever its result. *)
Definition always {Remote A} (R : World Remote → list Event → World Remote → Prop)
    (m : M Remote A) : Prop :=
  ∀ w w' evs r, m w = (w', evs, r) → R w evs w'.

(** A relation that holds of doing nothing and of one run after another. *)
Record frame {Remote} (R : World Remote → list Event → World Remote → Prop)
  : Prop := mkFrame {
  frame_nil : ∀ w, R w [] w;
  frame_app : ∀ w e1 w1 e2 w2, R w e1 w1 → R w1 e2 w2 → R w (e1 ++ e2) w2
}.

(** The number of calls of the kind [f] in a trace. *)
Definition calls (f : Event → bool) (evs : list Event) : nat :=
  length (filter (λ e, f e = true) evs).

(** A run that leaves the part [proj] of the world as it is and makes no
    call of the kind [f]. *)
Definition unchanged {Remote X} (proj : World Remote → X) (f : Event → bool)
    (w : World Remote) (evs : list Event) (w' : World Remote) : Prop :=
  proj w' = proj w ∧ calls f evs = 0.

(** A run that keeps [P] once it holds and makes no call of the kind [f]. *)
Definition keeps {Remote} (P : World Remote → Prop) (f : Event → bool)
    (w : World Remote) (evs : list Event) (w' : World Remote) : Prop :=
  (P w → P w') ∧ calls f evs = 0.

(** A step guarded by [P]: where [P] holds the step makes no call of the
    kind [f] and [P] holds after it; otherwise it makes at most one such
    call, and after that call either [P] holds or the step has raised. *)
Definition latch {Remote A} (P : World Remote → Prop) (f : Event → bool)
    (m : M Remote A) : Prop :=
  ∀ w w' evs r, m w = (w', evs, r) →
    (P w → P w' ∧ calls f evs = 0)
    ∧ (calls f evs = 0 ∨ (calls f evs = 1 ∧ (P w' ∨ is_ok r = false))).

(** A computation that makes at most one call of the kind [f], and none
    where [P] holds, which it then keeps. *)
Definition at_most_once {Remote A} (P : World Remote → Prop) (f : Event → bool)
    (m : M Remote A) : Prop :=
  ∀ w w' evs r, m w = (w', evs, r) →
    (P w → P w' ∧ calls f evs = 0) ∧ (calls f evs ≤ 1)%nat.

(** The calls that construct the Notion client, those that have created a
    page, and the downloads of a parent URL file. *)
Definition is_new_client (e : Event) : bool :=
  match e with EvNewClient _ => true | _ => false end.

Definition is_creation (e : Event) : bool :=
  match e with EvAddRow _ true | EvAddNew _ _ true => true | _ => false end.

Definition is_parent_fetch (e : Event) : bool :=
  match e with
  | EvS3Download _ key _ => Py.endswith key ("/" +:+ Uploader.PARENT_URL_FILENAME)
  | _ => false
  end.

(** The global client is set; the batch has a page mapping; the file is on
    the local disk. *)
Definition client_built {Remote} (w : World Remote) : Prop := notion_client w = true.

Definition mapped {Remote} (batch : string) (w : World Remote) : Prop :=
  is_Some (pages w !! batch).

Definition cached {Remote} (path : string) (w : World Remote) : Prop :=
  is_Some (tmp w !! path).

(** The client is set after a run exactly when it was set before or the
    run has constructed it. *)
Definition client_since {Remote}
    (w : World Remote) (evs : list Event) (w' : World Remote) : Prop :=
  notion_client w' = true ↔ notion_client w = true ∨ EvNewClient true ∈ evs.

(** The announcements on the event bus, and the downloads from the staging
    bucket. *)
Definition is_announce (e : Event) : bool :=
  match e with EvPutEvents _ => true | _ => false end.

Definition is_download (e : Event) : bool :=
  match e with EvS3Download _ _ _ => true | _ => false end.




(** The directory the worker keeps the files of a batch in. *)
Definition tmpdir_of (batch : string) : string := "/tmp/" +:+ batch +:+ "/".

(** A run that touches no file outside [dir]. *)
Definition tmp_within {Remote} (dir : string)
    (w : World Remote) (evs : list Event) (w' : World Remote) : Prop :=
  ∀ path, String.prefix dir path = false → tmp w' !! path = tmp w !! path.

(** A run that changes no page mapping of another batch, keeps the mapping
    of [batch] when there is one, attempts no insert for another batch, and
    has an insert accepted only where the batch had no mapping, which is
    then the mapping it leaves. *)
Definition put_page_for (batch : string) (e : Event) : bool :=
  match e with EvPutPage b _ _ => bool_decide (b = batch) | _ => true end.

Definition pages_kept {Remote} (batch : string)
    (w : World Remote) (evs : list Event) (w' : World Remote) : Prop :=
  (∀ b, b ≠ batch → pages w' !! b = pages w !! b)
  ∧ (∀ url, pages w !! batch = Some url → pages w' !! batch = Some url)
  ∧ Forall (λ e, put_page_for batch e = true) evs
  ∧ (∀ url, EvPutPage batch url true ∈ evs →
       pages w !! batch = None ∧ pages w' !! batch = Some url).

(** * Facts *)

(** Decide a closed proposition by evaluation. *)
Ltac by_compute := apply (bool_decide_unpack _); vm_compute; exact I.

(** ** Strings *)

Example rsplit_head_nested : Py.rsplit_head "Page/sub/Doc.md" = "Page/sub".
Proof. reflexivity. Qed.

Example rsplit_head_flat : Py.rsplit_head "Doc.md" = "Doc.md".
Proof. reflexivity. Qed.

Example basename_nested : Py.basename "Page/sub/Doc.md" = "Doc.md".
Proof. reflexivity. Qed.

Example endswith_md : Py.endswith "Doc.md" ".md" = true.
Proof. reflexivity. Qed.

Example drop_last3_md : Py.drop_last3 "Doc.md" = "Doc".
Proof. reflexivity. Qed.

Example readline_rstrip :
  Py.rstrip (Py.readline ("https://www.notion.so/p1  " +:+ String "010"%char "x"))
  = "https://www.notion.so/p1".
Proof. reflexivity. Qed.

(** ** The monad *)

Section monad_facts.
Context {Remote : Type}.

Lemma run_eta {A} (x : World Remote * list Event * outcome A) :
  x = (x.1.1, x.1.2, x.2).
Proof. by destruct x as [[??]?]. Qed.

Lemma bind_run {A B} (m : M Remote A) (f : A → M Remote B) w :
  (m ≫= f) w =
  match m w with
  | (w1, e1, Ok a) => let '(w2, e2, r) := f a w1 in (w2, e1 ++ e2, r)
  | (w1, e1, Raise x) => (w1, e1, Raise x)
  end.
Proof. reflexivity. Qed.

Lemma bind_inv {A B} (m : M Remote A) (f : A → M Remote B) w w' evs r :
  (m ≫= f) w = (w', evs, r) →
  (∃ x, m w = (w', evs, Raise x) ∧ r = Raise x)
  ∨ (∃ w1 e1 a e2, m w = (w1, e1, Ok a) ∧ f a w1 = (w', e2, r) ∧ evs = e1 ++ e2).
Proof.
  rewrite bind_run. destruct (m w) as [[w1 e1] [a|x]].
  - destruct (f a w1) as [[w2 e2] r2] eqn:Hf. intros [= <- <- <-].
    right. by exists w1, e1, a, e2.
  - intros [= <- <- <-]. left. by exists x.
Qed.

Lemma quiet_ret {A} (a : A) : quiet (mret a : M Remote A).
Proof. intros w w' evs r [= <- <- <-]. auto. Qed.

Lemma quiet_raise {A} e : quiet (raise e : M Remote A).
Proof. intros w w' evs r [= <- <- <-]. auto. Qed.

Lemma quiet_bind {A B} (m : M Remote A) (f : A → M Remote B) :
  quiet m → (∀ a, quiet (f a)) → quiet (m ≫= f).
Proof.
  intros Hm Hf w w' evs r
    [(x & H & ->)|(w1 & e1 & a & e2 & H1 & H2 & ->)]%bind_inv.
  - by apply Hm in H.
  - apply Hm in H1 as (Hb1 & Hm1 & ?). apply Hf in H2 as (Hb2 & Hm2 & ?).
    rewrite Hb2, Hm2, Forall_app. auto.
Qed.

Lemma quiet_finally {A} (m : M Remote A) c : quiet m → quiet c → quiet (finally m c).
Proof.
  intros Hm Hc w w' evs r. unfold finally.
  destruct (m w) as [[w1 e1] r1] eqn:H1. apply Hm in H1 as (Hb1 & Hm1 & ?).
  destruct (c w1) as [[w2 e2] [[]|x]] eqn:H2; apply Hc in H2 as (Hb2 & Hm2 & ?);
    intros [= <- <- <-]; rewrite Hb2, Hm2, Forall_app; auto.
Qed.

Lemma quiet_try_except_else {A B} (m : M Remote A) (h : exn → M Remote B) k :
  quiet m → (∀ x, quiet (h x)) → (∀ a, quiet (k a)) → quiet (try_except_else m h k).
Proof.
  intros Hm Hh Hk w w' evs r. unfold try_except_else.
  destruct (m w) as [[w1 e1] [a|x]] eqn:H1; apply Hm in H1 as (Hb1 & Hm1 & ?).
  - destruct (k a w1) as [[w2 e2] r2] eqn:H2. apply Hk in H2 as (Hb2 & Hm2 & ?).
    intros [= <- <- <-]. rewrite Hb2, Hm2, Forall_app. auto.
  - destruct (h x w1) as [[w2 e2] r2] eqn:H2. apply Hh in H2 as (Hb2 & Hm2 & ?).
    intros [= <- <- <-]. rewrite Hb2, Hm2, Forall_app. auto.
Qed.

Ltac quiet_prim :=
  intros w w' evs r; cbv delta [get_page put_page rival_put download_file
    get_object isfile open_readline read_file rmtree client_ready client_set
    notion_call get_max_blocks query] beta;
  repeat case_match; intros [= <- <- <-]; simpl; repeat split; auto.

Lemma quiet_get_page batch : quiet (get_page batch : M Remote _).
Proof. quiet_prim. Qed.

Lemma quiet_put_page batch url : quiet (put_page batch url : M Remote _).
Proof. quiet_prim. Qed.

Lemma quiet_rival_put batch : quiet (rival_put batch : M Remote _).
Proof. quiet_prim. Qed.

Lemma quiet_download_file b k p : quiet (download_file b k p : M Remote _).
Proof. quiet_prim. Qed.

Lemma quiet_get_object b k : quiet (get_object b k : M Remote _).
Proof. quiet_prim. Qed.

Lemma quiet_isfile p : quiet (isfile p : M Remote _).
Proof. quiet_prim. Qed.

Lemma quiet_open_readline p : quiet (open_readline p : M Remote _).
Proof. quiet_prim. Qed.

Lemma quiet_read_file p : quiet (read_file p : M Remote _).
Proof. quiet_prim. Qed.

Lemma quiet_rmtree d : quiet (rmtree d : M Remote _).
Proof. quiet_prim. Qed.

Lemma quiet_client_ready : quiet (client_ready : M Remote _).
Proof. quiet_prim. Qed.

Lemma quiet_client_set : quiet (client_set : M Remote _).
Proof. quiet_prim. Qed.

Lemma quiet_notion_call {A} (op : Remote → Remote * outcome A) ev :
  (∀ b, is_block_event (ev b) = false) → quiet (notion_call op ev).
Proof. intros Hev. quiet_prim. Qed.

End monad_facts.

(** ** The NotionBlocks table *)

Section table_facts.
Implicit Types (t : BlocksTable) (item : BlockItem) (l : list BlockItem).

Lemma key_of_item_of e : key_of (item_of e) = e.1.
Proof. by destruct e as [[??]?]. Qed.

Lemma attrs_of_item_of e : attrs_of (item_of e) = e.2.
Proof. by destruct e as [[??] [[??]?]]. Qed.

Lemma item_of_key_attrs item : item_of (key_of item, attrs_of item) = item.
Proof. by destruct item. Qed.

Lemma items_keys t : key_of <$> items t = (map_to_list t).*1.
Proof.
  unfold items. rewrite <-list_fmap_compose. apply list_fmap_ext.
  intros ? e _. apply key_of_item_of.
Qed.

Lemma NoDup_items_keys t : NoDup (key_of <$> items t).
Proof. rewrite items_keys. apply NoDup_fst_map_to_list. Qed.

Lemma elem_of_items t item : item ∈ items t ↔ t !! key_of item = Some (attrs_of item).
Proof.
  unfold items. rewrite list_elem_of_fmap. split.
  - intros ([k v] & -> & H%elem_of_map_to_list).
    by rewrite key_of_item_of, attrs_of_item_of.
  - intros H. exists (key_of item, attrs_of item).
    split; [by rewrite item_of_key_attrs|by apply elem_of_map_to_list].
Qed.

#[local] Instance index_le_total : Total index_le.
Proof. intros a b. unfold index_le. lia. Qed.

#[local] Instance index_le_trans : Transitive index_le.
Proof. intros a b c. unfold index_le. lia. Qed.

Lemma same_batch_keys batch l :
  Forall (λ item, BlockBatch item = batch) l →
  key_of <$> l = (λ i, (batch, i)) <$> (BlockIndex <$> l).
Proof.
  induction 1 as [|item l <- _ IH]; [done|]. csimpl. by rewrite IH.
Qed.

Lemma index_le_lt l :
  StronglySorted index_le l → NoDup (BlockIndex <$> l) → StronglySorted index_lt l.
Proof.
  induction 1 as [|x l _ IH Hx]; csimpl; [constructor|].
  rewrite NoDup_cons. intros [Hnot Hl]. constructor; [auto|].
  rewrite Forall_forall in Hx |- *. intros y Hy.
  assert (BlockIndex x ≠ BlockIndex y).
  { intros Heq. apply Hnot. rewrite Heq. by apply list_elem_of_fmap_2. }
  specialize (Hx y Hy). unfold index_le, index_lt in *. lia.
Qed.

(** The whole partition of [batch], sorted. *)
Lemma partition_sorted batch t :
  let part := merge_sort index_le (filter (λ item, BlockBatch item = batch) (items t)) in
  StronglySorted index_lt part
  ∧ NoDup (key_of <$> part)
  ∧ (∀ item, item ∈ part ↔ item ∈ items t ∧ BlockBatch item = batch).
Proof.
  intros part.
  assert (Hperm : part ≡ₚ filter (λ item, BlockBatch item = batch) (items t))
    by apply merge_sort_Permutation.
  assert (Hin : ∀ item, item ∈ part ↔ item ∈ items t ∧ BlockBatch item = batch).
  { intros item. rewrite Hperm, list_elem_of_filter. tauto. }
  assert (Hkeys : NoDup (key_of <$> part)).
  { rewrite Hperm. eapply sublist_NoDup; [apply NoDup_items_keys|].
    apply fmap_sublist, sublist_filter. }
  split_and!; [|done..].
  apply index_le_lt; [apply (StronglySorted_merge_sort _)|].
  rewrite (same_batch_keys batch) in Hkeys; [by apply NoDup_fmap_1 in Hkeys|].
  apply Forall_forall. intros item. rewrite Hin. tauto.
Qed.

Lemma blocks_query_listing limit batch t :
  (1 ≤ limit)%Z →
  ∃ l, blocks_query limit batch t = Ok l ∧ listing limit batch t l.
Proof.
  intros Hlimit. unfold blocks_query. case_decide; [lia|].
  eexists; split; [done|].
  destruct (partition_sorted batch t) as (Hsorted & Hkeys & Hin).
  set (part := merge_sort _ _) in *. set (n := Z.to_nat limit).
  assert (Hsub : take n part `sublist_of` part) by apply sublist_take.
  assert (Hall : ∀ item, item ∈ take n part → item ∈ items t ∧ BlockBatch item = batch).
  { intros item Hitem. apply Hin. by eapply elem_of_sublist. }
  rewrite <-(take_drop n part) in Hsorted, Hkeys.
  split.
  - rewrite length_take. lia.
  - eapply StronglySorted_fmap, StronglySorted_app_1_l, Hsorted. auto.
  - apply Forall_forall. intros item ?%Hall. tauto.
  - apply Forall_forall. intros item [?%elem_of_items _]%Hall. done.
  - rewrite fmap_app in Hkeys. by apply NoDup_app in Hkeys as [? _].
  - intros item Hitem Hbatch Hnot. apply Forall_forall. intros x Hx.
    eapply StronglySorted_app_1_elem_of; [apply Hsorted|done|].
    assert (item ∈ take n part ++ drop n part) as [?|?]%elem_of_app; [|done..].
    rewrite take_drop. by apply Hin.
Qed.

Lemma blocks_query_invalid limit batch t :
  (limit < 1)%Z → blocks_query limit batch t = Raise ValidationException.
Proof. intros. unfold blocks_query. by case_decide. Qed.

End table_facts.

(** ** The worker *)

Section uploader_facts.
Context {Remote : Type} `{!NotionAPI Remote}.

Ltac quiet_step :=
  first
    [ apply quiet_ret | apply quiet_raise | apply quiet_get_page
    | apply quiet_put_page | apply quiet_rival_put | apply quiet_download_file
    | apply quiet_get_object | apply quiet_isfile | apply quiet_open_readline
    | apply quiet_read_file | apply quiet_rmtree | apply quiet_client_ready
    | apply quiet_client_set
    | apply quiet_notion_call; by intros []
    | apply quiet_bind; [|intros ?]
    | case_match ].

Lemma quiet_get_or_make_page batch title parent :
  quiet (Uploader.get_or_make_page (Remote:=Remote) batch title parent).
Proof. unfold Uploader.get_or_make_page. repeat quiet_step. Qed.

Lemma quiet_init_notion_client : quiet (Uploader.init_notion_client (Remote:=Remote)).
Proof. unfold Uploader.init_notion_client. repeat quiet_step. Qed.

Lemma block_events_quiet q :
  Forall (λ e, is_block_event e = false) q → block_events q = [].
Proof.
  induction 1 as [|e q He _ IH]; [done|].
  unfold block_events in *. rewrite filter_cons, decide_False; [done|congruence].
Qed.

Lemma uploads_bind {A} k (m : M Remote A) f :
  quiet m → (∀ a, uploads k (f a)) → uploads k (m ≫= f).
Proof.
  intros Hm Hf w w' evs r
    [(x & H & ->)|(w1 & e1 & a & e2 & H1 & H2 & ->)]%bind_inv.
  - apply Hm in H as (? & ? & ?). split_and!; [done..|].
    exists evs, []. rewrite app_nil_r. eauto 10.
  - apply Hm in H1 as (Hb1 & Hm1 & ?).
    apply Hf in H2 as (Hb2 & Hm2 & q & u & -> & ? & Hr).
    rewrite Hb2, Hm2. split_and!; [done..|].
    exists (e1 ++ q), u. rewrite Forall_app, (assoc_L (++)). auto.
Qed.

Lemma uploads_uploadBlock k block page :
  uploads k (notion_call (uploadBlock block page) (EvUpload k);; mret true).
Proof.
  intros w w' evs r. rewrite bind_run. unfold notion_call.
  destruct (uploadBlock block page (notion w)) as [n [[]|x]];
    intros [= <- <- <-]; (split_and!; [done..|]); exists []; eexists;
    (split; [done|]); split; eauto.
Qed.

Lemma record_handler_run record tmpdir w w' evs r :
  Uploader.record_handler record tmpdir w = (w', evs, r) →
  blocks w' = blocks w ∧ max_blocks w' = max_blocks w
  ∧ ∃ q u, evs = EvProcess (key_of record) :: q ++ u
      ∧ Forall (λ e, is_block_event e = false) q
      ∧ ((r = Ok true ∧ u = [EvUpload (key_of record) true])
         ∨ (∃ x, r = Raise x ∧ (u = [] ∨ u = [EvUpload (key_of record) false]))).
Proof.
  unfold Uploader.record_handler.
  intros [(x & H & ->)|(w1 & e1 & [] & e2 & H1 & H2 & ->)]%bind_inv;
    [discriminate H|].
  injection H1 as <- <-. cbv beta in H2.
  match type of H2 with
  | ?m w = _ => assert (Hup : uploads (key_of record) m)
  end.
  { repeat (apply uploads_bind; [solve [repeat quiet_step]|intros ?]).
    apply uploads_uploadBlock. }
  apply Hup in H2 as (? & ? & q & u & -> & ? & ?). split_and!; [done..|].
  by exists q, u.
Qed.

Lemma block_events_app e1 e2 : block_events (e1 ++ e2) = block_events e1 ++ block_events e2.
Proof. apply filter_app. Qed.

Lemma block_events_record k q u :
  Forall (λ e, is_block_event e = false) q →
  Forall (λ e, is_block_event e = true) u →
  block_events (EvProcess k :: q ++ u) = EvProcess k :: u.
Proof.
  intros Hq Hu. change (EvProcess k :: q ++ u) with ([EvProcess k] ++ q ++ u).
  rewrite !block_events_app, (block_events_quiet q) by done. simpl. f_equal.
  induction Hu as [|e u He _ IH]; [done|].
  unfold block_events in *. by rewrite filter_cons, decide_True, IH.
Qed.

Lemma count_status_app s l1 l2 :
  count_status s (l1 ++ l2) = count_status s l1 + count_status s l2.
Proof. unfold count_status. by rewrite filter_app, length_app. Qed.

Lemma count_status_tagged s s' (l : list BlockItem) :
  count_status s ((λ r, (s', r)) <$> l) = if decide (s' = s) then length l else 0.
Proof.
  unfold count_status. induction l as [|r l IH]; csimpl; [by case_decide|].
  rewrite filter_cons. destruct (decide (s' = s)) as [->|Hne].
  - rewrite decide_True by done. simpl. by rewrite IH.
  - by rewrite decide_False.
Qed.

(** The loop of the handler: the records up to the first failure go through
    one by one, each deleted after its upload; nothing happens to the
    records after the one that failed. *)
Lemma process_records_run tmpdir records processed w w' evs out :
  Uploader.process_records tmpdir records processed w = (w', evs, out) →
  ∃ done failed later,
    records = done ++ left_over failed later
    ∧ out = Ok (processed ++ ((λ r, ("success", r)) <$> done)
                  ++ ((λ r, ("fail", r)) <$> take 1 (left_over failed later)))
    ∧ block_events evs = chunk_events done failed
    ∧ max_blocks w' = max_blocks w
    ∧ ∀ k, blocks w' !! k
           = if decide (k ∈ key_of <$> done) then None else blocks w !! k.
Proof.
  revert processed w w' evs out.
  induction records as [|record rest IH]; intros processed w w' evs out.
  - cbn [Uploader.process_records]. unfold mret, M_ret.
    intros [= <- <- <-]. exists []. exists None. exists [].
    split_and!; try done. simpl. by rewrite app_nil_r.
  - cbn [Uploader.process_records]. unfold try_except_else.
    destruct (Uploader.record_handler record tmpdir w) as [[w1 e1] r1] eqn:Hr.
    apply record_handler_run in Hr
      as (Hb1 & Hm1 & q & u & -> & Hq & [[-> ->]|(x & -> & Hu)]).
    + rewrite bind_run. unfold delete_item at 1.
      destruct (Uploader.process_records _ _ _ _) as [[w2 e2] r2] eqn:Hrest.
      apply IH in Hrest as (done & failed & later & -> & -> & Hev & Hm2 & Hb2).
      intros [= <- <- <-]. exists (record :: done). exists failed. exists later.
      split_and!.
      * done.
      * csimpl. by rewrite <-!(assoc_L (++)).
      * replace (EvProcess (key_of record) :: (q ++ [EvUpload (key_of record) true])
                   ++ EvDelete (key_of record) :: e2)
          with ((EvProcess (key_of record) :: q ++ [EvUpload (key_of record) true])
                ++ [EvDelete (key_of record)] ++ e2) by done.
        rewrite !block_events_app, block_events_record by (by repeat constructor).
        by rewrite Hev.
      * by rewrite Hm2.
      * intros k. rewrite Hb2. simpl. unfold blocks_delete_item. rewrite Hb1.
        csimpl. destruct (decide (k = key_of record)) as [->|Hne].
        -- rewrite lookup_delete_eq. rewrite (decide_True (P:=_ ∈ _ :: _)) by set_solver.
           by case_decide.
        -- rewrite lookup_delete_ne by done.
           destruct (decide (k ∈ key_of <$> done)).
           ++ by rewrite decide_True by (apply elem_of_cons; by right).
           ++ by rewrite decide_False by (rewrite elem_of_cons; by intros [?|?]).
    + unfold mret, M_ret. intros [= <- <- <-].
      exists []. exists (Some (record, bool_decide (u = [EvUpload (key_of record) false]))).
      exists rest.
      split_and!; try done.
      * rewrite app_nil_r. destruct Hu as [->| ->]; unfold chunk_events; simpl.
        -- rewrite block_events_record by done. done.
        -- rewrite block_events_record by (by repeat constructor).
           by rewrite bool_decide_eq_true_2.
      * intros k. rewrite Hb1. by rewrite decide_False by set_solver.
Qed.

(** What one invocation of the worker does. *)
Lemma handler_run batch w :
  (1 ≤ max_blocks w)%Z →
  ∃ records done failed later w' evs,
    blocks_query (max_blocks w) batch (blocks w) = Ok records
    ∧ listing (max_blocks w) batch (blocks w) records
    ∧ records = done ++ left_over failed later
    ∧ Uploader.handler batch w
      = (w', evs,
         Ok {| Uploader.result := if decide (0 < fail_count failed) then "FAIL" else "SUCCESS";
               Uploader.success_block_count := length done;
               Uploader.fail_block_count := fail_count failed |})
    ∧ block_events evs = chunk_events done failed
    ∧ ∀ k, blocks w' !! k
           = if decide (k ∈ key_of <$> done) then None else blocks w !! k.
Proof.
  intros Hlimit.
  destruct (blocks_query_listing (max_blocks w) batch (blocks w) Hlimit)
    as (records & Hquery & Hlisting).
  unfold Uploader.handler. rewrite bind_run. unfold get_max_blocks at 1.
  rewrite bind_run. unfold query at 1. rewrite Hquery.
  rewrite bind_run.
  destruct (Uploader.process_records _ records [] w) as [[w1 e1] r1] eqn:Hloop.
  apply process_records_run in Hloop
    as (done & failed & later & Hrecords & -> & Hev & _ & Hb).
  exists records. exists done. exists failed. exists later. eexists _, _.
  split_and!; [done..| | |].
  - rewrite bind_run. unfold rmtree at 1. unfold mret, M_ret. simpl.
    rewrite !count_status_app, !count_status_tagged.
    rewrite !(decide_True (P:=("fail" = "fail"))) by done.
    rewrite !(decide_True (P:=("success" = "success"))) by done.
    replace (length (take 1 (left_over failed later))) with (fail_count failed)
      by (by destruct failed as [[??]|]).
    rewrite Nat.add_0_r. simpl. reflexivity.
  - by rewrite !app_nil_r.
  - done.
Qed.

End uploader_facts.

(** ** Reading a trace *)

Lemma omap_block_events {B} (f : Event → option B) evs :
  (∀ e, is_block_event e = false → f e = None) →
  omap f (block_events evs) = omap f evs.
Proof.
  intros Hf. unfold block_events. induction evs as [|e evs IH]; [done|].
  rewrite filter_cons. destruct (is_block_event e) eqn:He.
  - rewrite decide_True by done. csimpl. by rewrite IH.
  - rewrite decide_False by done. csimpl. by rewrite IH, Hf.
Qed.

Lemma elem_of_block_events e evs :
  e ∈ block_events evs ↔ e ∈ evs ∧ is_block_event e = true.
Proof. unfold block_events. rewrite list_elem_of_filter. tauto. Qed.

Lemma elem_of_processed_keys k evs : k ∈ processed_keys evs ↔ EvProcess k ∈ evs.
Proof.
  unfold processed_keys. rewrite list_elem_of_omap. split.
  - intros (e & He & Hk). destruct e; by simplify_eq.
  - intros He. by exists (EvProcess k).
Qed.

Lemma elem_of_uploaded_keys k evs : k ∈ uploaded_keys evs ↔ EvUpload k true ∈ evs.
Proof.
  unfold uploaded_keys. rewrite list_elem_of_omap. split.
  - intros (e & He & Hk). destruct e as [| | | | | | | |? []| | |]; by simplify_eq.
  - intros He. by exists (EvUpload k true).
Qed.

Lemma elem_of_deleted_keys k evs : k ∈ deleted_keys evs ↔ EvDelete k ∈ evs.
Proof.
  unfold deleted_keys. rewrite list_elem_of_omap. split.
  - intros (e & He & Hk). destruct e; by simplify_eq.
  - intros He. by exists (EvDelete k).
Qed.

Lemma elem_of_failed_uploads k evs : k ∈ failed_uploads evs ↔ EvUpload k false ∈ evs.
Proof.
  unfold failed_uploads. rewrite list_elem_of_omap. split.
  - intros (e & He & Hk). destruct e as [| | | | | | | |? []| | |]; by simplify_eq.
  - intros He. by exists (EvUpload k false).
Qed.

(** The keys in the trace of a chunk. *)
Lemma chunk_keys evs done failed later :
  block_events evs = chunk_events done failed →
  processed_keys evs = key_of <$> (done ++ take 1 (left_over failed later))
  ∧ uploaded_keys evs = key_of <$> done
  ∧ deleted_keys evs = key_of <$> done
  ∧ failed_uploads evs
    = match failed with Some (f, true) => [key_of f] | _ => [] end.
Proof.
  intros Hev. unfold processed_keys, uploaded_keys, deleted_keys, failed_uploads.
  rewrite <-!(omap_block_events _ evs), Hev by (by intros []).
  unfold chunk_events. rewrite !omap_app. clear Hev.
  split_and!.
  - rewrite fmap_app. f_equal; [|by destruct failed as [[? []]|]].
    induction done as [|r done IH]; [done|]. by rewrite bind_cons, omap_app, IH.
  - rewrite <-(app_nil_r (key_of <$> done)). f_equal; [|by destruct failed as [[? []]|]].
    induction done as [|r done IH]; [done|]. by rewrite bind_cons, omap_app, IH.
  - rewrite <-(app_nil_r (key_of <$> done)). f_equal; [|by destruct failed as [[? []]|]].
    induction done as [|r done IH]; [done|]. by rewrite bind_cons, omap_app, IH.
  - rewrite <-(app_nil_l (match failed with Some _ => _ | None => _ end)).
    f_equal; [|by destruct failed as [[? []]|]].
    induction done as [|r done IH]; [done|]. by rewrite bind_cons, omap_app, IH.
Qed.

(** In the trace of a chunk a failed upload is the last event about a block,
    and every delete comes right after the upload of its block. *)
Lemma chunk_events_failed done failed k :
  EvUpload k false ∈ chunk_events done failed →
  ∃ before, chunk_events done failed = before ++ [EvUpload k false].
Proof.
  unfold chunk_events. rewrite elem_of_app. intros [Hin|Hin].
  - exfalso. induction done as [|r done IH]; csimpl in *; [by apply elem_of_nil in Hin|].
    rewrite !elem_of_cons in Hin.
    destruct Hin as [?|[?|[?|?]]]; [discriminate..|by apply IH].
  - destruct failed as [[f []]|]; simpl in *.
    + rewrite !elem_of_cons, elem_of_nil in Hin.
      destruct Hin as [|[[= ->]|[]]]; [done|].
      exists ((done ≫= success_events) ++ [EvProcess (key_of f)]).
      by rewrite <-(assoc_L (++)).
    + rewrite !elem_of_cons, elem_of_nil in Hin.
      destruct Hin as [?|[]]; discriminate.
    + by apply elem_of_nil in Hin.
Qed.

Lemma chunk_events_delete done failed k pre post :
  chunk_events done failed = pre ++ EvDelete k :: post → EvUpload k true ∈ pre.
Proof.
  unfold chunk_events. revert pre. induction done as [|r done IH]; intros pre; csimpl.
  - destruct failed as [[f []]|]; simpl;
      destruct pre as [|? [|? [|? ?]]]; simpl; intros ?; simplify_eq.
  - destruct pre as [|e1 [|e2 [|e3 pre]]]; simpl; intros ?; simplify_eq.
    + rewrite !elem_of_cons. auto.
    + rewrite !elem_of_cons. do 3 right. by eapply IH.
Qed.

Lemma block_events_split evs pre e post :
  is_block_event e = true → evs = pre ++ e :: post →
  block_events evs = block_events pre ++ e :: block_events post.
Proof.
  intros He ->. rewrite block_events_app. f_equal.
  unfold block_events. by rewrite filter_cons, decide_True.
Qed.

(** * The claims about the worker *)

Section worker_claims.
Context {Remote : Type} `{!NotionAPI Remote}.
Implicit Types (w : World Remote) (k : BlockKey).

(** A run of the handler that made a call about a block got a valid chunk
    size and returned. *)
Lemma handler_cases batch w w' evs r :
  Uploader.handler batch w = (w', evs, r) →
  (evs = [] ∧ w' = w ∧ r = Raise ValidationException ∧ (max_blocks w < 1)%Z)
  ∨ (1 ≤ max_blocks w)%Z.
Proof.
  destruct (decide (max_blocks w < 1)%Z) as [Hlt|]; [|right; lia].
  unfold Uploader.handler. rewrite bind_run. unfold get_max_blocks at 1.
  rewrite bind_run. unfold query at 1. rewrite blocks_query_invalid by done.
  intros [= <- <- <-]. by left.
Qed.

(** C1. When the upload of a block fails, the worker stops: the failed
    upload is the last thing the invocation does about any block (no later
    block is taken up, uploaded or deleted), the blocks uploaded before it
    stay deleted and no other block leaves the store, and the invocation
    returns with result FAIL. *)
Theorem worker_stops_at_first_failure batch w w' evs r k :
  Uploader.handler batch w = (w', evs, r) →
  EvUpload k false ∈ evs →
  (∃ before, block_events evs = before ++ [EvUpload k false])
  ∧ (∀ j, EvUpload j true ∈ evs → blocks w' !! j = None)
  ∧ (∀ j, EvUpload j true ∉ evs → blocks w' !! j = blocks w !! j)
  ∧ ∃ res, r = Ok res ∧ Uploader.result res = "FAIL".
Proof.
  intros Hrun Hk.
  destruct (handler_cases _ _ _ _ _ Hrun) as [(-> & _)|Hlimit];
    [by apply elem_of_nil in Hk|].
  destruct (handler_run batch w Hlimit)
    as (records & done & failed & later & w2 & evs2 & _ & _ & _ & Hrun2 & Hev & Hb).
  rewrite Hrun in Hrun2. injection Hrun2 as <- <- ->.
  destruct (chunk_keys _ _ _ later Hev) as (_ & Hup & _ & Hfail).
  split_and!.
  - rewrite Hev. apply chunk_events_failed. rewrite <-Hev.
    by apply elem_of_block_events.
  - intros j Hj%elem_of_uploaded_keys. rewrite Hup in Hj. by rewrite Hb, decide_True.
  - intros j Hj. rewrite <-elem_of_uploaded_keys, Hup in Hj.
    by rewrite Hb, decide_False.
  - eexists; split; [done|]. simpl.
    apply elem_of_failed_uploads in Hk. rewrite Hfail in Hk.
    destruct failed as [[f []]|]; [done|by apply elem_of_nil in Hk..].
Qed.

(** The blocks a chunk takes up are blocks the listing returned. *)
Lemma taken_up_listed (done later : list BlockItem) failed k :
  k ∈ key_of <$> (done ++ take 1 (left_over failed later)) →
  k ∈ key_of <$> (done ++ left_over failed later).
Proof.
  rewrite !fmap_app, !elem_of_app. intros [?|Hk]; [by left|right].
  apply list_elem_of_fmap in Hk as (item & -> & Hitem).
  apply list_elem_of_fmap_2. eapply elem_of_sublist; [done|apply sublist_take].
Qed.

Lemma listed_stored (limit : Z) (batch : string) (t : BlocksTable) records k :
  listing limit batch t records → k ∈ key_of <$> records → is_Some (t !! k).
Proof.
  intros Hl (item & -> & Hitem)%list_elem_of_fmap.
  pose proof (listing_stored _ _ _ _ Hl) as Hs. rewrite Forall_forall in Hs.
  by rewrite (Hs _ Hitem).
Qed.

(** The block a chunk stopped at is none of those that went through. *)
Lemma failed_not_done (limit : Z) (batch : string) (t : BlocksTable) done failed later f b :
  listing limit batch t (done ++ left_over failed later) →
  failed = Some (f, b) → key_of f ∉ key_of <$> done.
Proof.
  intros Hl -> Hin. pose proof (listing_keys _ _ _ _ Hl) as Hnd.
  simpl in Hnd. rewrite fmap_app in Hnd. apply NoDup_app in Hnd as (_ & Hnd & _).
  apply (Hnd _ Hin). csimpl. apply elem_of_cons. by left.
Qed.

(** C7. A block the worker takes up is deleted exactly when its upload
    completed without error, and the delete comes after that upload; a block
    whose upload did not complete is left in the store as it was, so a
    block in the store is a block not yet uploaded. *)
Theorem block_deleted_iff_uploaded batch w w' evs r k :
  Uploader.handler batch w = (w', evs, r) →
  EvProcess k ∈ evs →
  is_Some (blocks w !! k)
  ∧ (EvDelete k ∈ evs ↔ EvUpload k true ∈ evs)
  ∧ (blocks w' !! k = None ↔ EvUpload k true ∈ evs)
  ∧ (EvUpload k true ∉ evs → blocks w' !! k = blocks w !! k)
  ∧ (∀ pre post, evs = pre ++ EvDelete k :: post → EvUpload k true ∈ pre).
Proof.
  intros Hrun Hk.
  destruct (handler_cases _ _ _ _ _ Hrun) as [(-> & _)|Hlimit];
    [by apply elem_of_nil in Hk|].
  destruct (handler_run batch w Hlimit)
    as (records & done & failed & later & w2 & evs2 & _ & Hl & -> & Hrun2 & Hev & Hb).
  rewrite Hrun in Hrun2. injection Hrun2 as <- <- ->.
  destruct (chunk_keys _ _ _ later Hev) as (Hproc & Hup & Hdel & _).
  apply elem_of_processed_keys in Hk. rewrite Hproc in Hk.
  assert (Hstored : is_Some (blocks w !! k))
    by eauto using listed_stored, taken_up_listed.
  rewrite <-elem_of_deleted_keys, <-elem_of_uploaded_keys, Hup, Hdel, Hb.
  split; [done|]. split; [done|]. split; [|split].
  - destruct (decide (k ∈ key_of <$> done)); [by split|]. split; [|done].
    intros Hnone.
    rewrite Hnone in Hstored. by destruct Hstored.
  - intros ?. by rewrite decide_False.
  - intros pre post Hsplit.
    eapply block_events_split in Hsplit; [|done]. rewrite Hev in Hsplit.
    apply chunk_events_delete in Hsplit. by apply elem_of_block_events in Hsplit as [? _].
Qed.

Lemma filter_none {A} (P : A → Prop) `{!∀ x, Decision (P x)} (l : list A) :
  (∀ x, x ∈ l → ¬ P x) → filter P l = [].
Proof.
  induction l as [|x l IH]; intros Hl; [done|].
  rewrite filter_cons, decide_False, IH; [done| |]; set_solver.
Qed.

(** C4. An invocation with a valid chunk size returns the record of its
    result: FAIL exactly when [fail_block_count] is positive and SUCCESS
    otherwise; [success_block_count] counts the blocks that were uploaded
    and deleted (each of them was stored before and is gone after), and
    [fail_block_count] those taken up whose upload did not complete. *)
Theorem worker_result_record batch w w' evs r :
  Uploader.handler batch w = (w', evs, r) →
  (1 ≤ max_blocks w)%Z →
  ∃ res, r = Ok res
    ∧ (Uploader.result res = "FAIL" ↔ 0 < Uploader.fail_block_count res)
    ∧ (Uploader.result res = "SUCCESS" ↔ Uploader.fail_block_count res = 0)
    ∧ Uploader.success_block_count res = length (deleted_keys evs)
    ∧ deleted_keys evs = uploaded_keys evs
    ∧ NoDup (deleted_keys evs)
    ∧ (∀ k, k ∈ deleted_keys evs → is_Some (blocks w !! k) ∧ blocks w' !! k = None)
    ∧ Uploader.fail_block_count res
      = length (filter (λ k, k ∉ uploaded_keys evs) (processed_keys evs)).
Proof.
  intros Hrun Hlimit.
  destruct (handler_run batch w Hlimit)
    as (records & done & failed & later & w2 & evs2 & _ & Hl & -> & Hrun2 & Hev & Hb).
  rewrite Hrun in Hrun2. injection Hrun2 as <- <- ->.
  destruct (chunk_keys _ _ _ later Hev) as (Hproc & Hup & Hdel & _).
  eexists; split; [done|]. simpl. rewrite Hproc, Hup, Hdel.
  pose proof (listing_keys _ _ _ _ Hl) as Hnd. rewrite fmap_app in Hnd.
  apply NoDup_app in Hnd as (Hnd & _ & _).
  split_and!.
  - destruct failed; simpl; split; (done || lia).
  - destruct failed; simpl; split; (done || lia).
  - by rewrite length_fmap.
  - done.
  - done.
  - intros k Hk. split.
    + eapply listed_stored; [done|]. rewrite fmap_app, elem_of_app. by left.
    + by rewrite Hb, decide_True.
  - rewrite fmap_app, filter_app, filter_none by (intros ???; done).
    destruct failed as [[f b]|]; simpl; [|done].
    rewrite filter_cons, decide_True; [done|].
    by eapply failed_not_done.
Qed.

(** C9. The worker stops at the first failing block, so [fail_block_count]
    is 0 or 1, and the two counts together do not exceed the number of
    blocks fetched for the chunk, itself at most the chunk size. *)
Theorem worker_counts_bounded batch w w' evs r :
  Uploader.handler batch w = (w', evs, r) →
  (1 ≤ max_blocks w)%Z →
  ∃ res records,
    r = Ok res
    ∧ blocks_query (max_blocks w) batch (blocks w) = Ok records
    ∧ (Uploader.fail_block_count res = 0 ∨ Uploader.fail_block_count res = 1)
    ∧ (Uploader.success_block_count res + Uploader.fail_block_count res
       ≤ length records)%nat
    ∧ (Z.of_nat (length records) ≤ max_blocks w)%Z.
Proof.
  intros Hrun Hlimit.
  destruct (handler_run batch w Hlimit)
    as (records & done & failed & later & w2 & evs2 & Hq & Hl & Hrec & Hrun2 & _).
  rewrite Hrun in Hrun2. injection Hrun2 as <- <- ->.
  eexists _, records. split_and!; [done|done| | |apply Hl]; simpl.
  - destruct failed; auto.
  - rewrite Hrec, length_app. destruct failed as [[??]|]; simpl; lia.
Qed.

End worker_claims.

(** Scenario B of the specification: blocks 0, 1 and 2, the upload of
    block 1 fails. *)
Lemma worker_stops_at_first_failure_witness :
  let run := Uploader.handler "b1" (Demo.world 200 Demo.failing_script []) in
  EvUpload ("b1", 1%Z) false ∈ run.1.2
  ∧ blocks run.1.1 !! ("b1", 0%Z) = None
  ∧ is_Some (blocks run.1.1 !! ("b1", 2%Z))
  ∧ ∃ res, run.2 = Ok res ∧ Uploader.result res = "FAIL".
Proof.
  intros run.
  assert (Hin : EvUpload ("b1", 1%Z) false ∈ run.1.2) by by_compute.
  destruct (worker_stops_at_first_failure "b1"
              (Demo.world 200 Demo.failing_script []) run.1.1 run.1.2 run.2
              ("b1", 1%Z)) as (_ & Hdel & Hkept & Hres);
    [apply run_eta|exact Hin|].
  split_and!; [exact Hin| | |exact Hres].
  - apply Hdel. by_compute.
  - rewrite Hkept; [vm_compute; by eexists|by_compute].
Defined.

Lemma block_deleted_iff_uploaded_witness :
  let run := Uploader.handler "b1" (Demo.world 200 Demo.failing_script []) in
  EvProcess ("b1", 1%Z) ∈ run.1.2
  ∧ is_Some (blocks (Demo.world 200 Demo.failing_script []) !! ("b1", 1%Z))
  ∧ (EvDelete ("b1", 1%Z) ∈ run.1.2 ↔ EvUpload ("b1", 1%Z) true ∈ run.1.2)
  ∧ (blocks run.1.1 !! ("b1", 1%Z) = None ↔ EvUpload ("b1", 1%Z) true ∈ run.1.2)
  ∧ blocks run.1.1 !! ("b1", 1%Z)
    = blocks (Demo.world 200 Demo.failing_script []) !! ("b1", 1%Z).
Proof.
  intros run.
  assert (Hin : EvProcess ("b1", 1%Z) ∈ run.1.2) by by_compute.
  destruct (block_deleted_iff_uploaded "b1"
              (Demo.world 200 Demo.failing_script []) run.1.1 run.1.2 run.2
              ("b1", 1%Z)) as (Hstored & Hdel & Hgone & Hkept & _);
    [apply run_eta|exact Hin|].
  split_and!; [exact Hin|exact Hstored|exact Hdel|exact Hgone|].
  apply Hkept. by_compute.
Defined.

(** Scenario A of the specification: three blocks, a chunk size of 2. *)
Lemma worker_result_record_witness :
  let run := Uploader.handler "b1" (Demo.world 2 [] []) in
  (1 ≤ max_blocks (Demo.world 2 [] []))%Z
  ∧ ∃ res, run.2 = Ok res
      ∧ (Uploader.result res = "SUCCESS" ↔ Uploader.fail_block_count res = 0)
      ∧ Uploader.success_block_count res = length (deleted_keys run.1.2)
      ∧ deleted_keys run.1.2 = [("b1", 0%Z); ("b1", 1%Z)].
Proof.
  intros run.
  assert (Hlimit : (1 ≤ max_blocks (Demo.world 2 [] []))%Z) by by_compute.
  destruct (worker_result_record "b1" (Demo.world 2 [] []) run.1.1 run.1.2 run.2)
    as (res & Hres & _ & Hsuccess & Hcount & _); [apply run_eta|exact Hlimit|].
  split; [exact Hlimit|]. exists res.
  split_and!; [exact Hres|exact Hsuccess|exact Hcount|by vm_compute].
Defined.

Lemma worker_counts_bounded_witness :
  let run := Uploader.handler "b1" (Demo.world 2 Demo.failing_script []) in
  (1 ≤ max_blocks (Demo.world 2 Demo.failing_script []))%Z
  ∧ ∃ res records,
      run.2 = Ok res
      ∧ blocks_query 2 "b1" (blocks (Demo.world 2 Demo.failing_script [])) = Ok records
      ∧ (Uploader.fail_block_count res = 0 ∨ Uploader.fail_block_count res = 1)
      ∧ (Uploader.success_block_count res + Uploader.fail_block_count res
         ≤ length records)%nat
      ∧ (Z.of_nat (length records) ≤ 2)%Z.
Proof.
  intros run.
  assert (Hlimit : (1 ≤ max_blocks (Demo.world 2 Demo.failing_script []))%Z)
    by by_compute.
  split; [exact Hlimit|].
  apply (worker_counts_bounded "b1" (Demo.world 2 Demo.failing_script [])
           run.1.1 run.1.2 run.2); [apply run_eta|exact Hlimit].
Defined.

(** ** Listing a batch *)

Lemma put_all_union (l : list BlockItem) (t : BlocksTable) :
  put_all l t = t ∪ list_to_map ((λ item, (key_of item, attrs_of item)) <$> l).
Proof.
  unfold put_all. revert t. induction l as [|item l IH]; intros t; csimpl.
  - by rewrite (right_id_L ∅ (∪)).
  - rewrite IH. unfold blocks_put_item.
    destruct (t !! key_of item) as [stored|] eqn:Hk; simpl.
    + apply map_eq. intros j. rewrite !lookup_union.
      destruct (decide (j = key_of item)) as [->|Hne].
      * rewrite Hk, lookup_insert_eq. by destruct (list_to_map _ !! _).
      * by rewrite lookup_insert_ne.
    + by rewrite <-insert_union_l, <-insert_union_r.
Qed.

(** The table a sequence of inserts builds does not depend on their order. *)
Lemma put_all_Permutation (l1 l2 : list BlockItem) (t : BlocksTable) :
  NoDup (key_of <$> l1) → l1 ≡ₚ l2 → put_all l1 t = put_all l2 t.
Proof.
  intros Hnd Hperm. rewrite !put_all_union. f_equal.
  apply list_to_map_proper; [|by rewrite Hperm].
  by rewrite <-list_fmap_compose.
Qed.

Section listing_claim.
Context {Remote : Type} `{!NotionAPI Remote}.

(** The worker takes up the blocks of the listing, in its order. *)
Lemma handler_order batch (w w' : World Remote) evs r :
  Uploader.handler batch w = (w', evs, r) →
  StronglySorted Z.lt (snd <$> processed_keys evs)
  ∧ ∀ records, blocks_query (max_blocks w) batch (blocks w) = Ok records →
               processed_keys evs `prefix_of` (key_of <$> records).
Proof.
  intros Hrun.
  destruct (handler_cases _ _ _ _ _ Hrun) as [(-> & _ & _ & Hlt)|Hlimit].
  - split; [constructor|]. intros records. by rewrite blocks_query_invalid.
  - destruct (handler_run batch w Hlimit)
      as (records & done & failed & later & w2 & evs2 & Hq & Hl & -> & Hrun2 & Hev & _).
    rewrite Hrun in Hrun2. injection Hrun2 as <- <- ->.
    destruct (chunk_keys _ _ _ later Hev) as (-> & _).
    assert (Hpre : (key_of <$> done ++ take 1 (left_over failed later))
                   `prefix_of` (key_of <$> done ++ left_over failed later)).
    { exists (key_of <$> drop 1 (left_over failed later)).
      by rewrite <-fmap_app, <-(assoc_L (++)), take_drop. }
    split.
    + pose proof (listing_sorted _ _ _ _ Hl) as Hs.
      rewrite <-(take_drop 1 (left_over failed later)), (assoc_L (++)), fmap_app in Hs.
      apply StronglySorted_app_1_l in Hs.
      by rewrite <-list_fmap_compose.
    + intros records. rewrite Hq. by intros [= <-].
Qed.

End listing_claim.

(** C6. Listing a batch with a valid limit returns at most [limit] blocks of
    the batch in strictly ascending order of their index, and they are the
    lowest ones: a stored block of the batch that is left out comes after
    every listed one (a limit below 1 is refused); the listing does not
    depend on the order in which the blocks were inserted; and the worker
    takes up the blocks of its chunk in the order of the listing, that is in
    ascending order of their index. *)
Theorem listing_bounded_and_ascending (batch : string) (limit : Z) :
  (∀ t : BlocksTable,
     match blocks_query limit batch t with
     | Ok l =>
         (Z.of_nat (length l) ≤ limit)%Z
         ∧ StronglySorted Z.lt (BlockIndex <$> l)
         ∧ Forall (λ item, BlockBatch item = batch ∧ item ∈ items t) l
         ∧ (∀ item, item ∈ items t → BlockBatch item = batch → item ∉ l →
              Forall (λ x, (BlockIndex x < BlockIndex item)%Z) l)
     | Raise _ => (limit < 1)%Z
     end)
  ∧ (∀ l1 l2 : list BlockItem,
       NoDup (key_of <$> l1) → l1 ≡ₚ l2 →
       blocks_query limit batch (put_all l1 ∅) = blocks_query limit batch (put_all l2 ∅))
  ∧ (∀ Remote (api : NotionAPI Remote) (w w' : World Remote) evs r,
       Uploader.handler batch w = (w', evs, r) →
       StronglySorted Z.lt (snd <$> processed_keys evs)
       ∧ ∀ records, blocks_query (max_blocks w) batch (blocks w) = Ok records →
                    processed_keys evs `prefix_of` (key_of <$> records)).
Proof.
  split_and!.
  - intros t. destruct (decide (limit < 1)%Z) as [Hlt|Hge].
    + by rewrite blocks_query_invalid.
    + destruct (blocks_query_listing limit batch t) as (l & -> & Hl); [lia|].
      split_and!; [apply Hl..| |apply Hl].
      pose proof (listing_batch _ _ _ _ Hl) as Hb.
      pose proof (listing_stored _ _ _ _ Hl) as Hs.
      rewrite Forall_forall in Hb, Hs |- *. intros item Hitem.
      split; [auto|]. apply elem_of_items. auto.
  - intros l1 l2 Hnd Hperm. by rewrite (put_all_Permutation l1 l2).
  - intros Remote api w w' evs r. apply handler_order.
Qed.

Lemma listing_bounded_and_ascending_witness :
  let l1 := [Demo.block "b1" 2 "c"; Demo.block "b1" 0 "a"; Demo.block "b1" 1 "b"] in
  let l2 := [Demo.block "b1" 0 "a"; Demo.block "b1" 1 "b"; Demo.block "b1" 2 "c"] in
  blocks_query 2 "b1" (put_all l1 ∅) = blocks_query 2 "b1" (put_all l2 ∅)
  ∧ blocks_query 2 "b1" (put_all l1 ∅)
    = Ok [Demo.block "b1" 0 "a"; Demo.block "b1" 1 "b"]
  ∧ StronglySorted Z.lt
      (snd <$> processed_keys (Uploader.handler "b1" (Demo.world 2 [] [])).1.2).
Proof.
  intros l1 l2.
  destruct (listing_bounded_and_ascending "b1" 2) as (_ & Hperm & Horder).
  split_and!.
  - apply Hperm; [by_compute|by_compute].
  - by vm_compute.
  - eapply Horder, run_eta.
Defined.

(** * The claims about the page resolver *)

Section resolver_facts.
Context {Remote : Type} `{!NotionAPI Remote}.
Implicit Types (w : World Remote).

Lemma remote_only_bind {A B} (m : M Remote A) (f : A → M Remote B) :
  remote_only m → (∀ a, remote_only (f a)) → remote_only (m ≫= f).
Proof.
  intros Hm Hf w w' evs r
    [(x & H & ->)|(w1 & e1 & a & e2 & H1 & H2 & ->)]%bind_inv.
  - by apply Hm in H.
  - apply Hm in H1 as (Hp1 & Hr1 & ?). apply Hf in H2 as (Hp2 & Hr2 & ?).
    rewrite Hp2, Hr2, Forall_app. auto.
Qed.

Lemma remote_only_ret {A} (a : A) : remote_only (mret a : M Remote A).
Proof. intros w w' evs r [= <- <- <-]. auto. Qed.

Lemma remote_only_raise {A} e : remote_only (raise e : M Remote A).
Proof. intros w w' evs r [= <- <- <-]. auto. Qed.

Lemma remote_only_notion_call {A} (op : Remote → Remote * outcome A) ev :
  (∀ b, is_put_page (ev b) = false) → remote_only (notion_call op ev).
Proof.
  intros Hev w w' evs r. unfold notion_call.
  destruct (op (notion w)) as [n a]. intros [= <- <- <-]. simpl. auto.
Qed.

Ltac remote_step :=
  first
    [ apply remote_only_ret | apply remote_only_raise
    | apply remote_only_notion_call; by intros []
    | apply remote_only_bind; [|intros ?]
    | case_match ].

(** The resolver finds a mapping: it fetches the mapped page from Notion
    and returns what the client answers; nothing else is called, nothing is
    written. *)
Lemma resolver_hit batch title parent url w :
  pages w !! batch = Some url →
  Uploader.get_or_make_page batch title parent w
  = (set_notion (get_block url (notion w)).1 w,
     [EvGetBlock url (is_ok (get_block url (notion w)).2)],
     (get_block url (notion w)).2).
Proof.
  intros Hurl. unfold Uploader.get_or_make_page. rewrite bind_run.
  unfold get_page at 1, pages_get_item. rewrite Hurl. unfold notion_call.
  by destruct (get_block url (notion w)) as [n a].
Qed.

Lemma flat_resolver_hit batch title parent url w :
  pages w !! batch = Some url →
  FlatUploader.get_or_make_page batch title parent w
  = (set_notion (get_block url (notion w)).1 w,
     [EvGetBlock url (is_ok (get_block url (notion w)).2)],
     (get_block url (notion w)).2).
Proof.
  intros Hurl. unfold FlatUploader.get_or_make_page. rewrite bind_run.
  unfold get_page at 1, pages_get_item. rewrite Hurl. unfold notion_call.
  by destruct (get_block url (notion w)) as [n a].
Qed.

(** C5, amended. When a mapping of the batch is durable the resolver makes
    exactly one call to Notion, the fetch of the mapped page, and returns
    the client's answer to it (the page of that mapping); it creates no
    page and writes no mapping. Both copies of the worker agree. *)
Theorem resolver_hit_fetches_mapped_page batch title parent url w :
  pages w !! batch = Some url →
  ∃ n answer,
    get_block url (notion w) = (n, answer)
    ∧ Uploader.get_or_make_page batch title parent w
      = (set_notion n w, [EvGetBlock url (is_ok answer)], answer)
    ∧ FlatUploader.get_or_make_page batch title parent w
      = (set_notion n w, [EvGetBlock url (is_ok answer)], answer)
    ∧ pages (set_notion n w) = pages w.
Proof.
  intros Hurl. rewrite (resolver_hit _ _ _ _ _ Hurl), (flat_resolver_hit _ _ _ _ _ Hurl).
  destruct (get_block url (notion w)) as [n answer]. by exists n, answer.
Qed.

Lemma no_put_page evs batch url ok :
  Forall (λ e, is_put_page e = false) evs → EvPutPage batch url ok ∉ evs.
Proof. rewrite Forall_forall. intros Hall Hin. by apply Hall in Hin. Qed.

(** The part of the resolver that creates the page under its parent. *)
Lemma remote_only_fetch url :
  remote_only (notion_call (get_block url) (EvGetBlock url) : M Remote _).
Proof. remote_step. Qed.

(** C3, amended. No mapping at the lookup, and a concurrent resolver stores
    its own before this one reaches its conditional insert: the insert is
    rejected, the rejection is raised to the caller (this copy of the worker
    logs it and raises it again), the concurrent resolver's mapping stays,
    and the next call of the resolver for the batch fetches the page of that
    durable mapping. *)
Theorem resolver_race_is_raised batch title parent rival rest url ok w w' evs r :
  pages w !! batch = None →
  rivals w = Some rival :: rest →
  Uploader.get_or_make_page batch title parent w = (w', evs, r) →
  EvPutPage batch url ok ∈ evs →
  ok = false
  ∧ r = Raise ConditionalCheckFailedException
  ∧ pages w' !! batch = Some rival
  ∧ Uploader.get_or_make_page batch title parent w'
    = (set_notion (get_block rival (notion w')).1 w',
       [EvGetBlock rival (is_ok (get_block rival (notion w')).2)],
       (get_block rival (notion w')).2).
Proof.
  intros Hnone Hriv Hrun Hput.
  assert (ok = false ∧ r = Raise ConditionalCheckFailedException
          ∧ pages w' !! batch = Some rival) as (-> & -> & Hdurable);
    [|by rewrite (resolver_hit _ _ _ _ _ Hdurable)].
  unfold Uploader.get_or_make_page in Hrun. rewrite bind_run in Hrun.
  unfold get_page at 1, pages_get_item in Hrun. rewrite Hnone in Hrun.
  match type of Hrun with
  | context [match ?x with _ => _ end] => destruct x as [[w0 e0] r0] eqn:Hrest
  end.
  injection Hrun as <- <- <-. simpl in Hput.
  apply bind_inv in Hrest
    as [(x & H & ->)|(w1 & e1 & parent_page & e2 & H1 & H2 & ->)].
  { apply remote_only_fetch in H as (_ & _ & H). by apply no_put_page in Hput. }
  apply remote_only_fetch in H1 as (Hp1 & Hr1 & He1).
  destruct parent_page as [parent_page|]; cycle 1.
  { injection H2 as <- <- <-. rewrite app_nil_r in Hput. by apply no_put_page in Hput. }
  apply bind_inv in H2
    as [(x & H & ->)|(w2 & e3 & new_page & e4 & H3 & H4 & ->)].
  { assert (Hcreate : Forall (λ e, is_put_page e = false) e2).
    { revert H. match goal with |- ?m w1 = _ → _ =>
        assert (Hro : remote_only m) by repeat remote_step end.
      intros H. by apply Hro in H as (_ & _ & ?). }
    apply elem_of_app in Hput as [Hput|Hput]; by apply no_put_page in Hput. }
  assert (Hcreate : pages w2 = pages w1 ∧ rivals w2 = rivals w1
                    ∧ Forall (λ e, is_put_page e = false) e3).
  { revert H3. match goal with |- ?m w1 = _ → _ =>
      assert (Hro : remote_only m) by repeat remote_step end.
    apply Hro. }
  destruct Hcreate as (Hp2 & Hr2 & He3).
  rewrite bind_run in H4. unfold rival_put at 1 in H4.
  rewrite Hr2, Hr1, Hriv in H4. rewrite bind_run in H4.
  unfold put_page at 1, pages_put_item in H4. simpl in H4.
  rewrite Hp2, Hp1, Hnone in H4. simpl in H4. rewrite lookup_insert_eq in H4.
  injection H4 as <- <- <-. simpl.
  rewrite lookup_insert_eq. split_and!; [|done..].
  rewrite !elem_of_app in Hput. destruct Hput as [Hput|[Hput|Hput]].
  - by apply no_put_page in Hput.
  - by apply no_put_page in Hput.
  - apply list_elem_of_singleton in Hput. by injection Hput.
Qed.

End resolver_facts.

Lemma resolver_hit_fetches_mapped_page_witness :
  pages Demo.mapped_world !! "b1" = Some "https://www.notion.so/wiki"
  ∧ ∃ n answer,
      Uploader.get_or_make_page "b1" "Doc" "https://www.notion.so/wiki" Demo.mapped_world
      = (set_notion n Demo.mapped_world,
         [EvGetBlock "https://www.notion.so/wiki" (is_ok answer)], answer).
Proof.
  assert (Hurl : pages Demo.mapped_world !! "b1" = Some "https://www.notion.so/wiki")
    by by vm_compute.
  split; [exact Hurl|].
  destruct (resolver_hit_fetches_mapped_page "b1" "Doc" "https://www.notion.so/wiki"
              "https://www.notion.so/wiki" Demo.mapped_world Hurl)
    as (n & answer & _ & Hrun & _).
  by exists n, answer.
Defined.

(** C5 as stated fails: with a durable mapping the resolver still calls
    Notion, to fetch the mapped page. *)
Lemma resolver_hit_calls_notion :
  pages Demo.mapped_world !! "b1" = Some "https://www.notion.so/wiki"
  ∧ filter (λ e, is_remote_call e = true)
      (Uploader.get_or_make_page "b1" "Doc" "https://www.notion.so/wiki"
         Demo.mapped_world).1.2
    = [EvGetBlock "https://www.notion.so/wiki" true]
  ∧ filter (λ e, is_remote_call e = true)
      (FlatUploader.get_or_make_page "b1" "Doc" "https://www.notion.so/wiki"
         Demo.mapped_world).1.2
    ≠ [].
Proof. split_and!; [by vm_compute|by vm_compute|by_compute]. Qed.

Lemma resolver_race_is_raised_witness :
  let run := Uploader.get_or_make_page "b1" "Doc" "https://www.notion.so/wiki"
               Demo.raced_world in
  pages Demo.raced_world !! "b1" = None
  ∧ rivals Demo.raced_world = [Some "https://www.notion.so/rival"]
  ∧ EvPutPage "b1" "https://www.notion.so/1" false ∈ run.1.2
  ∧ run.2 = Raise ConditionalCheckFailedException
  ∧ pages run.1.1 !! "b1" = Some "https://www.notion.so/rival".
Proof.
  intros run.
  assert (Hnone : pages Demo.raced_world !! "b1" = None) by by vm_compute.
  assert (Hriv : rivals Demo.raced_world = [Some "https://www.notion.so/rival"])
    by reflexivity.
  assert (Hput : EvPutPage "b1" "https://www.notion.so/1" false ∈ run.1.2)
    by by_compute.
  destruct (resolver_race_is_raised "b1" "Doc" "https://www.notion.so/wiki"
              "https://www.notion.so/rival" [] "https://www.notion.so/1" false
              Demo.raced_world run.1.1 run.1.2 run.2 Hnone Hriv (run_eta run) Hput)
    as (_ & Hraise & Hdurable & _).
  by split_and!.
Defined.

(** C3 as stated fails. In the worker the rejected insert is raised to the
    caller, not dropped; in the older copy it is dropped, but the resolver
    returns the page it created itself while the durable mapping is the
    concurrent resolver's. *)
Lemma resolver_race_not_swallowed :
  let run := Uploader.get_or_make_page "b1" "Doc" "https://www.notion.so/wiki"
               Demo.raced_world in
  let flat := FlatUploader.get_or_make_page "b1" "Doc" "https://www.notion.so/wiki"
                Demo.raced_world in
  pages Demo.raced_world !! "b1" = None
  ∧ run.2 = Raise ConditionalCheckFailedException
  ∧ pages run.1.1 !! "b1" = Some "https://www.notion.so/rival"
  ∧ flat.2 = Ok (Some (mkPage "https://www.notion.so/1" PageBlock "Doc"))
  ∧ pages flat.1.1 !! "b1" = Some "https://www.notion.so/rival".
Proof. split_and!; by vm_compute. Qed.

(** * The claims about the ingestion consumer *)

Section store_facts.
Context {Remote : Type}.
Implicit Types (w : World Remote) (rendered : list Rendered).

Lemma elem_of_kept_from idx rendered j :
  j ∈ kept_from idx rendered
  ↔ ∃ (i : nat) block, j = (idx + Z.of_nat i)%Z ∧ rendered !! i = Some block
                       ∧ Store.is_comment block = false.
Proof.
  revert idx. induction rendered as [|block rest IH]; intros idx; simpl.
  - rewrite elem_of_nil. split; [done|].
    intros (i & b & _ & Hi & _). by rewrite lookup_nil in Hi.
  - destruct (Store.is_comment block) eqn:Hc.
    + rewrite IH. split.
      * intros (i & b & -> & Hi & Hb). exists (S i), b. split_and!; [lia|done..].
      * intros (i & b & -> & Hi & Hb). destruct i as [|i]; simpl in *; [congruence|].
        exists i, b. split_and!; [lia|done..].
    + rewrite elem_of_cons, IH. split.
      * intros [->|(i & b & -> & Hi & Hb)].
        -- exists 0%nat, block. split_and!; [lia|done..].
        -- exists (S i), b. split_and!; [lia|done..].
      * intros (i & b & -> & Hi & Hb). destruct i as [|i]; simpl in *.
        -- left. lia.
        -- right. exists i, b. split_and!; [lia|done..].
Qed.

Lemma kept_from_sorted idx rendered : StronglySorted Z.lt (kept_from idx rendered).
Proof.
  revert idx. induction rendered as [|block rest IH]; intros idx; simpl.
  - constructor.
  - destruct (Store.is_comment block); [apply IH|].
    constructor; [apply IH|]. apply Forall_forall.
    intros j (i & b & -> & _)%elem_of_kept_from. lia.
Qed.

(** The loop over the rendered blocks, on a table that holds nothing of the
    batch from [idx] on: every insert is accepted, and the block at position
    [i] is stored under index [idx + i] unless it is a pandoc comment. *)
Lemma store_blocks_run batch bucket key idx rendered w :
  (∀ j, (idx ≤ j)%Z → blocks w !! (batch, j) = None) →
  ∃ w',
    Store.store_blocks batch bucket key idx rendered w
    = (w', (λ i, EvPutBlock (batch, i) true) <$> kept_from idx rendered, Ok tt)
    ∧ uuid_seed w' = uuid_seed w
    ∧ tmp w' = tmp w
    ∧ ∀ b j,
        blocks w' !! (b, j)
        = if decide (b = batch ∧ (idx ≤ j)%Z) then
            match rendered !! Z.to_nat (j - idx) with
            | Some block =>
                if Store.is_comment block then None else Some (bucket, key, block)
            | None => None
            end
          else blocks w !! (b, j).
Proof.
  revert idx w. induction rendered as [|block rest IH]; intros idx w Hfree.
  - exists w. split_and!; [done..|]. intros b j.
    case_decide as Hj; [|done]. destruct Hj as [-> ?]. by rewrite Hfree.
  - cbn [Store.store_blocks kept_from].
    assert (Hshift : ∀ j, (idx + 1 ≤ j)%Z →
              Z.to_nat (j - idx) = S (Z.to_nat (j - (idx + 1)))) by (intros; lia).
    destruct (Store.is_comment block) eqn:Hc.
    + destruct (IH (idx + 1)%Z w) as (w' & -> & Hseed & Htmp & Hlook).
      { intros j ?. apply Hfree. lia. }
      exists w'. split_and!; [done..|]. intros b j. rewrite Hlook.
      destruct (decide (b = batch ∧ (idx + 1 ≤ j)%Z)) as [[-> ?]|Hno].
      * rewrite decide_True by (split; [done|lia]). by rewrite Hshift.
      * case_decide as Hj; [|done]. destruct Hj as [-> ?].
        assert (j = idx) as -> by (apply Z.le_antisymm; [|done]; apply Z.nlt_ge;
          intros ?; apply Hno; split; [done|lia]).
        rewrite Z.sub_diag. simpl. rewrite Hc. apply Hfree. lia.
    + rewrite bind_run. unfold put_block at 1, blocks_put_item, key_of, attrs_of. simpl.
      rewrite Hfree by lia. simpl.
      destruct (IH (idx + 1)%Z
                  (set_blocks (<[(batch, idx) := (bucket, key, block)]> (blocks w)) w))
        as (w' & -> & Hseed & Htmp & Hlook).
      { intros j ?. simpl. rewrite lookup_insert_ne by (intros [= ?]; lia).
        apply Hfree. lia. }
      exists w'. split_and!; [done..|]. intros b j. rewrite Hlook.
      destruct (decide (b = batch ∧ (idx + 1 ≤ j)%Z)) as [[-> ?]|Hno].
      * rewrite decide_True by (split; [done|lia]). by rewrite Hshift.
      * simpl. case_decide as Hj.
        -- destruct Hj as [-> ?].
           assert (j = idx) as -> by (apply Z.le_antisymm; [|done]; apply Z.nlt_ge;
             intros ?; apply Hno; split; [done|lia]).
           rewrite Z.sub_diag. simpl. by rewrite Hc, lookup_insert_eq.
        -- rewrite lookup_insert_ne; [done|]. intros [= <- <-]. apply Hj. split; [done|lia].
Qed.

End store_facts.

Lemma put_keys_accepted batch (l : list Z) :
  put_keys ((λ i, EvPutBlock (batch, i) true) <$> l) = (λ i, (batch, i)) <$> l.
Proof. induction l as [|i l IH]; csimpl; [done|]. by rewrite <-IH. Qed.

Lemma announced_accepted batch (l : list Z) :
  announced ((λ i, EvPutBlock (batch, i) true) <$> l) = [].
Proof. by induction l. Qed.

(** C10. The ingestion loop numbers the rendered blocks by their position
    in the document and skips a pandoc comment without storing it: on a
    fresh batch the block at position [i] is stored under index [i] unless
    it is such a comment, nothing else is stored for the batch, and the
    inserts are made in strictly ascending order of the index. The stored
    indices therefore ascend in document order and have a gap at every
    comment. *)
Theorem stored_indices_skip_comments {Remote} batch bucket key rendered
    (w : World Remote) :
  (∀ j, blocks w !! (batch, j) = None) →
  ∃ w' evs,
    Store.store_blocks batch bucket key 0 rendered w = (w', evs, Ok tt)
    ∧ (∀ i : nat,
         blocks w' !! (batch, Z.of_nat i)
         = match rendered !! i with
           | Some block =>
               if Store.is_comment block then None else Some (bucket, key, block)
           | None => None
           end)
    ∧ (∀ j, (j < 0)%Z → blocks w' !! (batch, j) = None)
    ∧ StronglySorted Z.lt (snd <$> put_keys evs)
    ∧ (∀ j, (batch, j) ∈ put_keys evs
            ↔ ∃ (i : nat) block, j = Z.of_nat i ∧ rendered !! i = Some block
                                 ∧ Store.is_comment block = false).
Proof.
  intros Hfresh.
  destruct (store_blocks_run batch bucket key 0 rendered w) as (w' & Hrun & _ & _ & Hlook);
    [by intros|].
  exists w'. eexists. split; [exact Hrun|].
  rewrite put_keys_accepted, <-list_fmap_compose.
  split_and!.
  - intros i. rewrite Hlook, decide_True by (split; [done|lia]).
    by rewrite Z.sub_0_r, Nat2Z.id.
  - intros j Hj. rewrite Hlook, decide_False by lia. apply Hfresh.
  - rewrite (list_fmap_ext (snd ∘ (λ i : Z, (batch, i))) id) by done.
    rewrite list_fmap_id. apply kept_from_sorted.
  - intros j. rewrite list_elem_of_fmap. split.
    + intros (i & [= ->] & Hi). apply elem_of_kept_from in Hi. naive_solver.
    + intros (i & block & -> & Hi & Hc). exists (Z.of_nat i). split; [done|].
      apply elem_of_kept_from. exists i, block. split_and!; [lia|done..].
Qed.

(** A paragraph, the comment pandoc puts after a list, a paragraph: the
    stored indices are 0 and 2. *)
Lemma stored_indices_skip_comments_witness :
  let run := Store.store_blocks "batch-0" "staging" "Wiki/Doc.md" 0
               (Demo.convert "hello") Demo.staged_world in
  (∀ j, blocks Demo.staged_world !! ("batch-0", j) = None)
  ∧ put_keys run.1.2 = [("batch-0", 0%Z); ("batch-0", 2%Z)]
  ∧ blocks run.1.1 !! ("batch-0", 1%Z) = None
  ∧ blocks run.1.1 !! ("batch-0", 2%Z)
    = Some ("staging", "Wiki/Doc.md", Demo.text "end").
Proof.
  intros run.
  assert (Hfresh : ∀ j, blocks Demo.staged_world !! ("batch-0", j) = None)
    by (intros j; apply lookup_empty).
  destruct (stored_indices_skip_comments "batch-0" "staging" "Wiki/Doc.md"
              (Demo.convert "hello") Demo.staged_world Hfresh)
    as (w' & evs & Hrun & Hlook & _).
  assert (Hw : run.1.1 = w') by (unfold run; by rewrite Hrun).
  split_and!; [exact Hfresh|by vm_compute| |].
  - rewrite Hw. apply (Hlook 1%nat).
  - rewrite Hw. apply (Hlook 2%nat).
Defined.

(** C2. A put of a block whose key is already in the table is rejected and
    leaves the table as it was, so the stored block of that key is
    unchanged; in particular the second of two puts with the same key is
    rejected and the first block stays; and no table holds two blocks with
    the same key. *)
Theorem second_put_rejected :
  (∀ (t : BlocksTable) item,
     is_Some (t !! key_of item) →
     blocks_put_item item t = (t, Raise ConditionalCheckFailedException))
  ∧ (∀ (t : BlocksTable) item item',
       t !! key_of item = None → key_of item' = key_of item →
       ∃ t1, blocks_put_item item t = (t1, Ok tt)
             ∧ blocks_put_item item' t1 = (t1, Raise ConditionalCheckFailedException)
             ∧ t1 !! key_of item = Some (attrs_of item))
  ∧ (∀ (t : BlocksTable) a b,
       a ∈ items t → b ∈ items t → key_of a = key_of b → a = b)
  ∧ (∀ Remote (w : World Remote) item,
       is_Some (blocks w !! key_of item) →
       ∃ w', put_block item w
             = (w', [EvPutBlock (key_of item) false],
                Raise ConditionalCheckFailedException)
             ∧ blocks w' = blocks w).
Proof.
  split_and!.
  - intros t item [stored Hk]. unfold blocks_put_item. by rewrite Hk.
  - intros t item item' Hnone Hkey. unfold blocks_put_item.
    rewrite Hnone. eexists; split; [done|]. by rewrite Hkey, lookup_insert_eq.
  - intros t a b Ha%elem_of_items Hb%elem_of_items Hkey.
    rewrite Hkey, Hb in Ha. injection Ha as Hattrs.
    destruct a, b. unfold key_of, attrs_of in *. by simplify_eq/=.
  - intros Remote w item [stored Hk]. unfold put_block, blocks_put_item.
    rewrite Hk. eauto.
Qed.

Lemma second_put_rejected_witness :
  let first := Demo.block "b1" 0 "a" in
  let again := Demo.block "b1" 0 "another" in
  ∃ t1, blocks_put_item first ∅ = (t1, Ok tt)
        ∧ blocks_put_item again t1 = (t1, Raise ConditionalCheckFailedException)
        ∧ t1 !! ("b1", 0%Z) = Some (attrs_of first).
Proof.
  intros first again.
  destruct second_put_rejected as (_ & Htwice & _).
  apply (Htwice ∅ first again); [apply lookup_empty|reflexivity].
Defined.

(** ** Batch identifiers *)

Section batch_ids.
Context {Remote : Type}.
Variable unquote_plus : string → string.
Variable convert : string → list Rendered.
Variable uuid_str : N → string.
Hypothesis uuid_str_inj : Inj (=) (=) uuid_str.
Implicit Types (w : World Remote).

Abbreviation store_page := (Store.store_page (Remote:=Remote) unquote_plus convert uuid_str).
Abbreviation store_pages := (Store.store_pages (Remote:=Remote) unquote_plus convert uuid_str).
Abbreviation record_handler :=
  (Store.record_handler (Remote:=Remote) unquote_plus convert uuid_str).

(** One S3 record: a new identifier is drawn, and every insert made under
    it is accepted. *)
Lemma store_page_run s3e w w' evs r :
  unused uuid_str w →
  store_page s3e w = (w', evs, r) →
  unused uuid_str w'
  ∧ uuid_seed w' = N.succ (uuid_seed w)
  ∧ (∀ k ok, EvPutBlock k ok ∈ evs → ok = true ∧ k.1 = uuid_str (uuid_seed w))
  ∧ (announced evs = [] ∨ announced evs = [uuid_str (uuid_seed w)]).
Proof.
  intros Hun. unfold Store.store_page. rewrite bind_run. unfold Store.uuid4 at 1.
  rewrite bind_run. unfold finally. rewrite bind_run. unfold download_file at 1.
  simpl. destruct (s3 w !! _) as [body|]; simpl.
  - rewrite bind_run. unfold read_file at 1. simpl. rewrite lookup_insert_eq.
    match goal with
    | |- context [Store.store_blocks ?b ?bu ?k 0 ?rd ?w0] =>
        destruct (store_blocks_run b bu k 0 rd w0) as (w1 & -> & Hseed & _ & Hlook)
    end.
    { intros j _. simpl. apply Hun. lia. }
    unfold rmtree, emit. simpl. intros [= <- <- <-]. simpl in *.
    split_and!.
    + intros n j Hn. simpl in Hn. rewrite Hseed in Hn. simpl. rewrite Hlook.
      case_decide as Hb; [|apply Hun; lia].
      destruct Hb as [Hb%uuid_str_inj _]. lia.
    + done.
    + intros k ok. rewrite !elem_of_cons, !elem_of_app, elem_of_nil, list_elem_of_fmap.
      intros [?|[[(i & ? & _)|[]]|Hk]]; [done| |]; simplify_eq; [done|].
      by apply list_elem_of_singleton in Hk.
    + right. change (announced (?e :: ?l)) with (announced l).
      unfold announced. rewrite !omap_app. fold (announced).
      by rewrite announced_accepted.
  - unfold rmtree. simpl. intros [= <- <- <-]. simpl. split_and!.
    + intros n j Hn. simpl in Hn. simpl. apply Hun. lia.
    + done.
    + intros k ok Hk. by apply list_elem_of_singleton in Hk.
    + by left.
Qed.

(** The records of one delivery: the identifiers announced are pairwise
    different and were all drawn during the delivery. *)
Lemma store_pages_run records w w' evs r :
  unused uuid_str w →
  store_pages records w = (w', evs, r) →
  unused uuid_str w'
  ∧ (uuid_seed w ≤ uuid_seed w')%N
  ∧ (∀ k ok, EvPutBlock k ok ∈ evs →
       ok = true ∧ ∃ n, (uuid_seed w ≤ n < uuid_seed w')%N ∧ k.1 = uuid_str n)
  ∧ NoDup (announced evs)
  ∧ (∀ b, b ∈ announced evs →
       ∃ n, (uuid_seed w ≤ n < uuid_seed w')%N ∧ b = uuid_str n).
Proof.
  revert w w' evs r. induction records as [|s3e rest IH]; intros w w' evs r Hun.
  - intros [= <- <- <-]. split_and!; [done|lia| |constructor|].
    + intros k ok Hk. by apply elem_of_nil in Hk.
    + intros b Hb. by apply elem_of_nil in Hb.
  - cbn [Store.store_pages].
    intros [(x & H & ->)|(w1 & e1 & [] & e2 & H1 & H2 & ->)]%bind_inv.
    + apply store_page_run in H as (Hun' & Hseed & Hput & Hann); [|done].
      split_and!; [done|lia| | |].
      * intros k ok [-> ->]%Hput. split; [done|]. exists (uuid_seed w). split; [lia|done].
      * destruct Hann as [-> | ->]; [constructor|apply NoDup_singleton].
      * intros b Hb. exists (uuid_seed w). split; [lia|].
        destruct Hann as [Hann|Hann]; rewrite Hann in Hb;
          [by apply elem_of_nil in Hb|by apply list_elem_of_singleton in Hb].
    + apply store_page_run in H1 as (Hun1 & Hseed1 & Hput1 & Hann1); [|done].
      apply IH in H2 as (Hun2 & Hseed2 & Hput2 & Hnd2 & Hann2); [|done].
      split_and!; [done|lia| | |].
      * intros k ok [[-> ->]%Hput1|(-> & n & ? & ->)%Hput2]%elem_of_app.
        -- split; [done|]. exists (uuid_seed w). split; [lia|done].
        -- split; [done|]. exists n. split; [lia|done].
      * unfold announced in *. rewrite omap_app. apply NoDup_app. split_and!.
        -- destruct Hann1 as [-> | ->]; [constructor|apply NoDup_singleton].
        -- intros b Hb (n & Hn & ->)%Hann2.
           destruct Hann1 as [Hann1|Hann1]; rewrite Hann1 in Hb;
             [by apply elem_of_nil in Hb|].
           apply list_elem_of_singleton, uuid_str_inj in Hb. lia.
        -- done.
      * intros b. unfold announced in *. rewrite omap_app, elem_of_app.
        intros [Hb|(n & Hn & ->)%Hann2]; [|exists n; split; [lia|done]].
        exists (uuid_seed w). split; [lia|].
        destruct Hann1 as [Hann1|Hann1]; rewrite Hann1 in Hb;
          [by apply elem_of_nil in Hb|by apply list_elem_of_singleton in Hb].
Qed.

Lemma consumer_run s3events w w' evs r :
  unused uuid_str w →
  record_handler s3events w = (w', evs, r) →
  unused uuid_str w'
  ∧ (uuid_seed w ≤ uuid_seed w')%N
  ∧ (∀ k ok, EvPutBlock k ok ∈ evs →
       ok = true ∧ ∃ n, (uuid_seed w ≤ n < uuid_seed w')%N ∧ k.1 = uuid_str n)
  ∧ NoDup (announced evs)
  ∧ (∀ b, b ∈ announced evs →
       ∃ n, (uuid_seed w ≤ n < uuid_seed w')%N ∧ b = uuid_str n).
Proof.
  intros Hun. unfold Store.record_handler. case_decide; [|by apply store_pages_run].
  intros [= <- <- <-]. split_and!; [done|lia| |constructor|].
  - intros k ok Hk. by apply elem_of_nil in Hk.
  - intros b Hb. by apply elem_of_nil in Hb.
Qed.

(** C8, amended. The consumer draws a new batch identifier every time it
    processes an S3 record, also when the same event is delivered again:
    the identifiers announced over a delivery and its redelivery are
    pairwise different, the blocks of the redelivery go under batch
    identifiers that the first delivery did not use, and none of the inserts
    of either delivery is rejected (the blocks are stored a second time). *)
Theorem redelivery_is_stored_again s3events w w1 e1 r1 w2 e2 r2 :
  unused uuid_str w →
  record_handler s3events w = (w1, e1, r1) →
  record_handler s3events w1 = (w2, e2, r2) →
  (∀ k ok, EvPutBlock k ok ∈ e1 ++ e2 → ok = true)
  ∧ NoDup (announced (e1 ++ e2))
  ∧ (∀ k1 k2, k1 ∈ put_keys e1 → k2 ∈ put_keys e2 → k1.1 ≠ k2.1).
Proof.
  intros Hun H1 H2.
  apply consumer_run in H1 as (Hun1 & Hseed1 & Hput1 & Hnd1 & Hann1); [|done].
  apply consumer_run in H2 as (Hun2 & Hseed2 & Hput2 & Hnd2 & Hann2); [|done].
  split_and!.
  - intros k ok [[? _]%Hput1|[? _]%Hput2]%elem_of_app; done.
  - unfold announced in *. rewrite omap_app. apply NoDup_app. split_and!; [done| |done].
    intros b (n1 & ? & ->)%Hann1 (n2 & ? & Hb%uuid_str_inj)%Hann2. lia.
  - intros k1 k2 Hk1 Hk2 Heq. unfold put_keys in *.
    apply list_elem_of_omap in Hk1 as (ev1 & Hev1 & Hk1).
    apply list_elem_of_omap in Hk2 as (ev2 & Hev2 & Hk2).
    destruct ev1; simplify_eq. destruct ev2; simplify_eq.
    apply Hput1 in Hev1 as (_ & n1 & ? & Hn1).
    apply Hput2 in Hev2 as (_ & n2 & ? & Hn2).
    rewrite Hn1, Hn2 in Heq. apply uuid_str_inj in Heq. lia.
Qed.

End batch_ids.

Lemma demo_uuid_str_inj : Inj (=) (=) Demo.uuid_str.
Proof.
  intros m n Heq. unfold Demo.uuid_str in Heq.
  by apply (inj (String.app "batch-")), (inj pretty) in Heq.
Qed.

Lemma redelivery_is_stored_again_witness :
  let first := Demo.deliver Demo.staged_world in
  let again := Demo.deliver first.1.1 in
  unused Demo.uuid_str Demo.staged_world
  ∧ (∀ k ok, EvPutBlock k ok ∈ first.1.2 ++ again.1.2 → ok = true)
  ∧ NoDup (announced (first.1.2 ++ again.1.2))
  ∧ (∀ k1 k2, k1 ∈ put_keys first.1.2 → k2 ∈ put_keys again.1.2 → k1.1 ≠ k2.1).
Proof.
  intros first again.
  assert (Hun : unused Demo.uuid_str Demo.staged_world)
    by (intros n j _; apply lookup_empty).
  split; [exact Hun|].
  apply (redelivery_is_stored_again (λ s, s) Demo.convert Demo.uuid_str
           demo_uuid_str_inj Demo.arrival Demo.staged_world
           first.1.1 first.1.2 first.2 again.1.1 again.1.2 again.2 Hun);
    apply run_eta.
Defined.

(** C8 as stated fails: when the same event is delivered again, its inserts
    are accepted, under a new batch identifier, and the table then holds
    every block of the document twice. *)
Lemma redelivery_not_rejected :
  let first := Demo.deliver Demo.staged_world in
  let again := Demo.deliver first.1.1 in
  first.1.2 = [EvS3Download "staging" "Wiki/Doc.md" true;
               EvPutBlock ("batch-0", 0%Z) true; EvPutBlock ("batch-0", 2%Z) true;
               EvPutEvents "batch-0"]
  ∧ again.1.2 = [EvS3Download "staging" "Wiki/Doc.md" true;
                 EvPutBlock ("batch-1", 0%Z) true; EvPutBlock ("batch-1", 2%Z) true;
                 EvPutEvents "batch-1"]
  ∧ again.2 = Ok tt
  ∧ length (items (blocks first.1.1)) = 2
  ∧ length (items (blocks again.1.1)) = 4
  ∧ blocks again.1.1 !! ("batch-0", 0%Z) = blocks again.1.1 !! ("batch-1", 0%Z)
  ∧ is_Some (blocks again.1.1 !! ("batch-1", 0%Z)).
Proof. split_and!; [by vm_compute..|]. vm_compute. by eexists. Qed.

(** * Scenario A

    Three blocks and a chunk size of 2: the first invocation uploads and
    deletes blocks 0 and 1, the second block 2, the third finds nothing. *)

Lemma scenario_A :
  let first := Uploader.handler "b1" (Demo.world 2 [] []) in
  let second := Uploader.handler "b1" first.1.1 in
  let third := Uploader.handler "b1" second.1.1 in
  first.2 = Ok (Uploader.mkResults "SUCCESS" 2 0)
  ∧ key_of <$> items (blocks first.1.1) = [("b1", 2%Z)]
  ∧ second.2 = Ok (Uploader.mkResults "SUCCESS" 1 0)
  ∧ items (blocks second.1.1) = []
  ∧ third.2 = Ok (Uploader.mkResults "SUCCESS" 0 0)
  ∧ third.1.2 = []
  ∧ Demo.uploaded (notion third.1.1)
    = [("https://www.notion.so/1", Demo.text "a");
       ("https://www.notion.so/1", Demo.text "b");
       ("https://www.notion.so/1", Demo.text "c")].
Proof. split_and!; by vm_compute. Qed.

(** * The older copy of the worker

    lambdas/upload_notion_blocks.py has no [break] in its loop and returns
    nothing: after a failed upload it goes on with the rest of the chunk. *)

Lemma flat_worker_keeps_going :
  let run := FlatUploader.handler "b1" (Demo.world 200 [false; false; false; true] []) in
  block_events run.1.2
  = [EvProcess ("b1", 0%Z); EvUpload ("b1", 0%Z) false;
     EvProcess ("b1", 1%Z); EvUpload ("b1", 1%Z) true; EvDelete ("b1", 1%Z);
     EvProcess ("b1", 2%Z); EvUpload ("b1", 2%Z) true; EvDelete ("b1", 2%Z)]
  ∧ run.2 = Ok tt
  ∧ key_of <$> items (blocks run.1.1) = [("b1", 0%Z)].
Proof. split_and!; by vm_compute. Qed.

(** * Further properties of the worker *)

Section worker_chunks.
Context {Remote : Type} `{!NotionAPI Remote}.
Implicit Types (w : World Remote) (k : BlockKey).

Lemma blocks_query_backlog (limit : Z) (batch : string) (t : BlocksTable) :
  (1 ≤ limit)%Z →
  ∃ l, blocks_query limit batch t = Ok l
       ∧ length l = Z.to_nat limit `min` length (backlog batch t)
       ∧ (l = [] ↔ backlog batch t = []).
Proof.
  intros Hlimit. unfold blocks_query. rewrite decide_False by lia.
  fold (backlog batch t). eexists; split; [done|].
  assert (Hlen : length (merge_sort index_le (backlog batch t))
                 = length (backlog batch t))
    by (by rewrite merge_sort_Permutation).
  rewrite length_take, Hlen. split; [done|].
  rewrite <-!length_zero_iff_nil, length_take, Hlen. lia.
Qed.

(** The state machine stops asking when a chunk reports SUCCESS without a
    processed block. That report means the batch is drained: the handler
    returns SUCCESS with both counts 0 exactly when the table holds no block
    of the batch, and then it calls nothing and leaves the table as it is. *)
Theorem worker_idle_iff_drained batch w w' evs r :
  (1 ≤ max_blocks w)%Z →
  Uploader.handler batch w = (w', evs, r) →
  (r = Ok (Uploader.mkResults "SUCCESS" 0 0) ↔ backlog batch (blocks w) = [])
  ∧ (backlog batch (blocks w) = [] → evs = [] ∧ blocks w' = blocks w).
Proof.
  intros Hlimit Hrun.
  destruct (handler_run batch w Hlimit)
    as (records & done & failed & later & w2 & evs2 & Hq & _ & Hrec & Hrun2 & Hev & Hb).
  rewrite Hrun in Hrun2. injection Hrun2 as <- <- ->.
  destruct (blocks_query_backlog (max_blocks w) batch (blocks w) Hlimit)
    as (l & Hq' & _ & Hnil).
  rewrite Hq in Hq'. injection Hq' as <-.
  assert (Hshape : done ++ left_over failed later = [] ↔ done = [] ∧ failed = None).
  { split.
    - intros [-> Hlo]%app_eq_nil. by destruct failed as [[??]|].
    - by intros [-> ->]. }
  rewrite <-Hrec in Hshape.
  split.
  - rewrite <-Hnil, Hshape. split.
    + intros [= Hres Hdone Hfail]. split; [by apply length_zero_iff_nil|].
      by destruct failed.
    + by intros [-> ->].
  - intros Hempty. pose proof (proj2 Hnil Hempty) as Hr0.
    destruct (proj1 Hshape Hr0) as [-> ->]. rewrite Hr0 in Hq. split.
    + revert Hrun. unfold Uploader.handler. rewrite bind_run.
      unfold get_max_blocks at 1. rewrite bind_run. unfold query at 1.
      rewrite Hq. rewrite bind_run. cbn [Uploader.process_records].
      unfold mret at 1, M_ret at 1. rewrite bind_run. unfold rmtree at 1.
      unfold mret, M_ret. simpl. intros H. by inversion H.
    + apply map_eq. intros k. by rewrite Hb.
Qed.

Lemma elem_of_backlog (batch : string) (t : BlocksTable) (item : BlockItem) :
  item ∈ backlog batch t
  ↔ BlockBatch item = batch ∧ t !! key_of item = Some (attrs_of item).
Proof. unfold backlog. by rewrite list_elem_of_filter, elem_of_items. Qed.


(** Upload order carries over from one chunk to the next: every block of the
    batch that is still stored after an invocation has a higher index than
    every block the invocation uploaded. *)
Theorem worker_leaves_later_blocks batch w w' evs r k item :
  Uploader.handler batch w = (w', evs, r) →
  EvUpload k true ∈ evs →
  item ∈ backlog batch (blocks w') →
  (k.2 < BlockIndex item)%Z.
Proof.
  intros Hrun Hk Hitem.
  destruct (handler_cases _ _ _ _ _ Hrun) as [(-> & _)|Hlimit];
    [by apply elem_of_nil in Hk|].
  destruct (handler_run batch w Hlimit)
    as (records & done & failed & later & w2 & evs2 & _ & Hl & -> & Hrun2 & Hev & Hb).
  rewrite Hrun in Hrun2. injection Hrun2 as <- <- ->.
  destruct (chunk_keys _ _ _ later Hev) as (_ & Hup & _).
  apply elem_of_uploaded_keys in Hk. rewrite Hup in Hk.
  apply list_elem_of_fmap in Hk as (d & -> & Hd).
  apply elem_of_backlog in Hitem as [Hbatch Hstored]. rewrite Hb in Hstored.
  destruct (decide (key_of item ∈ key_of <$> done)) as [|Hnot]; [done|].
  assert (Hnotdone : item ∉ done).
  { intros ?. apply Hnot. by apply list_elem_of_fmap_2. }
  destruct (decide (item ∈ left_over failed later)) as [Hlo|Hlo].
  - pose proof (listing_sorted _ _ _ _ Hl) as Hs. rewrite fmap_app in Hs.
    change ((key_of d).2) with (BlockIndex d).
    apply (StronglySorted_app_1_elem_of Z.lt (BlockIndex <$> done)
             (BlockIndex <$> left_over failed later));
      [done|by apply list_elem_of_fmap_2..].
  - pose proof (listing_lowest _ _ _ _ Hl item) as Hlow.
    rewrite Forall_forall in Hlow. apply Hlow; [by apply elem_of_items|done| |].
    + rewrite elem_of_app. tauto.
    + rewrite elem_of_app. by left.
Qed.

(** A chunk touches the blocks of its own batch only: every row of another
    batch is in the table afterwards as it was before. *)
Theorem worker_keeps_other_batches batch w w' evs r k :
  Uploader.handler batch w = (w', evs, r) →
  k.1 ≠ batch →
  blocks w' !! k = blocks w !! k.
Proof.
  intros Hrun Hk.
  destruct (handler_cases _ _ _ _ _ Hrun) as [(_ & -> & _)|Hlimit]; [done|].
  destruct (handler_run batch w Hlimit)
    as (records & done & failed & later & w2 & evs2 & _ & Hl & -> & Hrun2 & _ & Hb).
  rewrite Hrun in Hrun2. injection Hrun2 as <- <- ->.
  rewrite Hb, decide_False; [done|].
  intros (d & -> & Hd)%list_elem_of_fmap. apply Hk.
  pose proof (listing_batch _ _ _ _ Hl) as Hbatch. rewrite Forall_forall in Hbatch.
  apply Hbatch. rewrite elem_of_app. by left.
Qed.

End worker_chunks.

Lemma worker_idle_iff_drained_witness :
  let run := Uploader.handler "b1" Demo.staged_world in
  (1 ≤ max_blocks Demo.staged_world)%Z
  ∧ backlog "b1" (blocks Demo.staged_world) = []
  ∧ run.2 = Ok (Uploader.mkResults "SUCCESS" 0 0)
  ∧ run.1.2 = [].
Proof.
  intros run.
  assert (Hlimit : (1 ≤ max_blocks Demo.staged_world)%Z) by by_compute.
  assert (Hempty : backlog "b1" (blocks Demo.staged_world) = []) by by vm_compute.
  destruct (worker_idle_iff_drained "b1" Demo.staged_world run.1.1 run.1.2 run.2
              Hlimit (run_eta run)) as (Hiff & Hquiet).
  split_and!; [exact Hlimit|exact Hempty|by apply Hiff|by apply Hquiet].
Defined.


Lemma worker_leaves_later_blocks_witness :
  let run := Uploader.handler "b1" (Demo.world 2 [] []) in
  EvUpload ("b1", 1%Z) true ∈ run.1.2
  ∧ Demo.block "b1" 2 "c" ∈ backlog "b1" (blocks run.1.1)
  ∧ (1 < BlockIndex (Demo.block "b1" 2 "c"))%Z.
Proof.
  intros run.
  assert (Hup : EvUpload ("b1", 1%Z) true ∈ run.1.2) by by_compute.
  assert (Hleft : Demo.block "b1" 2 "c" ∈ backlog "b1" (blocks run.1.1)) by by_compute.
  split_and!; [exact Hup|exact Hleft|].
  apply (worker_leaves_later_blocks "b1" (Demo.world 2 [] []) run.1.1 run.1.2 run.2
           ("b1", 1%Z) _ (run_eta run) Hup Hleft).
Defined.

Lemma worker_keeps_other_batches_witness :
  let w := set_blocks (put_all [Demo.block "b2" 0 "z"] (blocks (Demo.world 2 [] [])))
             (Demo.world 2 [] []) in
  let run := Uploader.handler "b1" w in
  ("b2", 0%Z).1 ≠ "b1"
  ∧ is_Some (blocks w !! ("b2", 0%Z))
  ∧ blocks run.1.1 !! ("b2", 0%Z) = blocks w !! ("b2", 0%Z).
Proof.
  intros w run.
  assert (Hne : ("b2", 0%Z).1 ≠ "b1") by by_compute.
  split_and!; [exact Hne|vm_compute; by eexists|].
  apply (worker_keeps_other_batches "b1" w run.1.1 run.1.2 run.2 ("b2", 0%Z)
           (run_eta run) Hne).
Defined.

(** * Properties of every run *)

Section run_facts.
Context {Remote : Type}.
Implicit Types (R : World Remote → list Event → World Remote → Prop).
Implicit Types (P : World Remote → Prop) (f : Event → bool).

Lemma always_ret R {A} (a : A) : frame R → always R (mret a : M Remote A).
Proof. intros HR w w' evs r [= <- <- <-]. apply HR. Qed.

Lemma always_raise R {A} e : frame R → always R (raise e : M Remote A).
Proof. intros HR w w' evs r [= <- <- <-]. apply HR. Qed.

Lemma always_bind R {A B} (m : M Remote A) (k : A → M Remote B) :
  frame R → always R m → (∀ a, always R (k a)) → always R (m ≫= k).
Proof.
  intros HR Hm Hk w w' evs r
    [(x & H & ->)|(w1 & e1 & a & e2 & H1 & H2 & ->)]%bind_inv.
  - by apply Hm in H.
  - apply Hm in H1. apply Hk in H2. by apply (frame_app R HR w e1 w1).
Qed.

Lemma always_try_except_else R {A B} (m : M Remote A) (h : exn → M Remote B) k :
  frame R → always R m → (∀ x, always R (h x)) → (∀ a, always R (k a)) →
  always R (try_except_else m h k).
Proof.
  intros HR Hm Hh Hk w w' evs r. unfold try_except_else.
  destruct (m w) as [[w1 e1] [a|x]] eqn:H1; apply Hm in H1.
  - destruct (k a w1) as [[w2 e2] r2] eqn:H2. apply Hk in H2.
    intros [= <- <- <-]. by apply (frame_app R HR w e1 w1).
  - destruct (h x w1) as [[w2 e2] r2] eqn:H2. apply Hh in H2.
    intros [= <- <- <-]. by apply (frame_app R HR w e1 w1).
Qed.

Lemma always_finally R {A} (m : M Remote A) c :
  frame R → always R m → always R c → always R (finally m c).
Proof.
  intros HR Hm Hc w w' evs r. unfold finally.
  destruct (m w) as [[w1 e1] r1] eqn:H1. apply Hm in H1.
  destruct (c w1) as [[w2 e2] [[]|x]] eqn:H2; apply Hc in H2;
    intros [= <- <- <-]; by apply (frame_app R HR w e1 w1).
Qed.

Lemma calls_app f e1 e2 : calls f (e1 ++ e2) = calls f e1 + calls f e2.
Proof. unfold calls. by rewrite filter_app, length_app. Qed.

Lemma calls_cons f e evs :
  calls f (e :: evs) = (if f e then 1 else 0) + calls f evs.
Proof.
  unfold calls. rewrite filter_cons. destruct (f e).
  - by rewrite decide_True.
  - by rewrite decide_False.
Qed.

Lemma calls_none f evs : calls f evs = 0 ↔ Forall (λ e, f e = false) evs.
Proof.
  induction evs as [|e evs IH]; [by split; [constructor|]|].
  rewrite calls_cons, Forall_cons, <-IH. destruct (f e); split; try done; lia || naive_solver.
Qed.

Lemma unchanged_frame {X} (proj : World Remote → X) f : frame (unchanged proj f).
Proof.
  split.
  - by split.
  - intros w e1 w1 e2 w2 [H1 C1] [H2 C2]. split; [congruence|].
    rewrite calls_app. lia.
Qed.

Lemma keeps_frame P f : frame (keeps P f).
Proof.
  split.
  - by split.
  - intros w e1 w1 e2 w2 [H1 C1] [H2 C2]. split; [auto|].
    rewrite calls_app. lia.
Qed.

Lemma unchanged_keeps {A X} (proj : World Remote → X) (Q : X → Prop) f (m : M Remote A) :
  always (unchanged proj f) m → always (keeps (λ w, Q (proj w)) f) m.
Proof.
  intros Hm w w' evs r [Hproj Hc]%Hm. split; [|done]. by rewrite Hproj.
Qed.

Lemma latch_keeps_l {A B} P f (m : M Remote A) (k : A → M Remote B) :
  always (keeps P f) m → (∀ a, latch P f (k a)) → latch P f (m ≫= k).
Proof.
  intros Hm Hk w w' evs r
    [(x & H & ->)|(w1 & e1 & a & e2 & H1 & H2 & ->)]%bind_inv.
  - apply Hm in H as [HP Hc]. split; [by auto|by left].
  - apply Hm in H1 as [HP1 Hc1]. apply Hk in H2 as [HP2 Hc2].
    rewrite calls_app, Hc1. simpl. split; [|done].
    intros HPw. by apply HP2, HP1.
Qed.

Lemma latch_keeps_r {A B} P f (m : M Remote A) (k : A → M Remote B) :
  latch P f m → (∀ a, always (keeps P f) (k a)) → latch P f (m ≫= k).
Proof.
  intros Hm Hk w w' evs r
    [(x & H & ->)|(w1 & e1 & a & e2 & H1 & H2 & ->)]%bind_inv.
  - by apply Hm in H.
  - apply Hm in H1 as [HP1 Hc1]. apply Hk in H2 as [HP2 Hc2].
    rewrite calls_app, Hc2, Nat.add_0_r. split.
    + intros HPw. destruct (HP1 HPw). auto.
    + destruct Hc1 as [?|[? [?|?]]]; [by left|right; by auto|done].
Qed.

Lemma keeps_latch {A} P f (m : M Remote A) : always (keeps P f) m → latch P f m.
Proof. intros Hm w w' evs r [HP Hc]%Hm. split; [by auto|by left]. Qed.

End run_facts.

(** * What the worker does at most once per invocation *)

Section worker_once.
Context {Remote : Type} `{!NotionAPI Remote}.
Implicit Types (P : World Remote → Prop) (f : Event → bool).

Lemma blocks_query_batch (limit : Z) (batch : string) (t : BlocksTable) l :
  blocks_query limit batch t = Ok l → Forall (λ item, BlockBatch item = batch) l.
Proof.
  intros Hq. destruct (decide (limit < 1)%Z) as [Hlow|Hok].
  - unfold blocks_query in Hq. by rewrite decide_True in Hq.
  - destruct (blocks_query_listing limit batch t) as (l' & Hq' & Hl); [lia|].
    rewrite Hq in Hq'. injection Hq' as <-. apply Hl.
Qed.

(** An invocation either is refused its query, or runs the loop over the
    listed records and removes its directory. *)
Lemma handler_inv batch w w' evs r :
  Uploader.handler batch w = (w', evs, r) →
  ((max_blocks w < 1)%Z ∧ w' = w ∧ evs = [] ∧ r = Raise ValidationException)
  ∨ ∃ records w1 processed res,
      blocks_query (max_blocks w) batch (blocks w) = Ok records
      ∧ Uploader.process_records (tmpdir_of batch) records [] w = (w1, evs, Ok processed)
      ∧ rmtree (tmpdir_of batch) w1 = (w', [], Ok tt)
      ∧ r = Ok res.
Proof.
  unfold Uploader.handler. rewrite bind_run. unfold get_max_blocks at 1.
  rewrite bind_run. unfold query at 1.
  destruct (blocks_query (max_blocks w) batch (blocks w)) as [records|x] eqn:Hq.
  - rewrite bind_run. fold (tmpdir_of batch).
    destruct (Uploader.process_records _ records [] w) as [[w1 e1] r1] eqn:Hloop.
    destruct (process_records_run _ _ _ _ _ _ _ Hloop)
      as (done & failed & later & _ & -> & _).
    rewrite bind_run. unfold rmtree at 1. unfold mret, M_ret. simpl.
    intros [= <- <- <-]. right. eexists records, w1, _, _.
    split_and!; [done| |done|done]. by rewrite !app_nil_r.
  - unfold blocks_query in Hq. case_decide; [|done]. injection Hq as <-.
    intros [= <- <- <-]. left. done.
Qed.

(** The loop: when every record's handler is a step guarded by [P], the
    whole loop makes at most one call of the kind. *)
Lemma process_records_once P f tmpdir records processed :
  (∀ record, record ∈ records → latch P f (Uploader.record_handler record tmpdir)) →
  (∀ k, always (keeps P f) (delete_item k : M Remote unit)) →
  at_most_once P f (Uploader.process_records tmpdir records processed).
Proof.
  intros Hrec Hdel. revert processed.
  induction records as [|record rest IH]; intros processed w w' evs r.
  - intros [= <- <- <-]. split; [by auto|]. unfold calls. simpl. lia.
  - cbn [Uploader.process_records]. unfold try_except_else.
    destruct (Uploader.record_handler record tmpdir w) as [[w1 e1] [a|x]] eqn:H1;
      apply Hrec in H1 as [HP1 Hc1]; try (by left).
    + rewrite bind_run.
      destruct (delete_item (key_of record) w1) as [[w2 e2] [[]|x]] eqn:H2;
        [|discriminate H2].
      apply Hdel in H2 as [HP2 Hc2].
      destruct (Uploader.process_records tmpdir rest _ w2) as [[w3 e3] r3] eqn:H3.
      apply IH in H3 as [HP3 Hc3]; [|intros ??; apply Hrec; by right].
      intros [= <- <- <-]. rewrite !calls_app, Hc2. split.
      * intros HPw. destruct (HP1 HPw) as [? ->].
        destruct HP3 as [? ->]; by auto.
      * destruct Hc1 as [->|[-> [HPw1|?]]]; [lia| |done].
        destruct HP3 as [_ ->]; by auto.
    + unfold mret, M_ret. intros [= <- <- <-]. rewrite app_nil_r.
      split; [by auto|]. destruct Hc1 as [->|[-> _]]; lia.
Qed.

(** The same over an invocation; the final [rmtree] may undo [P]. *)
Lemma handler_once P f batch w w' evs r :
  (∀ record, BlockBatch record = batch →
     latch P f (Uploader.record_handler record (tmpdir_of batch))) →
  (∀ k, always (keeps P f) (delete_item k : M Remote unit)) →
  Uploader.handler batch w = (w', evs, r) →
  (P w → calls f evs = 0) ∧ (calls f evs ≤ 1)%nat
  ∧ ∃ w1, (P w → P w1) ∧ (w' = w1 ∨ rmtree (tmpdir_of batch) w1 = (w', [], Ok tt)).
Proof.
  intros Hrec Hdel
    [(_ & -> & -> & _)|(records & w1 & processed & res & Hq & Hloop & Hrm & _)]%handler_inv.
  - split_and!; [done|unfold calls; simpl; lia|]. exists w. auto.
  - apply blocks_query_batch in Hq. rewrite Forall_forall in Hq.
    apply (process_records_once P f) in Hloop as [HP Hc]; [|by auto|done].
    split_and!; [by intros []%HP|done|]. exists w1. split; [by intros []%HP|by right].
Qed.

End worker_once.

Section worker_always.
Context {Remote : Type} `{!NotionAPI Remote}.
Implicit Types (R : World Remote → list Event → World Remote → Prop).

Lemma process_records_always R tmpdir records processed :
  frame R →
  (∀ record, record ∈ records → always R (Uploader.record_handler record tmpdir)) →
  (∀ k, always R (delete_item k : M Remote unit)) →
  always R (Uploader.process_records tmpdir records processed).
Proof.
  intros HR Hrec Hdel. revert processed.
  induction records as [|record rest IH]; intros processed.
  - by apply always_ret.
  - cbn [Uploader.process_records]. apply always_try_except_else; [done| | |].
    + apply Hrec. by left.
    + intros _. by apply always_ret.
    + intros a. apply always_bind; [done|apply Hdel|intros _].
      apply IH. intros ??. apply Hrec. by right.
Qed.

Lemma handler_always R batch :
  frame R →
  (∀ record, BlockBatch record = batch →
     always R (Uploader.record_handler record (tmpdir_of batch))) →
  (∀ k, always R (delete_item k : M Remote unit)) →
  always R (rmtree (tmpdir_of batch) : M Remote unit) →
  always R (Uploader.handler batch).
Proof.
  intros HR Hrec Hdel Hrm w w' evs r
    [(_ & -> & -> & _)|(records & w1 & processed & res & Hq & Hloop & Hclean & _)]%handler_inv.
  - apply HR.
  - apply blocks_query_batch in Hq. rewrite Forall_forall in Hq.
    apply (process_records_always R) in Hloop; [|by auto..].
    apply Hrm in Hclean. rewrite <-(app_nil_r evs). by apply (frame_app R HR w evs w1).
Qed.

End worker_always.

Section worker_latches.
Context {Remote : Type} `{!NotionAPI Remote}.

Ltac unchanged_prim :=
  let w := fresh "w" in
  intros w ? ? ?;
  cbv delta [emit get_page put_page rival_put download_file get_object isfile
    open_readline read_file rmtree client_ready client_set notion_call delete_item
    put_block] beta;
  repeat case_match; intros [= <- <- <-]; split; reflexivity.

Ltac unchanged_step :=
  first
    [ apply always_ret; apply unchanged_frame
    | apply always_raise; apply unchanged_frame
    | apply always_bind; [apply unchanged_frame| |intros ?]
    | case_match
    | unchanged_prim ].

(** ** The Notion client *)

Lemma init_notion_client_latch :
  latch client_built is_new_client (Uploader.init_notion_client (Remote:=Remote)).
Proof.
  intros w w' evs r. unfold Uploader.init_notion_client. rewrite bind_run.
  unfold client_ready at 1, client_built. destruct (notion_client w) eqn:Hc.
  - intros [= <- <- <-]. split; [by auto|by left].
  - rewrite bind_run. unfold notion_call at 1.
    destruct (new_client (notion w)) as [n [[]|x]]; simpl.
    + unfold client_set. intros [= <- <- <-]. simpl. split; [done|].
      right. split; [reflexivity|by left].
    + intros [= <- <- <-]. split; [done|]. right. split; [reflexivity|by right].
Qed.

Lemma record_handler_client record tmpdir :
  latch client_built is_new_client (Uploader.record_handler record tmpdir).
Proof.
  unfold Uploader.record_handler.
  repeat (apply latch_keeps_l;
    [apply (unchanged_keeps notion_client (λ b, b = true));
     solve [repeat unchanged_step] | intros ?]).
  apply latch_keeps_r; [apply init_notion_client_latch|intros ?].
  apply (unchanged_keeps notion_client (λ b, b = true)).
  unfold Uploader.get_or_make_page. repeat unchanged_step.
Qed.

Lemma client_since_frame : frame (client_since (Remote:=Remote)).
Proof.
  split.
  - intros w. unfold client_since. rewrite elem_of_nil. tauto.
  - intros w e1 w1 e2 w2. unfold client_since. rewrite elem_of_app. tauto.
Qed.

Lemma unchanged_client_since {A} (m : M Remote A) :
  always (unchanged notion_client is_new_client) m → always client_since m.
Proof.
  intros Hm w w' evs r [Hflag Hc]%Hm. unfold client_since. rewrite Hflag.
  apply calls_none in Hc. rewrite Forall_forall in Hc.
  split; [by left|]. intros [?|Hin]; [done|]. by apply Hc in Hin.
Qed.

Lemma init_notion_client_since :
  always client_since (Uploader.init_notion_client (Remote:=Remote)).
Proof.
  intros w w' evs r. unfold Uploader.init_notion_client, client_since. rewrite bind_run.
  unfold client_ready at 1. destruct (notion_client w) eqn:Hc.
  - intros [= <- <- <-]. rewrite Hc. by split; [left|].
  - rewrite bind_run. unfold notion_call at 1.
    destruct (new_client (notion w)) as [n [[]|x]]; simpl.
    + unfold client_set. intros [= <- <- <-]. simpl. split; [|done].
      intros _. right. by left.
    + intros [= <- <- <-]. simpl. rewrite Hc, list_elem_of_singleton.
      split; [done|]. by intros [?|?].
Qed.

Lemma record_handler_client_since record tmpdir :
  always client_since (Uploader.record_handler record tmpdir).
Proof.
  unfold Uploader.record_handler.
  repeat (apply always_bind;
    [apply client_since_frame
    |apply unchanged_client_since; solve [repeat unchanged_step]
    |intros ?]).
  apply always_bind; [apply client_since_frame|apply init_notion_client_since|intros ?].
  apply unchanged_client_since.
  unfold Uploader.get_or_make_page. repeat unchanged_step.
Qed.

(** The worker constructs the Notion client at most once in an invocation,
    failed attempts counted, and not at all when the client of an earlier
    invocation is still there; the client is there afterwards exactly when it
    was there before or has been constructed now. *)
Theorem worker_builds_client_once batch w w' evs r :
  Uploader.handler batch w = (w', evs, r) →
  (calls is_new_client evs ≤ 1)%nat
  ∧ (notion_client w = true → calls is_new_client evs = 0)
  ∧ (notion_client w' = true ↔ notion_client w = true ∨ EvNewClient true ∈ evs).
Proof.
  intros Hrun. split_and!.
  - eapply (handler_once client_built is_new_client) in Hrun as (_ & ? & _); [done| |].
    + intros record _. apply record_handler_client.
    + intros k. apply (unchanged_keeps notion_client (λ b, b = true)). unchanged_prim.
  - eapply (handler_once client_built is_new_client) in Hrun as (? & _); [done| |].
    + intros record _. apply record_handler_client.
    + intros k. apply (unchanged_keeps notion_client (λ b, b = true)). unchanged_prim.
  - revert Hrun. apply (handler_always client_since).
    + apply client_since_frame.
    + intros record _. apply record_handler_client_since.
    + intros k. apply unchanged_client_since. unchanged_prim.
    + apply unchanged_client_since. unchanged_prim.
Qed.

(** ** The page of the batch *)

Lemma create_page_calls (parent_page : Page) (title : string)
    (w w' : World Remote) evs (r : outcome Page) :
  (if decide (page_type parent_page = CollectionViewBlock
              ∨ page_type parent_page = CollectionViewPageBlock)
   then
     row ← notion_call (add_row parent_page) (EvAddRow (page_url parent_page));
     notion_call (set_title row title) (EvSetTitle (page_url row) title);;
     mret row
   else if decide (page_type parent_page = PageBlock)
   then notion_call (add_new parent_page title)
          (EvAddNew (page_url parent_page) title)
   else raise ValueError) w = (w', evs, r) →
  (calls is_creation evs ≤ 1)%nat.
Proof.
  destruct (decide _) as [_|_]; [|destruct (decide _) as [_|_]].
  - rewrite bind_run. unfold notion_call at 1.
    destruct (add_row parent_page (notion w)) as [n [row|x]]; simpl.
    + rewrite bind_run. unfold notion_call at 1. simpl.
      destruct (set_title row title n) as [n' [[]|x]]; simpl;
        intros [= <- <- <-]; unfold calls; simpl; lia.
    + intros [= <- <- <-]. unfold calls. simpl. lia.
  - unfold notion_call. destruct (add_new parent_page title (notion w)) as [n [p|x]];
      intros [= <- <- <-]; unfold calls; simpl; lia.
  - intros [= <- <- <-]. unfold calls. simpl. lia.
Qed.

Lemma store_page_url {A} (batch url : string) (a : A) (w w' : World Remote) evs r :
  (rival_put batch;; put_page batch url;; mret a) w = (w', evs, r) →
  calls is_creation evs = 0 ∧ (mapped batch w' ∨ is_ok r = false).
Proof.
  rewrite bind_run. unfold rival_put at 1, mapped.
  destruct (rivals w) as [|[rival|] rest]; simpl;
    rewrite bind_run; unfold put_page at 1, pages_put_item; simpl.
  - destruct (pages w !! batch) as [u|] eqn:Hp; simpl; intros [= <- <- <-]; simpl.
    + auto.
    + rewrite lookup_insert_eq. eauto.
  - destruct (pages w !! batch) as [u|] eqn:Hp; simpl.
    + rewrite Hp. intros [= <- <- <-]. auto.
    + rewrite lookup_insert_eq. intros [= <- <- <-]. auto.
  - destruct (pages w !! batch) as [u|] eqn:Hp; simpl; intros [= <- <- <-]; simpl.
    + auto.
    + rewrite lookup_insert_eq. eauto.
Qed.

Lemma get_or_make_page_creates batch title parent :
  latch (mapped batch) is_creation
    (Uploader.get_or_make_page (Remote:=Remote) batch title parent).
Proof.
  intros w w' evs r. unfold mapped.
  destruct (pages w !! batch) as [url|] eqn:Hp.
  - rewrite (resolver_hit _ _ _ _ _ Hp). intros [= <- <- <-]. simpl. rewrite Hp.
    split; [by auto|by left].
  - intros Hrun. split; [by intros []%is_Some_None|].
    revert Hrun. unfold Uploader.get_or_make_page. rewrite bind_run.
    unfold get_page at 1, pages_get_item. rewrite Hp.
    match goal with
    | |- context [match ?x with _ => _ end] => destruct x as [[w0 e0] r0] eqn:Hrest
    end.
    intros [= <- <- <-]. simpl.
    apply bind_inv in Hrest
      as [(x & H & ->)|(w1 & e1 & parent_page & e2 & H1 & H2 & ->)].
    { left. revert H. unfold notion_call.
      destruct (get_block parent (notion w)) as [n a]. by intros [= <- <- _]. }
    assert (He1 : calls is_creation e1 = 0).
    { revert H1. unfold notion_call.
      destruct (get_block parent (notion w)) as [n a]. by intros [= <- <- _]. }
    rewrite calls_app, He1. simpl.
    destruct parent_page as [parent_page|]; [|injection H2 as <- <- <-; by left].
    apply bind_inv in H2
      as [(x & H & ->)|(w2 & e3 & new_page & e4 & H3 & H4 & ->)].
    { apply create_page_calls in H.
      destruct (calls is_creation e2) as [|[|?]]; [by left|right; by auto|lia]. }
    apply create_page_calls in H3. apply store_page_url in H4 as [He4 Hend].
    rewrite calls_app, He4, Nat.add_0_r.
    destruct (calls is_creation e3) as [|[|?]]; [by left|right; by auto|lia].
Qed.

Lemma record_handler_creates record tmpdir :
  latch (mapped (BlockBatch record)) is_creation (Uploader.record_handler record tmpdir).
Proof.
  unfold Uploader.record_handler.
  repeat (apply latch_keeps_l;
    [apply (unchanged_keeps pages (λ t, is_Some (t !! BlockBatch record)));
     solve [unfold Uploader.init_notion_client; repeat unchanged_step] | intros ?]).
  apply latch_keeps_r; [apply get_or_make_page_creates|intros ?].
  apply (unchanged_keeps pages (λ t, is_Some (t !! BlockBatch record))).
  repeat unchanged_step.
Qed.

(** The worker creates at most one page in an invocation, and none when
    the batch has a page mapping, which it keeps. *)
Theorem worker_creates_one_page batch w w' evs r :
  Uploader.handler batch w = (w', evs, r) →
  (calls is_creation evs ≤ 1)%nat
  ∧ (is_Some (pages w !! batch) →
     calls is_creation evs = 0 ∧ is_Some (pages w' !! batch)).
Proof.
  intros Hrun.
  eapply (handler_once (mapped batch) is_creation) in Hrun
    as (Hnone & Hone & w1 & Hkeep & Hend).
  - split; [done|]. intros Hp. split; [by apply Hnone|].
    apply Hkeep in Hp. destruct Hend as [->|[= <- ]]; done.
  - intros record <-. apply record_handler_creates.
  - intros k. apply (unchanged_keeps pages (λ t, is_Some (t !! batch))). unchanged_prim.
Qed.

(** ** The parent URL file *)

Lemma prefix_app (s t : string) : String.prefix s (s +:+ t) = true.
Proof.
  induction s as [|a s IH]; [by destruct t|]. simpl. by destruct (ascii_dec a a).
Qed.

Lemma rev_app_app (s t acc : string) :
  String.rev_app (s +:+ t) acc = String.rev_app t (String.rev_app s acc).
Proof. revert acc. induction s as [|a s IH]; intros acc; [done|]. simpl. apply IH. Qed.

Lemma string_app_assoc (x y z : string) : (x +:+ y) +:+ z = x +:+ (y +:+ z).
Proof.
  induction x as [|a x IH]; [done|].
  change (String a ((x +:+ y) +:+ z) = String a (x +:+ (y +:+ z))). by rewrite IH.
Qed.

Lemma rev_app_acc (s acc : string) :
  String.rev_app s acc = String.rev_app s "" +:+ acc.
Proof.
  revert acc. induction s as [|a s IH]; intros acc; [done|]. simpl.
  rewrite (IH (String a acc)), (IH (String a "")).
  by rewrite string_app_assoc.
Qed.

Lemma endswith_app (s t : string) : Py.endswith (s +:+ t) t = true.
Proof.
  unfold Py.endswith, String.rev.
  rewrite rev_app_app, (rev_app_acc t (String.rev_app s "")). apply prefix_app.
Qed.

Lemma calls_parent_fetch bucket (dir : string) ok :
  calls is_parent_fetch
    [EvS3Download bucket (dir +:+ "/" +:+ Uploader.PARENT_URL_FILENAME) ok] = 1.
Proof. rewrite calls_cons. cbn [is_parent_fetch]. by rewrite endswith_app. Qed.

Lemma record_handler_fetches record tmpdir :
  latch (cached (tmpdir +:+ Uploader.PARENT_URL_FILENAME)) is_parent_fetch
    (Uploader.record_handler record tmpdir).
Proof.
  unfold Uploader.record_handler, Uploader.init_notion_client, Uploader.get_or_make_page.
  apply latch_keeps_l; [|intros _].
  { apply (unchanged_keeps tmp (λ t, is_Some (t !! _))). unchanged_prim. }
  intros w w' evs r. rewrite bind_run. unfold isfile at 1, cached.
  match goal with
  | |- context [match ?x with _ => _ end] => destruct x as [[w0 e0] r0] eqn:Hrest
  end.
  intros [= <- <- <-]. simpl.
  destruct (tmp w !! (tmpdir +:+ Uploader.PARENT_URL_FILENAME)) as [body|] eqn:Hf.
  - rewrite bool_decide_eq_true_2 in Hrest by eauto.
    revert Hrest.
    match goal with
    | |- ?m w = _ → _ =>
        assert (Hk : always (unchanged tmp is_parent_fetch) m) by repeat unchanged_step
    end.
    intros [-> ->]%Hk. rewrite Hf. split; [by auto|by left].
  - split; [by intros []%is_Some_None|].
    rewrite bool_decide_eq_false_2 in Hrest by (by intros []%is_Some_None).
    apply bind_inv in Hrest
      as [(x & H & ->)|(w1 & e1 & [] & e2 & H1 & H2 & ->)].
    + right. revert H. unfold download_file.
      destruct (s3 w !! _); [done|]. intros [= <- <- _].
      split; [apply calls_parent_fetch|by right].
    + revert H1. unfold download_file.
      destruct (s3 w !! _) as [body|]; [|done]. intros [= <- <-].
      revert H2.
      match goal with
      | |- ?m _ = _ → _ =>
          assert (Hk : always (unchanged tmp is_parent_fetch) m) by repeat unchanged_step
      end.
      intros [-> He2]%Hk. right. rewrite calls_app, He2, calls_parent_fetch.
      split; [done|]. left. simpl. rewrite lookup_insert_eq. eauto.
Qed.

(** The worker fetches a parent URL file from the staging bucket at most
    once in an invocation, failed attempts counted, and not at all when its
    directory still holds the file. *)
Theorem worker_fetches_parent_url_once batch w w' evs r :
  Uploader.handler batch w = (w', evs, r) →
  (calls is_parent_fetch evs ≤ 1)%nat
  ∧ (is_Some (tmp w !! (tmpdir_of batch +:+ Uploader.PARENT_URL_FILENAME)) →
     calls is_parent_fetch evs = 0).
Proof.
  intros Hrun.
  eapply (handler_once (cached (tmpdir_of batch +:+ Uploader.PARENT_URL_FILENAME))
            is_parent_fetch) in Hrun as (Hnone & Hone & _).
  - done.
  - intros record _. apply record_handler_fetches.
  - intros k. apply (unchanged_keeps tmp (λ t, is_Some (t !! _))). unchanged_prim.
Qed.

(** ** The directory of the batch *)

Lemma tmp_within_frame dir : frame (tmp_within (Remote:=Remote) dir).
Proof.
  split.
  - by intros w path _.
  - intros w e1 w1 e2 w2 H1 H2 path Hpath. by rewrite H2, H1.
Qed.

Lemma unchanged_tmp_within {A} dir f (m : M Remote A) :
  always (unchanged tmp f) m → always (tmp_within dir) m.
Proof. intros Hm w w' evs r [Htmp _]%Hm path _. by rewrite Htmp. Qed.

Lemma download_file_within bucket key dir name :
  always (tmp_within dir) (download_file bucket key (dir +:+ name) : M Remote unit).
Proof.
  intros w w' evs r. unfold download_file.
  destruct (s3 w !! _) as [body|]; intros [= <- <- <-] path Hpath; [|done].
  simpl. apply lookup_insert_ne. intros <-. by rewrite prefix_app in Hpath.
Qed.

Lemma record_handler_within record tmpdir :
  always (tmp_within tmpdir) (Uploader.record_handler record tmpdir).
Proof.
  unfold Uploader.record_handler, Uploader.init_notion_client, Uploader.get_or_make_page.
  repeat first
    [ apply always_bind; [apply tmp_within_frame| |intros ?]
    | apply download_file_within
    | apply (unchanged_tmp_within tmpdir is_parent_fetch); solve [repeat unchanged_step]
    | case_match ].
Qed.

(** An invocation that is granted its query leaves no file under the
    directory of its batch, whatever was there before and whether or not an
    upload failed, and leaves every other file as it found it. *)
Theorem worker_cleans_tmpdir batch w w' evs r :
  (1 ≤ max_blocks w)%Z →
  Uploader.handler batch w = (w', evs, r) →
  ∀ path,
    tmp w' !! path
    = if String.prefix (tmpdir_of batch) path then None else tmp w !! path.
Proof.
  intros Hlimit
    [(? & _)|(records & w1 & processed & res & Hq & Hloop & Hclean & _)]%handler_inv;
    [lia|].
  apply (process_records_always (tmp_within (tmpdir_of batch))) in Hloop.
  - injection Hclean as <-. intros path. simpl. rewrite map_lookup_filter.
    destruct (String.prefix (tmpdir_of batch) path) eqn:Hpath.
    + destruct (tmp w1 !! path); [|done]. simpl. by rewrite option_guard_False by (by rewrite Hpath).
    + rewrite <-(Hloop path Hpath). destruct (tmp w1 !! path); [|done]. simpl.
      by rewrite option_guard_True.
  - apply tmp_within_frame.
  - intros record _. apply record_handler_within.
  - intros k. apply (unchanged_tmp_within _ is_parent_fetch). unchanged_prim.
Qed.

(** ** The page mappings *)

Lemma pages_kept_frame batch : frame (pages_kept (Remote:=Remote) batch).
Proof.
  split.
  - intros w. split_and!; [done|done|constructor|]. by intros url []%elem_of_nil.
  - intros w e1 w1 e2 w2 (Ho1 & Hk1 & He1 & Hp1) (Ho2 & Hk2 & He2 & Hp2). split_and!.
    + intros b Hb. by rewrite Ho2, Ho1.
    + intros url Hurl. by apply Hk2, Hk1.
    + by apply Forall_app.
    + intros url [[Hn Hs]%Hp1|[Hn Hs]%Hp2]%elem_of_app.
      * split; [done|]. by apply Hk2.
      * split; [|done]. destruct (pages w !! batch) as [u|] eqn:Hw; [|done].
        specialize (Hk1 u eq_refl). congruence.
Qed.

Lemma unchanged_pages_kept {A} batch (m : M Remote A) :
  always (unchanged pages is_put_page) m → always (pages_kept batch) m.
Proof.
  intros Hm w w' evs r [Hpages Hc%calls_none]%Hm. unfold pages_kept. rewrite Hpages.
  split_and!; [done|done| |].
  - eapply Forall_impl; [exact Hc|]. by intros [].
  - intros url Hin. rewrite Forall_forall in Hc. by apply Hc in Hin.
Qed.

Lemma put_page_kept batch url :
  always (pages_kept batch) (put_page batch url : M Remote unit).
Proof.
  intros w w' evs r. unfold put_page, pages_put_item.
  destruct (pages w !! batch) as [u|] eqn:Hp; intros [= <- <- <-];
    unfold pages_kept; simpl.
  - split_and!; [done|done| |].
    + constructor; [|constructor]. simpl. by rewrite bool_decide_eq_true_2.
    + by intros u' [=]%list_elem_of_singleton.
  - split_and!.
    + intros b Hb. by rewrite lookup_insert_ne.
    + intros u. by rewrite Hp.
    + constructor; [|constructor]. simpl. by rewrite bool_decide_eq_true_2.
    + intros u' [= ->]%list_elem_of_singleton. by rewrite lookup_insert_eq.
Qed.

Lemma rival_put_kept batch : always (pages_kept batch) (rival_put batch : M Remote unit).
Proof.
  intros w w' evs r. unfold rival_put, pages_put_item.
  destruct (rivals w) as [|[rival|] rest]; [| |];
    try (intros [= <- <- <-]; split_and!;
         [done|done|constructor|by intros ? []%elem_of_nil]).
  destruct (pages w !! batch) as [u|] eqn:Hp; intros [= <- <- <-];
    unfold pages_kept; simpl.
  - split_and!; [done|done|constructor|by intros ? []%elem_of_nil].
  - split_and!; [|by intros ?; rewrite Hp|constructor|by intros ? []%elem_of_nil].
    intros b Hb. by rewrite lookup_insert_ne.
Qed.

Lemma record_handler_pages_kept record tmpdir :
  always (pages_kept (BlockBatch record)) (Uploader.record_handler record tmpdir).
Proof.
  unfold Uploader.record_handler, Uploader.init_notion_client, Uploader.get_or_make_page.
  repeat first
    [ apply always_bind; [apply pages_kept_frame| |intros ?]
    | apply always_ret; apply pages_kept_frame
    | apply always_raise; apply pages_kept_frame
    | apply put_page_kept
    | apply rival_put_kept
    | apply unchanged_pages_kept; unchanged_prim
    | case_match ].
Qed.

(** The worker changes no page mapping of another batch and never replaces
    or removes the mapping of its own; every insert it attempts is for its
    batch, and one is accepted only where the batch had no mapping, which is
    then the mapping the invocation leaves. *)
Theorem worker_keeps_page_mappings batch w w' evs r :
  Uploader.handler batch w = (w', evs, r) →
  (∀ b, b ≠ batch → pages w' !! b = pages w !! b)
  ∧ (∀ url, pages w !! batch = Some url → pages w' !! batch = Some url)
  ∧ (∀ b url ok, EvPutPage b url ok ∈ evs → b = batch)
  ∧ (∀ url, EvPutPage batch url true ∈ evs →
       pages w !! batch = None ∧ pages w' !! batch = Some url).
Proof.
  intros Hrun.
  assert (Hkept : pages_kept batch w evs w').
  { revert Hrun. apply (handler_always (pages_kept batch)).
    - apply pages_kept_frame.
    - intros record <-. apply record_handler_pages_kept.
    - intros k. apply unchanged_pages_kept. unchanged_prim.
    - apply unchanged_pages_kept. unchanged_prim. }
  destruct Hkept as (Hother & Hkeep & Hfor & Hput). split_and!; [done|done| |done].
  intros b url ok Hin. rewrite Forall_forall in Hfor. apply Hfor in Hin.
  simpl in Hin. by apply bool_decide_eq_true in Hin.
Qed.

End worker_latches.

Lemma worker_builds_client_once_witness :
  let run := Uploader.handler "b1" (Demo.world 200 [] []) in
  calls is_new_client run.1.2 = 1
  ∧ notion_client run.1.1 = true
  ∧ calls is_new_client (Uploader.handler "b1" run.1.1).1.2 = 0.
Proof.
  intros run.
  destruct (worker_builds_client_once "b1" (Demo.world 200 [] []) run.1.1 run.1.2 run.2
              (run_eta run)) as (Hone & _ & Hsince).
  assert (Hbuilt : notion_client run.1.1 = true).
  { apply Hsince. right. by_compute. }
  split_and!; [by vm_compute|exact Hbuilt|].
  pose (next := Uploader.handler "b1" run.1.1).
  destruct (worker_builds_client_once "b1" run.1.1 next.1.1 next.1.2 next.2
              (run_eta next)) as (_ & Hwarm & _).
  by apply Hwarm.
Defined.

Lemma worker_creates_one_page_witness :
  let run := Uploader.handler "b1" (Demo.world 200 [] []) in
  (calls is_creation run.1.2 ≤ 1)%nat
  ∧ is_Some (pages Demo.mapped_world !! "b1")
  ∧ calls is_creation (Uploader.handler "b1" Demo.mapped_world).1.2 = 0.
Proof.
  intros run.
  destruct (worker_creates_one_page "b1" (Demo.world 200 [] []) run.1.1 run.1.2 run.2
              (run_eta run)) as (Hone & _).
  assert (Hmapped : is_Some (pages Demo.mapped_world !! "b1"))
    by (vm_compute; by eexists).
  pose (hit := Uploader.handler "b1" Demo.mapped_world).
  destruct (worker_creates_one_page "b1" Demo.mapped_world hit.1.1 hit.1.2 hit.2
              (run_eta hit)) as (_ & Hnone).
  split_and!; [exact Hone|exact Hmapped|by apply Hnone].
Defined.

Lemma worker_fetches_parent_url_once_witness :
  let run := Uploader.handler "b1" (Demo.world 200 [] []) in
  length (processed_keys run.1.2) = 3
  ∧ (calls is_parent_fetch run.1.2 ≤ 1)%nat.
Proof.
  intros run. split; [by vm_compute|].
  apply (worker_fetches_parent_url_once "b1" (Demo.world 200 [] []) run.1.1 run.1.2 run.2
           (run_eta run)).
Defined.

Lemma worker_cleans_tmpdir_witness :
  let w := set_tmp {[ "/tmp/b1/stale.png" := "x"; "/tmp/b2/parenturl.txt" := "y" ]}
             (Demo.world 200 Demo.failing_script []) in
  let run := Uploader.handler "b1" w in
  (1 ≤ max_blocks w)%Z
  ∧ tmp run.1.1 !! "/tmp/b1/stale.png" = None
  ∧ tmp run.1.1 !! "/tmp/b1/parenturl.txt" = None
  ∧ tmp run.1.1 !! "/tmp/b2/parenturl.txt" = Some "y".
Proof.
  intros w run.
  assert (Hlimit : (1 ≤ max_blocks w)%Z) by by_compute.
  pose proof (worker_cleans_tmpdir "b1" w run.1.1 run.1.2 run.2 Hlimit (run_eta run))
    as Hclean.
  split_and!; [exact Hlimit|..].
  - by rewrite (Hclean "/tmp/b1/stale.png").
  - by rewrite (Hclean "/tmp/b1/parenturl.txt").
  - by rewrite (Hclean "/tmp/b2/parenturl.txt").
Defined.

Lemma worker_keeps_page_mappings_witness :
  let w := set_pages {[ "b2" := "https://www.notion.so/other" ]} (Demo.world 200 [] []) in
  let run := Uploader.handler "b1" w in
  pages run.1.1 !! "b2" = Some "https://www.notion.so/other"
  ∧ EvPutPage "b1" "https://www.notion.so/1" true ∈ run.1.2
  ∧ pages w !! "b1" = None
  ∧ pages run.1.1 !! "b1" = Some "https://www.notion.so/1".
Proof.
  intros w run.
  destruct (worker_keeps_page_mappings "b1" w run.1.1 run.1.2 run.2 (run_eta run))
    as (Hother & _ & _ & Hput).
  assert (Hin : EvPutPage "b1" "https://www.notion.so/1" true ∈ run.1.2) by by_compute.
  destruct (Hput _ Hin) as [Hnone Hsome].
  split_and!; [|exact Hin|exact Hnone|exact Hsome].
  by rewrite (Hother "b2").
Defined.

(** * Further properties of the page resolver *)

Section resolver_more.
Context {Remote : Type} `{!NotionAPI Remote}.
Implicit Types (w : World Remote).

(** The resolver finds no mapping and no other resolver of the batch is at
    work: when it returns, it returns the page it has created and has stored
    that page's URL as the mapping of the batch, so the next call for the
    batch fetches this very page; when it raises, it has stored nothing and
    attempted no insert. *)
Theorem resolver_miss_stores_mapping batch title parent w w' evs r :
  pages w !! batch = None →
  (∀ rival rest, rivals w ≠ Some rival :: rest) →
  Uploader.get_or_make_page batch title parent w = (w', evs, r) →
  match r with
  | Ok page =>
      ∃ new_page,
        page = Some new_page
        ∧ pages w' = <[batch := page_url new_page]> (pages w)
        ∧ EvPutPage batch (page_url new_page) true ∈ evs
        ∧ ∀ title' parent',
            Uploader.get_or_make_page batch title' parent' w'
            = (set_notion (get_block (page_url new_page) (notion w')).1 w',
               [EvGetBlock (page_url new_page)
                  (is_ok (get_block (page_url new_page) (notion w')).2)],
               (get_block (page_url new_page) (notion w')).2)
  | Raise _ => pages w' = pages w ∧ calls is_put_page evs = 0
  end.
Proof.
  intros Hnone Hriv. unfold Uploader.get_or_make_page. rewrite bind_run.
  unfold get_page at 1, pages_get_item. rewrite Hnone.
  match goal with
  | |- context [match ?x with _ => _ end] => destruct x as [[w0 e0] r0] eqn:Hrest
  end.
  intros [= <- <- <-]. simpl.
  apply bind_inv in Hrest
    as [(x & H & ->)|(w1 & e1 & parent_page & e2 & H1 & H2 & ->)].
  { by apply remote_only_fetch in H as (-> & _ & ?%calls_none). }
  apply remote_only_fetch in H1 as (Hp1 & Hr1 & He1%calls_none).
  destruct parent_page as [parent_page|]; cycle 1.
  { injection H2 as <- <- <-. by rewrite app_nil_r. }
  assert (Hcreate : ∀ w2 e3 (r3 : outcome Page),
    (if decide (page_type parent_page = CollectionViewBlock
                ∨ page_type parent_page = CollectionViewPageBlock)
     then
       row ← notion_call (add_row parent_page) (EvAddRow (page_url parent_page));
       notion_call (set_title row title) (EvSetTitle (page_url row) title);;
       mret row
     else if decide (page_type parent_page = PageBlock)
     then notion_call (add_new parent_page title)
            (EvAddNew (page_url parent_page) title)
     else raise ValueError) w1 = (w2, e3, r3) →
    pages w2 = pages w1 ∧ rivals w2 = rivals w1 ∧ calls is_put_page e3 = 0).
  { intros w2 e3 r3.
    match goal with |- ?m w1 = _ → _ =>
      assert (Hro : always (unchanged (λ w, (pages w, rivals w)) is_put_page) m)
    end.
    { repeat first
        [ apply always_ret; apply unchanged_frame
        | apply always_raise; apply unchanged_frame
        | apply always_bind; [apply unchanged_frame| |intros ?]
        | case_match
        | intros ????; unfold notion_call; case_match; intros [= <- <- <-];
          split; reflexivity ]. }
    intros [[= -> ->] ?]%Hro. done. }
  apply bind_inv in H2
    as [(x & H & ->)|(w2 & e3 & new_page & e4 & H3 & H4 & ->)].
  { apply Hcreate in H as (-> & _ & He2). rewrite calls_app, He1, He2. done. }
  apply Hcreate in H3 as (Hp2 & Hr2 & He3).
  rewrite bind_run in H4. unfold rival_put at 1 in H4. rewrite Hr2, Hr1 in H4.
  assert (Hput : (put_page batch (page_url new_page);; mret (Some new_page)) w2
                 = (w0, e4, r0)
                 ∨ ∃ rest, (put_page batch (page_url new_page);; mret (Some new_page))
                             (set_rivals rest w2)
                           = (w0, e4, r0)).
  { destruct (rivals w) as [|[rival|] rest] eqn:Hrivals.
    - left. revert H4. simpl.
      match goal with
      | |- context [match ?x with _ => _ end] => by destruct x as [[??]?]
      end.
    - by destruct (Hriv rival rest).
    - right. exists rest. revert H4. simpl.
      match goal with
      | |- context [match ?x with _ => _ end] => by destruct x as [[??]?]
      end. }
  assert (Hstored : r0 = Ok (Some new_page)
                    ∧ pages w0 = <[batch := page_url new_page]> (pages w)
                    ∧ e4 = [EvPutPage batch (page_url new_page) true]).
  { destruct Hput as [Hput|[rest Hput]]; revert Hput; rewrite bind_run;
      unfold put_page at 1, pages_put_item; simpl;
      rewrite Hp2, Hp1, Hnone; simpl; by intros [= <- <- <-]. }
  destruct Hstored as (-> & Hpages & ->). exists new_page. split_and!; [done|done| |].
  - rewrite !elem_of_app. right. right. by left.
  - intros title' parent'. apply resolver_hit. by rewrite Hpages, lookup_insert_eq.
Qed.

(** The resolver finds no mapping and cannot use the parent: the fetch of
    the parent raises, the workspace has no such block, or the block is
    neither a page nor a database. It then raises after that one call to
    Notion; no page is created and nothing is stored. *)
Theorem resolver_unusable_parent batch title parent n answer w :
  pages w !! batch = None →
  get_block parent (notion w) = (n, answer) →
  (∀ parent_page, answer = Ok (Some parent_page) →
     page_type parent_page ≠ CollectionViewBlock
     ∧ page_type parent_page ≠ CollectionViewPageBlock
     ∧ page_type parent_page ≠ PageBlock) →
  Uploader.get_or_make_page batch title parent w
  = (set_notion n w, [EvGetBlock parent (is_ok answer)],
     Raise match answer with
           | Raise x => x
           | Ok None => AttributeError
           | Ok (Some _) => ValueError
           end).
Proof.
  intros Hnone Hget Hother. unfold Uploader.get_or_make_page. rewrite bind_run.
  unfold get_page at 1, pages_get_item. rewrite Hnone, bind_run.
  unfold notion_call at 1. rewrite Hget.
  destruct answer as [[parent_page|]|x]; [|done..].
  destruct (Hother parent_page eq_refl) as (H1 & H2 & H3).
  rewrite decide_False by (by intros [?|?]).
  by rewrite decide_False.
Qed.

End resolver_more.

Lemma resolver_miss_stores_mapping_witness :
  let run := Uploader.get_or_make_page "b1" "Doc" "https://www.notion.so/wiki"
               (Demo.world 200 [] []) in
  pages (Demo.world 200 [] []) !! "b1" = None
  ∧ run.2 = Ok (Some (mkPage "https://www.notion.so/1" PageBlock "Doc"))
  ∧ pages run.1.1 !! "b1" = Some "https://www.notion.so/1".
Proof.
  intros run.
  assert (Hnone : pages (Demo.world 200 [] []) !! "b1" = None) by by vm_compute.
  assert (Hriv : ∀ rival rest, rivals (Demo.world 200 [] []) ≠ Some rival :: rest)
    by (by intros rival rest).
  assert (Hres : run.2 = Ok (Some (mkPage "https://www.notion.so/1" PageBlock "Doc")))
    by by vm_compute.
  pose proof (resolver_miss_stores_mapping "b1" "Doc" "https://www.notion.so/wiki"
                (Demo.world 200 [] []) run.1.1 run.1.2 run.2 Hnone Hriv (run_eta run))
    as Hmiss.
  rewrite Hres in Hmiss. destruct Hmiss as (new_page & [= <-] & Hpages & _).
  split_and!; [exact Hnone|exact Hres|].
  rewrite Hpages. apply lookup_insert_eq.
Defined.

Lemma resolver_unusable_parent_witness :
  let note := mkPage "https://www.notion.so/note" TextBlock "a paragraph" in
  let w := set_notion (Demo.mkWorkspace [note] [] []) (Demo.world 200 [] []) in
  Uploader.get_or_make_page "b1" "Doc" "https://www.notion.so/note" w
  = (w, [EvGetBlock "https://www.notion.so/note" true], Raise ValueError).
Proof.
  intros note w.
  apply (resolver_unusable_parent "b1" "Doc" "https://www.notion.so/note"
           (Demo.mkWorkspace [note] [] []) (Ok (Some note)) w).
  - by vm_compute.
  - reflexivity.
  - intros parent_page [= <-]. by split_and!.
Defined.

(** * The older copy of the worker, in general *)

Section flat_worker.
Context {Remote : Type} `{!NotionAPI Remote}.
Implicit Types (w : World Remote).

Ltac flat_quiet_step :=
  first
    [ apply quiet_ret | apply quiet_raise | apply quiet_get_page
    | apply quiet_put_page | apply quiet_rival_put | apply quiet_get_object
    | apply quiet_rmtree | apply quiet_client_ready | apply quiet_client_set
    | apply quiet_notion_call; by intros []
    | apply quiet_bind; [|intros ?]
    | apply quiet_try_except_else; [|intros ?|intros ?]
    | case_match ].

Lemma flat_uploads_uploadBlock k block page dir :
  uploads k
    (finally (notion_call (uploadBlock block page) (EvUpload k)) (rmtree dir);;
     mret true : M Remote bool).
Proof.
  intros w w' evs r. rewrite bind_run. unfold finally, notion_call, rmtree.
  destruct (uploadBlock block page (notion w)) as [n [[]|x]];
    intros [= <- <- <-]; (split_and!; [done..|]); exists []; eexists;
    (split; [done|]); split; eauto.
Qed.

Lemma flat_record_handler_run record w w' evs r :
  FlatUploader.record_handler record w = (w', evs, r) →
  blocks w' = blocks w ∧ max_blocks w' = max_blocks w
  ∧ processed_keys evs = [key_of record]
  ∧ deleted_keys evs = []
  ∧ uploaded_keys evs = (if is_ok r then [key_of record] else []).
Proof.
  unfold FlatUploader.record_handler.
  intros [(x & H & ->)|(w1 & e1 & [] & e2 & H1 & H2 & ->)]%bind_inv;
    [discriminate H|].
  injection H1 as <- <-. cbv beta in H2.
  match type of H2 with
  | ?m w = _ => assert (Hup : uploads (key_of record) m)
  end.
  { unfold FlatUploader.init_notion_client, FlatUploader.get_or_make_page.
    repeat (apply uploads_bind; [solve [repeat flat_quiet_step]|intros ?]).
    apply flat_uploads_uploadBlock. }
  apply Hup in H2 as (-> & -> & q & u & -> & Hq & Hu). split_and!; [done..| | |].
  - unfold processed_keys. rewrite <-omap_block_events by (by intros []).
    change ([EvProcess (key_of record)] ++ q ++ u)
      with (EvProcess (key_of record) :: q ++ u).
    destruct Hu as [[-> ->]|(x & -> & [->| ->])];
      rewrite block_events_record by (by repeat constructor); done.
  - unfold deleted_keys. rewrite <-omap_block_events by (by intros []).
    change ([EvProcess (key_of record)] ++ q ++ u)
      with (EvProcess (key_of record) :: q ++ u).
    destruct Hu as [[-> ->]|(x & -> & [->| ->])];
      rewrite block_events_record by (by repeat constructor); done.
  - unfold uploaded_keys. rewrite <-omap_block_events by (by intros [| | | | | | | |? []| | |]).
    change ([EvProcess (key_of record)] ++ q ++ u)
      with (EvProcess (key_of record) :: q ++ u).
    destruct Hu as [[-> ->]|(x & -> & [->| ->])];
      rewrite block_events_record by (by repeat constructor); done.
Qed.

Lemma flat_process_records_run records processed w w' evs out :
  FlatUploader.process_records records processed w = (w', evs, out) →
  is_ok out = true
  ∧ processed_keys evs = key_of <$> records
  ∧ deleted_keys evs = uploaded_keys evs
  ∧ ∀ k, blocks w' !! k
         = if decide (k ∈ uploaded_keys evs) then None else blocks w !! k.
Proof.
  revert processed w w' evs out.
  induction records as [|record rest IH]; intros processed w w' evs out.
  - intros [= <- <- <-]. split_and!; [done..|]. intros k.
    by rewrite decide_False by (by intros ?%elem_of_nil).
  - cbn [FlatUploader.process_records]. unfold try_except_else.
    destruct (FlatUploader.record_handler record w) as [[w1 e1] r1] eqn:Hr.
    apply flat_record_handler_run in Hr as (Hb1 & _ & Hp1 & Hd1 & Hu1).
    destruct r1 as [a|x]; simpl in Hu1.
    + rewrite bind_run. unfold delete_item at 1.
      destruct (FlatUploader.process_records _ _ _) as [[w2 e2] r2] eqn:Hrest.
      apply IH in Hrest as (Hok & Hp2 & Hd2 & Hb2).
      intros [= <- <- <-]. unfold processed_keys, deleted_keys, uploaded_keys in *.
      rewrite !omap_app, Hp1, Hd1, Hu1. csimpl. rewrite Hp2, Hd2.
      split_and!; [done..|]. intros k. rewrite Hb2. simpl.
      unfold blocks_delete_item. rewrite Hb1.
      destruct (decide (k = key_of record)) as [->|Hne].
      * rewrite lookup_delete_eq, (decide_True (P:=_ ∈ _ :: _)) by (by left).
        by case_decide.
      * rewrite lookup_delete_ne by done.
        destruct (decide (k ∈ omap _ e2)) as [Hin|Hout].
        -- by rewrite decide_True by (by right).
        -- by rewrite decide_False by (rewrite elem_of_cons; by intros [?|?]).
    + destruct (FlatUploader.process_records _ _ _) as [[w2 e2] r2] eqn:Hrest.
      apply IH in Hrest as (Hok & Hp2 & Hd2 & Hb2).
      intros [= <- <- <-]. unfold processed_keys, deleted_keys, uploaded_keys in *.
      rewrite !omap_app, Hp1, Hd1, Hu1. csimpl. rewrite Hp2, Hd2.
      split_and!; [done..|]. intros k. by rewrite Hb2, Hb1.
Qed.

(** The older worker takes up every record of its listing, in the order of
    the listing, whether or not an upload before it has failed; it deletes
    exactly the blocks whose upload went through, and it returns nothing. *)
Theorem flat_worker_takes_up_all batch w w' evs r :
  (1 ≤ max_blocks w)%Z →
  FlatUploader.handler batch w = (w', evs, r) →
  ∃ records,
    blocks_query (max_blocks w) batch (blocks w) = Ok records
    ∧ r = Ok tt
    ∧ processed_keys evs = key_of <$> records
    ∧ deleted_keys evs = uploaded_keys evs
    ∧ ∀ k, blocks w' !! k
           = if decide (k ∈ uploaded_keys evs) then None else blocks w !! k.
Proof.
  intros Hlimit.
  destruct (blocks_query_listing (max_blocks w) batch (blocks w) Hlimit)
    as (records & Hquery & _).
  unfold FlatUploader.handler. rewrite bind_run. unfold get_max_blocks at 1.
  rewrite bind_run. unfold query at 1. rewrite Hquery. rewrite bind_run.
  destruct (FlatUploader.process_records records [] w) as [[w1 e1] r1] eqn:Hloop.
  apply flat_process_records_run in Hloop as (Hok & Hp & Hd & Hb).
  destruct r1 as [processed|x]; [|done].
  unfold mret, M_ret. intros [= <- <- <-]. exists records.
  by rewrite !app_nil_r.
Qed.

Lemma flat_record_handler_fetches record w w' evs r :
  FlatUploader.record_handler record w = (w', evs, r) →
  calls is_parent_fetch evs = 1.
Proof.
  assert (Hkey : ∀ ok,
    is_parent_fetch (EvS3Download (S3BucketName record)
      (Py.rsplit_head (S3ObjectKey record) +:+ "/parenturl.txt") ok) = true).
  { intros ok. apply (endswith_app _ "/parenturl.txt"). }
  unfold FlatUploader.record_handler.
  intros [(x & H & ->)|(w1 & e1 & [] & e2 & H1 & H2 & ->)]%bind_inv;
    [discriminate H|].
  injection H1 as <- <-.
  apply bind_inv in H2 as [(x & H & ->)|(w2 & e3 & body & e4 & H3 & H4 & ->)].
  - revert H. unfold get_object. destruct (s3 w !! _); [done|]. intros [= <- <- _].
    rewrite calls_app, !calls_cons, Hkey. done.
  - revert H3. unfold get_object. destruct (s3 w !! _); [|done]. intros [= <- <- _].
    revert H4.
    match goal with
    | |- ?m w = _ → _ =>
        assert (Hk : always (unchanged max_blocks is_parent_fetch) m)
    end.
    { unfold FlatUploader.init_notion_client, FlatUploader.get_or_make_page.
      repeat first
        [ apply always_ret; apply unchanged_frame
        | apply always_raise; apply unchanged_frame
        | apply always_bind; [apply unchanged_frame| |intros ?]
        | apply always_finally; [apply unchanged_frame| |]
        | apply always_try_except_else; [apply unchanged_frame| |intros ?|intros ?]
        | case_match
        | intros ????;
          cbv delta [get_page put_page rival_put rmtree client_ready client_set
                     notion_call] beta;
          repeat case_match; intros [= <- <- <-]; split; reflexivity ]. }
    intros [_ He4]%Hk. rewrite !calls_app, !calls_cons, Hkey, He4. done.
Qed.

(** The older worker reads the parent URL file from the staging bucket
    anew for every record it takes up. *)
Theorem flat_worker_fetches_per_record batch w w' evs r :
  FlatUploader.handler batch w = (w', evs, r) →
  calls is_parent_fetch evs = length (processed_keys evs).
Proof.
  unfold FlatUploader.handler. rewrite bind_run. unfold get_max_blocks at 1.
  rewrite bind_run. unfold query at 1.
  destruct (blocks_query _ _ _) as [records|x]; [|by intros [= <- <- <-]].
  rewrite bind_run.
  destruct (FlatUploader.process_records records [] w) as [[w1 e1] r1] eqn:Hloop.
  assert (Hcount : calls is_parent_fetch e1 = length (processed_keys e1)).
  { clear -Hloop. revert Hloop. generalize (@nil (string * BlockItem)) as processed.
    revert w w1 e1 r1.
    induction records as [|record rest IH]; intros w w1 e1 r1 processed.
    - by intros [= <- <- <-].
    - cbn [FlatUploader.process_records]. unfold try_except_else.
      destruct (FlatUploader.record_handler record w) as [[w2 e2] r2] eqn:Hr.
      pose proof (flat_record_handler_fetches _ _ _ _ _ Hr) as Hone.
      apply flat_record_handler_run in Hr as (_ & _ & Hp & _).
      destruct r2 as [a|x].
      + rewrite bind_run. unfold delete_item at 1.
        destruct (FlatUploader.process_records _ _ _) as [[w3 e3] r3] eqn:Hrest.
        apply IH in Hrest. intros [= <- <- <-].
        unfold processed_keys in *.
        rewrite !calls_app, calls_cons, !omap_app, !length_app.
        csimpl. rewrite Hone, Hp, Hrest. done.
      + destruct (FlatUploader.process_records _ _ _) as [[w3 e3] r3] eqn:Hrest.
        apply IH in Hrest. intros [= <- <- <-].
        unfold processed_keys in *. rewrite !calls_app, !omap_app, !length_app.
        rewrite Hone, Hp, Hrest. done. }
  destruct r1 as [processed|x]; unfold mret, M_ret; intros [= <- <- <-];
    by rewrite ?app_nil_r.
Qed.

(** The older resolver finds no mapping and another resolver of the batch
    stores its own first: the insert is rejected and the rejection dropped;
    the resolver returns the page it has created itself, while the mapping
    of the batch is the other resolver's. *)
Theorem flat_resolver_race_is_dropped batch title parent rival rest url ok w w' evs r :
  pages w !! batch = None →
  rivals w = Some rival :: rest →
  FlatUploader.get_or_make_page batch title parent w = (w', evs, r) →
  EvPutPage batch url ok ∈ evs →
  ok = false
  ∧ (∃ new_page, r = Ok (Some new_page) ∧ page_url new_page = url)
  ∧ pages w' !! batch = Some rival.
Proof.
  intros Hnone Hriv Hrun Hput.
  unfold FlatUploader.get_or_make_page in Hrun. rewrite bind_run in Hrun.
  unfold get_page at 1, pages_get_item in Hrun. rewrite Hnone in Hrun.
  match type of Hrun with
  | context [match ?x with _ => _ end] => destruct x as [[w0 e0] r0] eqn:Hrest
  end.
  injection Hrun as <- <- <-. simpl in Hput.
  apply bind_inv in Hrest
    as [(x & H & ->)|(w1 & e1 & parent_page & e2 & H1 & H2 & ->)].
  { apply remote_only_fetch in H as (_ & _ & H). by apply no_put_page in Hput. }
  apply remote_only_fetch in H1 as (Hp1 & Hr1 & He1).
  destruct parent_page as [parent_page|]; cycle 1.
  { injection H2 as <- <- <-. rewrite app_nil_r in Hput. by apply no_put_page in Hput. }
  apply bind_inv in H2
    as [(x & H & ->)|(w2 & e3 & new_page & e4 & H3 & H4 & ->)].
  { revert H. unfold notion_call. destruct (add_new _ _ _) as [n a].
    intros [= <- <- _].
    apply elem_of_app in Hput as [Hput|Hput]; [by apply no_put_page in Hput|].
    by apply list_elem_of_singleton in Hput. }
  revert H3. unfold notion_call. destruct (add_new _ _ _) as [n a].
  intros [= <- <- ->].
  rewrite bind_run in H4. unfold rival_put at 1 in H4. simpl in H4.
  rewrite Hr1, Hriv in H4. rewrite bind_run in H4.
  unfold try_except_else, put_page at 1, pages_put_item in H4. simpl in H4.
  rewrite Hp1, Hnone in H4. simpl in H4. rewrite lookup_insert_eq in H4.
  injection H4 as <- <- <-. simpl. rewrite lookup_insert_eq.
  rewrite !elem_of_app in Hput. destruct Hput as [Hput|[Hput|Hput]].
  - by apply no_put_page in Hput.
  - by apply list_elem_of_singleton in Hput.
  - apply list_elem_of_singleton in Hput. injection Hput as -> ->. eauto.
Qed.

End flat_worker.

Lemma flat_worker_takes_up_all_witness :
  let w := Demo.world 200 [false; false; false; true] [] in
  let run := FlatUploader.handler "b1" w in
  (1 ≤ max_blocks w)%Z
  ∧ EvUpload ("b1", 0%Z) false ∈ run.1.2
  ∧ processed_keys run.1.2 = [("b1", 0%Z); ("b1", 1%Z); ("b1", 2%Z)]
  ∧ deleted_keys run.1.2 = uploaded_keys run.1.2.
Proof.
  intros w run.
  assert (Hlimit : (1 ≤ max_blocks w)%Z) by by_compute.
  destruct (flat_worker_takes_up_all "b1" w run.1.1 run.1.2 run.2 Hlimit (run_eta run))
    as (records & Hq & _ & Hp & Hd & _).
  split_and!; [exact Hlimit|by_compute|by vm_compute|exact Hd].
Defined.

Lemma flat_worker_fetches_per_record_witness :
  let run := FlatUploader.handler "b1" (Demo.world 200 [] []) in
  length (processed_keys run.1.2) = 3 ∧ calls is_parent_fetch run.1.2 = 3.
Proof.
  intros run.
  assert (Hthree : length (processed_keys run.1.2) = 3) by by vm_compute.
  split; [exact Hthree|]. rewrite <-Hthree.
  apply (flat_worker_fetches_per_record "b1" (Demo.world 200 [] []) run.1.1 run.1.2 run.2
           (run_eta run)).
Defined.

Lemma flat_resolver_race_is_dropped_witness :
  let run := FlatUploader.get_or_make_page "b1" "Doc" "https://www.notion.so/wiki"
               Demo.raced_world in
  pages Demo.raced_world !! "b1" = None
  ∧ EvPutPage "b1" "https://www.notion.so/1" false ∈ run.1.2
  ∧ (∃ new_page, run.2 = Ok (Some new_page)
                 ∧ page_url new_page = "https://www.notion.so/1")
  ∧ pages run.1.1 !! "b1" = Some "https://www.notion.so/rival".
Proof.
  intros run.
  assert (Hnone : pages Demo.raced_world !! "b1" = None) by by vm_compute.
  assert (Hriv : rivals Demo.raced_world = [Some "https://www.notion.so/rival"])
    by reflexivity.
  assert (Hput : EvPutPage "b1" "https://www.notion.so/1" false ∈ run.1.2)
    by by_compute.
  destruct (flat_resolver_race_is_dropped "b1" "Doc" "https://www.notion.so/wiki"
              "https://www.notion.so/rival" [] "https://www.notion.so/1" false
              Demo.raced_world run.1.1 run.1.2 run.2 Hnone Hriv (run_eta run) Hput)
    as (_ & Hown & Hdurable).
  by split_and!.
Defined.

(** * Further properties of the ingestion consumer *)

Section store_more.
Context {Remote : Type}.
Variable unquote_plus : string → string.
Variable convert : string → list Rendered.
Variable uuid_str : N → string.
Implicit Types (w : World Remote).

Lemma announced_calls evs : calls is_announce evs = 0 → announced evs = [].
Proof.
  intros Hc%calls_none. induction Hc as [|e evs He _ IH]; [done|].
  unfold announced in *. destruct e; csimpl; done.
Qed.

Lemma announced_length evs : length (announced evs) = calls is_announce evs.
Proof.
  induction evs as [|e evs IH]; [done|]. rewrite calls_cons.
  unfold announced in *. destruct e; csimpl; by rewrite IH.
Qed.

Lemma store_blocks_always (R : World Remote → list Event → World Remote → Prop)
    batch bucket key idx rendered :
  frame R → (∀ item, always R (put_block item : M Remote unit)) →
  always R (Store.store_blocks (Remote:=Remote) batch bucket key idx rendered).
Proof.
  intros HR Hput. revert idx.
  induction rendered as [|block rest IH]; intros idx; cbn [Store.store_blocks].
  - by apply always_ret.
  - destruct (Store.is_comment block); [apply IH|].
    apply always_bind; [done|apply Hput|intros _; apply IH].
Qed.

(** What the consumer does with one S3 record. *)
Lemma store_page_inv s3e w w' evs r :
  Store.store_page unquote_plus convert uuid_str s3e w = (w', evs, r) →
  announced evs = (if is_ok r then [uuid_str (uuid_seed w)] else [])
  ∧ calls is_download evs = 1
  ∧ ∀ path,
      tmp w' !! path
      = if String.prefix (tmpdir_of (uuid_str (uuid_seed w))) path then None
        else tmp w !! path.
Proof.
  unfold Store.store_page. rewrite bind_run. unfold Store.uuid4 at 1.
  fold (tmpdir_of (uuid_str (uuid_seed w))).
  set (dir := tmpdir_of (uuid_str (uuid_seed w))).
  set (w0 := set_uuid_seed (N.succ (uuid_seed w)) w).
  rewrite bind_run. unfold finally.
  match goal with
  | |- context [match ?m w0 with _ => _ end] =>
      destruct (m w0) as [[w1 e1] r1] eqn:Hbody;
      assert (Htmp : always (tmp_within dir) m);
      [|assert (Hcalls : calls is_announce e1 = 0 ∧ calls is_download e1 = 1)]
  end.
  { apply always_bind; [apply tmp_within_frame|apply download_file_within|intros _].
    apply always_bind; [apply tmp_within_frame| |intros md_file].
    - apply (unchanged_tmp_within _ is_announce). intros ????. unfold read_file.
      case_match; intros [= <- <- <-]; split; reflexivity.
    - apply store_blocks_always; [apply tmp_within_frame|]. intros item.
      apply (unchanged_tmp_within _ is_announce). intros ????. unfold put_block.
      case_match. intros [= <- <- <-]. split; reflexivity. }
  { revert Hbody.
    intros [(x & H & ->)|(w2 & e2 & [] & e3 & H1 & H2 & ->)]%bind_inv.
    - revert H. unfold download_file. case_match; [done|]. by intros [= <- <- _].
    - assert (He2 : calls is_announce e2 = 0 ∧ calls is_download e2 = 1).
      { revert H1. unfold download_file. case_match; [|done]. by intros [= <- <-]. }
      revert H2.
      match goal with
      | |- ?m w2 = _ → _ =>
          assert (Hk : always (unchanged max_blocks
                                 (λ e, is_announce e || is_download e)) m)
      end.
      { apply always_bind; [apply unchanged_frame| |intros md_file].
        - intros ????. unfold read_file.
          case_match; intros [= <- <- <-]; split; reflexivity.
        - apply store_blocks_always; [apply unchanged_frame|]. intros item.
          intros ????. unfold put_block.
          case_match. intros [= <- <- <-]. split; reflexivity. }
      intros [_ He3%calls_none]%Hk. rewrite !calls_app.
      assert (calls is_announce e3 = 0 ∧ calls is_download e3 = 0) as [-> ->].
      { split; apply calls_none; (eapply Forall_impl; [exact He3|]);
          intros e [? ?]%orb_false_elim; done. }
      lia. }
  destruct Hcalls as [Hann Hdl]. apply Htmp in Hbody.
  assert (Hclean : ∀ path,
    filter (λ f : string * string, String.prefix dir f.1 = false) (tmp w1) !! path
    = if String.prefix dir path then None else tmp w !! path).
  { intros path. rewrite map_lookup_filter.
    destruct (String.prefix dir path) eqn:Hpath.
    - destruct (tmp w1 !! path); [|done]. simpl.
      by rewrite option_guard_False by (by rewrite Hpath).
    - rewrite (Hbody path Hpath). simpl. destruct (tmp w !! path); [|done]. simpl.
      by rewrite option_guard_True. }
  unfold rmtree. destruct r1 as [[]|x]; simpl.
  - unfold emit. intros [= <- <- <-]. simpl. rewrite app_nil_r.
    split_and!; [|by rewrite calls_app, Hdl|done].
    unfold announced. rewrite omap_app. fold (announced e1).
    by rewrite (announced_calls _ Hann).
  - intros [= <- <- <-]. simpl. rewrite !app_nil_r.
    split_and!; [by apply announced_calls|done|done].
Qed.

(** The consumer announces a batch on the event bus exactly when the
    document of the S3 record was downloaded and every block of it was
    stored; whether it succeeds or raises, it has made one download and
    leaves no file under the directory of the batch and every other file as
    it found it. *)
Theorem store_page_announces_iff_stored s3e w w' evs r :
  Store.store_page unquote_plus convert uuid_str s3e w = (w', evs, r) →
  (∀ batch, EvPutEvents batch ∈ evs ↔ r = Ok tt ∧ batch = uuid_str (uuid_seed w))
  ∧ (∀ k, EvPutBlock k false ∈ evs → r ≠ Ok tt)
  ∧ ∀ path,
      tmp w' !! path
      = if String.prefix (tmpdir_of (uuid_str (uuid_seed w))) path then None
        else tmp w !! path.
Proof.
  intros Hrun. destruct (store_page_inv _ _ _ _ _ Hrun) as (Hann & _ & Htmp).
  split_and!; [| |done].
  - intros batch.
    assert (EvPutEvents batch ∈ evs ↔ batch ∈ announced evs) as ->.
    { unfold announced. rewrite list_elem_of_omap. split.
      - intros ?. by exists (EvPutEvents batch).
      - intros (e & ? & ?). destruct e; by simplify_eq. }
    rewrite Hann. destruct r as [[]|x]; simpl.
    + rewrite list_elem_of_singleton. by split; [|intros [_ ?]].
    + rewrite elem_of_nil. by split; [|intros [? _]].
  - clear Hann Htmp.
    intros k Hin ->. revert Hrun. unfold Store.store_page. rewrite bind_run.
    unfold Store.uuid4 at 1. rewrite bind_run. unfold finally.
    match goal with
    | |- context [match ?m ?w0 with _ => _ end] =>
        destruct (m w0) as [[w1 e1] [[]|x]] eqn:Hbody
    end; unfold rmtree, emit; simpl; [|done].
    intros [= <- <-]. revert Hin. rewrite app_nil_r, elem_of_app, list_elem_of_singleton.
    intros [Hin|?]; [|done]. revert Hbody.
    intros [(x & H & [=])|(w2 & e2 & [] & e3 & H1 & H2 & ->)]%bind_inv.
    apply elem_of_app in Hin as [Hin|Hin].
    { revert H1. unfold download_file. case_match; [|done]. intros [= <- <-].
      by apply list_elem_of_singleton in Hin. }
    apply bind_inv in H2 as [(x & H & [=])|(w3 & e4 & md & e5 & H3 & H4 & ->)].
    apply elem_of_app in Hin as [Hin|Hin].
    { revert H3. unfold read_file. case_match; [|done]. intros [= <- <-].
      by apply elem_of_nil in Hin. }
    clear -H4 Hin. revert H4 Hin.
    generalize 0%Z as idx. revert w3 e5.
    induction (convert md) as [|block rest IH]; intros w3 e5 idx;
      cbn [Store.store_blocks].
    + intros [= <- <-]. by intros ?%elem_of_nil.
    + destruct (Store.is_comment block); [apply IH|].
      intros [(x & H & [=])|(w4 & e6 & [] & e7 & H1 & H2 & ->)]%bind_inv.
      intros [Hin|Hin]%elem_of_app; [|by eapply IH].
      revert H1. unfold put_block, blocks_put_item.
      destruct (blocks w3 !! _) as [stored|]; simpl; [by intros [=]|].
      intros [= <- <-]. by apply list_elem_of_singleton in Hin.
Qed.

Lemma store_pages_inv records w w' evs r :
  Store.store_pages unquote_plus convert uuid_str records w = (w', evs, r) →
  calls is_download evs = length (announced evs) + (if is_ok r then 0 else 1)
  ∧ (if is_ok r then length (announced evs) = length records
     else (length (announced evs) < length records)%nat).
Proof.
  revert w w' evs r. induction records as [|s3e rest IH]; intros w w' evs r.
  - by intros [= <- <- <-].
  - cbn [Store.store_pages].
    intros [(x & H & ->)|(w1 & e1 & [] & e2 & H1 & H2 & ->)]%bind_inv.
    + apply store_page_inv in H as (Hann & Hdl & _). simpl in *.
      rewrite Hann, Hdl. simpl. split; [done|lia].
    + apply store_page_inv in H1 as (Hann & Hdl & _). simpl in Hann.
      apply IH in H2 as (Hdl2 & Hlen2).
      unfold announced in *. rewrite calls_app, omap_app, length_app, Hann, Hdl, Hdl2.
      simpl. split; [lia|]. destruct (is_ok r); lia.
Qed.

(** The consumer takes up the S3 records of a notification in order and
    stops at the first one that fails: every record before it has been
    downloaded and announced, the failed one has been downloaded or looked
    for but is not announced, and the records after it are not taken up. A
    run that returns has announced one batch for every record. *)
Theorem consumer_stops_at_first_failure s3events w w' evs r :
  Store.record_handler unquote_plus convert uuid_str s3events w = (w', evs, r) →
  calls is_download evs = length (announced evs) + (if is_ok r then 0 else 1)
  ∧ (length (announced evs) ≤ length (Store.Records s3events))%nat
  ∧ (is_ok r = false →
     (length (announced evs) < length (Store.Records s3events))%nat)
  ∧ (is_ok r = true → Store.Event s3events ≠ Some "s3:TestEvent" →
     length (announced evs) = length (Store.Records s3events)).
Proof.
  unfold Store.record_handler. destruct (decide _) as [Htest|Hreal].
  - intros [= <- <- <-]. simpl. split_and!; [done|lia|done|done].
  - intros (Hdl & Hlen)%store_pages_inv. split; [done|].
    destruct (is_ok r); split_and!; try done; lia.
Qed.

End store_more.

Lemma store_page_announces_iff_stored_witness :
  let s3e := Store.mkS3EventRecord "staging" "Wiki/Doc.md" in
  let w := set_tmp {[ "/tmp/batch-0/old.md" := "x"; "/tmp/keep" := "y" ]}
             Demo.staged_world in
  let run := Store.store_page (λ s, s) Demo.convert Demo.uuid_str s3e w in
  run.2 = Ok tt
  ∧ EvPutEvents "batch-0" ∈ run.1.2
  ∧ tmp run.1.1 !! "/tmp/batch-0/Doc.md" = None
  ∧ tmp run.1.1 !! "/tmp/batch-0/old.md" = None
  ∧ tmp run.1.1 !! "/tmp/keep" = Some "y".
Proof.
  intros s3e w run.
  destruct (store_page_announces_iff_stored (λ s, s) Demo.convert Demo.uuid_str
              s3e w run.1.1 run.1.2 run.2 (run_eta run)) as (Hann & _ & Htmp).
  assert (Hok : run.2 = Ok tt) by by vm_compute.
  split_and!; [exact Hok|by apply Hann|..].
  - by rewrite (Htmp "/tmp/batch-0/Doc.md").
  - by rewrite (Htmp "/tmp/batch-0/old.md").
  - by rewrite (Htmp "/tmp/keep").
Defined.

Lemma consumer_stops_at_first_failure_witness :
  let s3events :=
    Store.mkS3Event None [Store.mkS3EventRecord "staging" "Wiki/Doc.md";
                          Store.mkS3EventRecord "staging" "Wiki/Gone.md";
                          Store.mkS3EventRecord "staging" "Wiki/Doc.md"] in
  let run := Store.record_handler (λ s, s) Demo.convert Demo.uuid_str s3events
               Demo.staged_world in
  run.2 = Raise S3ClientError
  ∧ announced run.1.2 = ["batch-0"]
  ∧ calls is_download run.1.2 = 2.
Proof.
  intros s3events run.
  destruct (consumer_stops_at_first_failure (λ s, s) Demo.convert Demo.uuid_str
              s3events Demo.staged_world run.1.1 run.1.2 run.2 (run_eta run))
    as (Hdl & _).
  assert (Hr : run.2 = Raise S3ClientError) by by vm_compute.
  assert (Hann : announced run.1.2 = ["batch-0"]) by by vm_compute.
  split_and!; [exact Hr|exact Hann|]. by rewrite Hdl, Hr, Hann.
Defined.

(** * From the document to the page *)



Section document_order.
Context {Remote : Type} `{!NotionAPI Remote}.
Variable unquote_plus : string → string.
Variable convert : string → list Rendered.
Variable uuid_str : N → string.
Implicit Types (w : World Remote).



End document_order.


(** * The file getter *)

Lemma str_contains_slash_cons (c : ascii) (r : string) :
  str_contains "/" (String c r)
  = (if decide (c = "/"%char) then true else str_contains "/" r).
Proof.
  cbn [str_contains String.prefix]. destruct (ascii_dec "/" c) as [<-|Hne].
  - rewrite decide_True by done. by destruct r.
  - by rewrite decide_False by done.
Qed.

Lemma rsplit_slash_None (s : string) :
  Py.rsplit_slash s = None ↔ str_contains "/" s = false.
Proof.
  induction s as [|c r IH]; [done|].
  rewrite str_contains_slash_cons. cbn [Py.rsplit_slash].
  destruct (Py.rsplit_slash r) as [[h t]|].
  - split; [done|]. destruct (decide (c = "/"%char)); [done|].
    intros Hr. by apply IH in Hr.
  - destruct (decide (c = "/"%char)); [done|]. split; [|done]. intros _. by apply IH.
Qed.

Lemma rsplit_slash_Some (s h t : string) :
  Py.rsplit_slash s = Some (h, t) →
  s = h +:+ "/" +:+ t ∧ str_contains "/" t = false.
Proof.
  revert h. induction s as [|c r IH]; intros h; [done|].
  cbn [Py.rsplit_slash].
  destruct (Py.rsplit_slash r) as [[h' t']|] eqn:Hr.
  - intros [= <- <-]. destruct (IH h' eq_refl) as [-> ?]. done.
  - destruct (decide (c = "/"%char)) as [->|]; [|done].
    intros [= <- <-]. split; [done|]. by apply rsplit_slash_None.
Qed.

(** The file getter, given a path that is no URL, makes one download, of
    the object File/<path> of the record's bucket. When it returns, the
    file is in the directory it was given, under the last component of the
    path, a name without a slash, and holds the object; when the object is
    missing it raises and changes nothing. It touches no file outside the
    directory. *)
Theorem image_getter_stages_file {Remote} record tmpdir relative_path
    (w w' : World Remote) evs r :
  str_contains "://" relative_path = false →
  get_image_object record tmpdir relative_path w = (w', evs, r) →
  evs = [EvS3Download (S3BucketName record) ("File/" +:+ relative_path) (is_ok r)]
  ∧ tmp_within tmpdir w evs w'
  ∧ match r with
    | Ok path =>
        ∃ file_name body,
          path = LocalFile tmpdir file_name
          ∧ str_contains "/" file_name = false
          ∧ (relative_path = file_name
             ∨ ∃ dir, relative_path = dir +:+ "/" +:+ file_name)
          ∧ s3 w !! (S3BucketName record, "File/" +:+ relative_path) = Some body
          ∧ tmp w' !! (tmpdir +:+ file_name) = Some body
    | Raise x =>
        x = S3ClientError ∧ w' = w
        ∧ s3 w !! (S3BucketName record, "File/" +:+ relative_path) = None
    end.
Proof.
  intros Hurl. unfold get_image_object. rewrite Hurl.
  set (file_name := if str_contains "/" relative_path then _ else _).
  assert (Hname : str_contains "/" file_name = false
                  ∧ (relative_path = file_name
                     ∨ ∃ dir, relative_path = dir +:+ "/" +:+ file_name)).
  { unfold file_name. destruct (str_contains "/" relative_path) eqn:Hslash; [|by auto].
    destruct (Py.rsplit_slash relative_path) as [[h t]|] eqn:Hsplit.
    - apply rsplit_slash_Some in Hsplit as [-> ?]. eauto.
    - apply rsplit_slash_None in Hsplit. congruence. }
  destruct Hname as [Hflat Hrel]. clearbody file_name.
  rewrite bind_run. unfold download_file at 1.
  destruct (s3 w !! _) as [body|] eqn:Hbody; intros [= <- <- <-]; simpl.
  - split_and!; [done| |].
    + intros path Hpath. simpl. apply lookup_insert_ne. intros <-.
      by rewrite prefix_app in Hpath.
    + exists file_name, body. by rewrite lookup_insert_eq.
  - by split_and!.
Qed.

Lemma image_getter_stages_file_witness :
  let w : World Demo.Workspace :=
    {| blocks := ∅; pages := ∅;
       s3 := {[ ("staging", "File/img/logo.png") := "PNG" ]};
       tmp := ∅; notion := Demo.mkWorkspace [] [] [];
       notion_client := true; max_blocks := 200; rivals := []; uuid_seed := 0 |} in
  let run := get_image_object (Demo.block "b1" 0 "a") "/tmp/b1/" "img/logo.png" w in
  str_contains "://" "img/logo.png" = false
  ∧ run.2 = Ok (LocalFile "/tmp/b1/" "logo.png")
  ∧ tmp run.1.1 !! "/tmp/b1/logo.png" = Some "PNG".
Proof.
  intros w run.
  assert (Hurl : str_contains "://" "img/logo.png" = false) by reflexivity.
  destruct (image_getter_stages_file (Demo.block "b1" 0 "a") "/tmp/b1/" "img/logo.png"
              w run.1.1 run.1.2 run.2 Hurl (run_eta run)) as (_ & _ & Hres).
  assert (Hr : run.2 = Ok (LocalFile "/tmp/b1/" "logo.png")) by by vm_compute.
  rewrite Hr in Hres. destruct Hres as (file_name & body & [= <-] & _ & _ & Hs3 & Htmp).
  assert (body = "PNG") as -> by (vm_compute in Hs3; congruence).
  by split_and!.
Defined.

(** * The failure recorder *)

Section page_fails_facts.
Variable unquote_plus : string → string.
Context {Time : Type} `{Countable Time}.
Variable event_time_usec : string → option Time.

Abbreviation store_fails := (PageFails.store_fails unquote_plus event_time_usec).
Abbreviation fails_handler := (PageFails.record_handler unquote_plus event_time_usec).

Lemma store_fails_again (records : list PageFails.S3EventRecord)
    (t t1 t' : gmap (string * Time) string) :
  store_fails records t = (t1, Ok tt) →
  ∃ t1', store_fails records t' = (t1', Ok tt)
         ∧ ∀ k, t1' !! k = t1 !! k ∨ (t1' !! k = t' !! k ∧ t1 !! k = t !! k).
Proof.
  revert t t'. induction records as [|s3e rest IH]; intros t t'; simpl.
  - intros [= <-]. exists t'. auto.
  - destruct (event_time_usec _) as [time|]; [|done].
    intros Hrest. destruct (IH _ (PageFails.fails_put_item
      (unquote_plus (PageFails.object_key s3e)) time (PageFails.bucket_name s3e) t') Hrest)
      as (t1' & Hrun & Hk).
    exists t1'. split; [done|]. intros k. destruct (Hk k) as [?|[Hk1 Hk2]]; [by left|].
    unfold PageFails.fails_put_item in *.
    destruct (decide (k = (unquote_plus (PageFails.object_key s3e), time))) as [->|Hne].
    + left. by rewrite Hk1, Hk2, !lookup_insert_eq.
    + right. by rewrite Hk1, Hk2, !lookup_insert_ne.
Qed.

(** The failure recorder is idempotent: when a notification has been
    recorded, recording the same notification again is accepted and leaves
    the table exactly as it is. *)
Theorem page_fail_redelivery_is_idempotent (s3events : PageFails.S3Event)
    (t t1 : gmap (string * Time) string) :
  fails_handler s3events t = (t1, Ok tt) →
  fails_handler s3events t1 = (t1, Ok tt).
Proof.
  unfold PageFails.record_handler. destruct (decide _); [done|].
  intros Hrun. destruct (store_fails_again _ _ _ t1 Hrun) as (t1' & -> & Hk).
  f_equal. apply map_eq. intros k. by destruct (Hk k) as [?|[? _]].
Qed.

(** The failure recorder never removes a row, whatever its result; when it
    returns on a notification that is no test event, every record of the
    notification has a row under its object key and event time. *)
Theorem page_fails_are_recorded (s3events : PageFails.S3Event)
    (t t1 : gmap (string * Time) string) r :
  fails_handler s3events t = (t1, r) →
  (∀ k, is_Some (t !! k) → is_Some (t1 !! k))
  ∧ (r = Ok tt → PageFails.Event s3events ≠ Some "s3:TestEvent" →
     ∀ s3e, s3e ∈ PageFails.Records s3events →
       ∃ time, event_time_usec (PageFails.event_time s3e) = Some time
               ∧ is_Some (t1 !! (unquote_plus (PageFails.object_key s3e), time))).
Proof.
  unfold PageFails.record_handler. destruct (decide _) as [Htest|Hreal].
  { intros [= <- <-]. by split. }
  generalize (PageFails.Records s3events) as records. clear Hreal.
  intros records. revert t. induction records as [|s3e rest IH]; intros t; simpl.
  - intros [= <- <-]. split; [done|]. by intros _ _ s3e' ?%elem_of_nil.
  - destruct (event_time_usec (PageFails.event_time s3e)) as [time|] eqn:Htime.
    + intros [Hkeep Hall]%IH. split.
      * intros k Hk. apply Hkeep. unfold PageFails.fails_put_item.
        destruct (decide (k = (unquote_plus (PageFails.object_key s3e), time))) as [->|Hne].
        -- by rewrite lookup_insert_eq.
        -- by rewrite lookup_insert_ne.
      * intros Hr Hreal s3e' [->|Hin]%elem_of_cons; [|by apply Hall].
        exists time. split; [done|]. apply Hkeep. unfold PageFails.fails_put_item.
        by rewrite lookup_insert_eq.
    + intros [= <- <-]. by split.
Qed.

End page_fails_facts.

Lemma page_fail_redelivery_is_idempotent_witness :
  let parse := λ s : string,
    if decide (s = "2022-05-01T10:00:00.000Z") then Some 1651399200000%Z else None in
  let s3events :=
    PageFails.mkS3Event None
      [PageFails.mkS3EventRecord "staging" "Wiki/Doc.md" "2022-05-01T10:00:00.000Z"] in
  let t1 : gmap (string * Z) string :=
    {[ ("Wiki/Doc.md", 1651399200000%Z) := "staging" ]} in
  PageFails.record_handler (λ s, s) parse s3events ∅ = (t1, Ok tt)
  ∧ PageFails.record_handler (λ s, s) parse s3events t1 = (t1, Ok tt).
Proof.
  intros parse s3events t1.
  assert (Hfirst : PageFails.record_handler (λ s, s) parse s3events ∅ = (t1, Ok tt))
    by reflexivity.
  split; [exact Hfirst|].
  apply (page_fail_redelivery_is_idempotent (λ s, s) parse s3events ∅ t1 Hfirst).
Defined.

Lemma page_fails_are_recorded_witness :
  let parse := λ s : string,
    if decide (s = "2022-05-01T10:00:00.000Z") then Some 1651399200000%Z else None in
  let s3events :=
    PageFails.mkS3Event None
      [PageFails.mkS3EventRecord "staging" "Wiki/Doc.md" "2022-05-01T10:00:00.000Z";
       PageFails.mkS3EventRecord "staging" "Wiki/Bad.md" "yesterday"] in
  let t : gmap (string * Z) string := {[ ("Wiki/Old.md", 5%Z) := "staging" ]} in
  let t1 : gmap (string * Z) string :=
    <[("Wiki/Doc.md", 1651399200000%Z) := "staging"]> t in
  PageFails.record_handler (λ s, s) parse s3events t = (t1, Raise ValueError)
  ∧ is_Some (t !! ("Wiki/Old.md", 5%Z))
  ∧ is_Some (t1 !! ("Wiki/Old.md", 5%Z)).
Proof.
  intros parse s3events t t1.
  assert (Hrun : PageFails.record_handler (λ s, s) parse s3events t
                 = (t1, Raise ValueError)) by reflexivity.
  assert (Hold : is_Some (t !! ("Wiki/Old.md", 5%Z)))
    by (exists "staging"; apply lookup_singleton_eq).
  destruct (page_fails_are_recorded (λ s, s) parse s3events t t1 _ Hrun) as (Hkeep & _).
  split_and!; [exact Hrun|exact Hold|by apply Hkeep].
Defined.

(** * The title of the page and the place of the parent URL file *)






Section naming.
Context {Remote : Type} `{!NotionAPI Remote}.



End naming.


(** * The backlog over an invocation *)

Section worker_backlog.
Context {Remote : Type} `{!NotionAPI Remote}.
Implicit Types (w : World Remote) (k : BlockKey).

Lemma same_key_same_item (t : BlocksTable) (a b : BlockItem) :
  t !! key_of a = Some (attrs_of a) → t !! key_of b = Some (attrs_of b) →
  key_of a = key_of b → a = b.
Proof.
  intros Ha Hb Hkey.
  assert (Hattrs : attrs_of a = attrs_of b) by (rewrite Hkey, Hb in Ha; congruence).
  by rewrite <-(item_of_key_attrs a), <-(item_of_key_attrs b), Hkey, Hattrs.
Qed.

Lemma NoDup_backlog (batch : string) (t : BlocksTable) : NoDup (backlog batch t).
Proof.
  unfold backlog. apply NoDup_filter. apply (NoDup_fmap_1 key_of), NoDup_items_keys.
Qed.

(** What an invocation does to the backlog of its batch: the blocks stored
    before are the blocks it has uploaded together with the blocks stored
    after. *)
Lemma handler_backlog batch w :
  (1 ≤ max_blocks w)%Z →
  ∃ records done failed later w' evs res,
    listing (max_blocks w) batch (blocks w) records
    ∧ records = done ++ left_over failed later
    ∧ Uploader.handler batch w = (w', evs, Ok res)
    ∧ Uploader.success_block_count res = length done
    ∧ Uploader.fail_block_count res = fail_count failed
    ∧ processed_keys evs = key_of <$> (done ++ take 1 (left_over failed later))
    ∧ backlog batch (blocks w) ≡ₚ done ++ backlog batch (blocks w')
    ∧ ∀ k, blocks w' !! k
           = if decide (k ∈ key_of <$> done) then None else blocks w !! k.
Proof.
  intros Hlimit.
  destruct (handler_run batch w Hlimit)
    as (records & done & failed & later & w' & evs & _ & Hl & Hrec & Hrun & Hev & Hb).
  destruct (chunk_keys _ _ _ later Hev) as (Hproc & _).
  exists records, done, failed, later, w', evs. eexists.
  split_and!; [done|done|exact Hrun|done|done|done| |done].
  pose proof (listing_batch _ _ _ _ Hl) as Hbatch.
  pose proof (listing_stored _ _ _ _ Hl) as Hstored.
  pose proof (listing_keys _ _ _ _ Hl) as Hkeys.
  rewrite Forall_forall in Hbatch, Hstored.
  assert (Hdone : ∀ d, d ∈ done → d ∈ records).
  { intros d Hd. rewrite Hrec, elem_of_app. by left. }
  apply NoDup_Permutation.
  - apply NoDup_backlog.
  - apply NoDup_app. split_and!.
    + apply (NoDup_fmap_1 key_of). rewrite Hrec, fmap_app in Hkeys.
      by apply NoDup_app in Hkeys as [? _].
    + intros d Hd [_ Hd']%elem_of_backlog. rewrite Hb in Hd'.
      rewrite decide_True in Hd'; [done|]. by apply list_elem_of_fmap_2.
    + apply NoDup_backlog.
  - intros item. rewrite elem_of_app, !elem_of_backlog, Hb. split.
    + intros [Hitem Hin].
      destruct (decide (key_of item ∈ key_of <$> done)) as [Hk|Hk]; [|by right].
      left. apply list_elem_of_fmap in Hk as (d & Hkey & Hd).
      assert (item = d) as ->; [|done].
      apply (same_key_same_item (blocks w)); [done| |done].
      apply Hstored. by apply Hdone.
    + intros [Hd|[Hitem Hin]].
      * split; [apply Hbatch|apply Hstored]; by apply Hdone.
      * split; [done|]. by destruct (decide (key_of item ∈ key_of <$> done)).
Qed.

(** Every block an invocation counts as a success has left the backlog of
    the batch, and nothing else has: the blocks of the batch stored after an
    invocation and the successes it reports add up to the blocks stored
    before. *)
Theorem worker_backlog_accounting batch w w' evs r :
  (1 ≤ max_blocks w)%Z →
  Uploader.handler batch w = (w', evs, r) →
  ∃ res,
    r = Ok res
    ∧ length (backlog batch (blocks w')) + Uploader.success_block_count res
      = length (backlog batch (blocks w)).
Proof.
  intros Hlimit Hrun.
  destruct (handler_backlog batch w Hlimit)
    as (records & done & failed & later & w2 & evs2 & res
        & _ & _ & Hrun2 & Hok & _ & _ & Hperm & _).
  rewrite Hrun in Hrun2. injection Hrun2 as -> -> ->.
  exists res. split; [done|]. rewrite Hperm, length_app, Hok. lia.
Qed.

(** An invocation that reports a failure leaves the block it failed on,
    the last one it took up, as the first block of the batch: the next
    listing starts with it. *)
Theorem worker_retry_resumes_at_failure batch w w' evs r res :
  (1 ≤ max_blocks w)%Z →
  Uploader.handler batch w = (w', evs, r) →
  r = Ok res →
  (0 < Uploader.fail_block_count res)%nat →
  ∃ f rest,
    last (processed_keys evs) = Some (key_of f)
    ∧ blocks_query (max_blocks w) batch (blocks w') = Ok (f :: rest).
Proof.
  intros Hlimit Hrun -> Hfail.
  destruct (handler_backlog batch w Hlimit)
    as (records & done & failed & later & w2 & evs2 & res2
        & Hl & Hrec & Hrun2 & _ & Hfc & Hproc & Hperm & Hb).
  rewrite Hrun in Hrun2. injection Hrun2 as <- <- <-.
  rewrite Hfc in Hfail. destruct failed as [[f reached]|]; [|simpl in Hfail; lia].
  simpl in Hrec, Hproc.
  pose proof (listing_batch _ _ _ _ Hl) as Hbatch.
  pose proof (listing_stored _ _ _ _ Hl) as Hstored.
  pose proof (listing_keys _ _ _ _ Hl) as Hkeys.
  pose proof (listing_sorted _ _ _ _ Hl) as Hsorted.
  rewrite Forall_forall in Hbatch, Hstored.
  assert (Hf : f ∈ records) by (rewrite Hrec, elem_of_app; right; by left).
  assert (Hfnew : f ∈ backlog batch (blocks w')).
  { apply elem_of_backlog. split; [by apply Hbatch|].
    rewrite Hb, decide_False; [by apply Hstored|].
    rewrite Hrec, fmap_app in Hkeys. apply NoDup_app in Hkeys as (_ & Hdisj & _).
    intros Hin. apply (Hdisj _ Hin). csimpl. by left. }
  assert (Hmin : ∀ x, x ∈ backlog batch (blocks w') → x = f ∨ index_lt f x).
  { intros x Hx.
    assert (Hxold : x ∈ backlog batch (blocks w)) by (rewrite Hperm, elem_of_app; by right).
    apply elem_of_backlog in Hxold as [Hxb Hxs].
    destruct (decide (x ∈ records)) as [Hin|Hout].
    - rewrite Hrec in Hin. apply elem_of_app in Hin as [Hin|Hin].
      + apply elem_of_backlog in Hx as [_ Hx]. rewrite Hb in Hx.
        rewrite decide_True in Hx; [done|]. by apply list_elem_of_fmap_2.
      + apply elem_of_cons in Hin as [->|Hin]; [by left|]. right.
        rewrite Hrec, fmap_app in Hsorted.
        apply (StronglySorted_app_1_r Z.lt (BlockIndex <$> done)) in Hsorted.
        csimpl in Hsorted. apply StronglySorted_cons in Hsorted as [Hlt _].
        rewrite Forall_forall in Hlt. apply Hlt. by apply list_elem_of_fmap_2.
    - right. pose proof (listing_lowest _ _ _ _ Hl x) as Hlow.
      rewrite Forall_forall in Hlow. apply Hlow; [by apply elem_of_items|done..]. }
  destruct (blocks_query_listing (max_blocks w) batch (blocks w') Hlimit)
    as (l' & Hq' & Hl').
  destruct (blocks_query_backlog (max_blocks w) batch (blocks w') Hlimit)
    as (l'' & Hq'' & _ & Hnil).
  rewrite Hq' in Hq''. injection Hq'' as <-.
  destruct l' as [|a rest].
  { destruct Hnil as [Hnil _]. rewrite Hnil in Hfnew by done.
    by apply elem_of_nil in Hfnew. }
  exists f, rest. split.
  { rewrite Hproc, fmap_app. csimpl. by rewrite last_snoc. }
  rewrite Hq'. do 2 f_equal.
  assert (Ha : a ∈ backlog batch (blocks w')).
  { apply elem_of_backlog. split.
    - pose proof (listing_batch _ _ _ _ Hl') as H'. by apply Forall_cons in H' as [? _].
    - pose proof (listing_stored _ _ _ _ Hl') as H'. by apply Forall_cons in H' as [? _]. }
  destruct (Hmin a Ha) as [->|Hlt]; [done|]. exfalso.
  pose proof (listing_sorted _ _ _ _ Hl') as Hs'. csimpl in Hs'.
  apply StronglySorted_cons in Hs' as [Hs' _]. rewrite Forall_forall in Hs'.
  destruct (decide (f ∈ a :: rest)) as [Hin|Hout].
  - apply elem_of_cons in Hin as [->|Hin]; [unfold index_lt in Hlt; lia|].
    assert (BlockIndex a < BlockIndex f)%Z by (apply Hs'; by apply list_elem_of_fmap_2).
    unfold index_lt in Hlt. lia.
  - pose proof (listing_lowest _ _ _ _ Hl' f) as Hlow.
    apply elem_of_backlog in Hfnew as [Hfb Hfs].
    assert (Hall : Forall (λ x, index_lt x f) (a :: rest))
      by (apply Hlow; [by apply elem_of_items|done..]).
    apply Forall_cons in Hall as [Haf _]. unfold index_lt in *. lia.
Qed.

End worker_backlog.

Lemma worker_backlog_accounting_witness :
  let w := Demo.world 200 Demo.failing_script [] in
  let run := Uploader.handler "b1" w in
  (1 ≤ max_blocks w)%Z
  ∧ run.2 = Ok (Uploader.mkResults "FAIL" 1 1)
  ∧ length (backlog "b1" (blocks run.1.1)) + 1 = length (backlog "b1" (blocks w)).
Proof.
  intros w run.
  assert (Hlimit : (1 ≤ max_blocks w)%Z) by by_compute.
  assert (Hres : run.2 = Ok (Uploader.mkResults "FAIL" 1 1)) by (vm_compute; reflexivity).
  destruct (worker_backlog_accounting "b1" w run.1.1 run.1.2 run.2 Hlimit (run_eta run))
    as (res & Hr & Hlen).
  rewrite Hres in Hr. injection Hr as <-.
  split; [exact Hlimit|]. split; [exact Hres|]. exact Hlen.
Defined.

Lemma worker_retry_resumes_at_failure_witness :
  let w := Demo.world 200 Demo.failing_script [] in
  let run := Uploader.handler "b1" w in
  (1 ≤ max_blocks w)%Z
  ∧ run.2 = Ok (Uploader.mkResults "FAIL" 1 1)
  ∧ ∃ f rest,
      last (processed_keys run.1.2) = Some (key_of f)
      ∧ blocks_query (max_blocks w) "b1" (blocks run.1.1) = Ok (f :: rest).
Proof.
  intros w run.
  assert (Hlimit : (1 ≤ max_blocks w)%Z) by by_compute.
  assert (Hres : run.2 = Ok (Uploader.mkResults "FAIL" 1 1)) by (vm_compute; reflexivity).
  assert (Hfail : (0 < Uploader.fail_block_count (Uploader.mkResults "FAIL" 1 1))%nat)
    by (simpl; lia).
  split; [exact Hlimit|]. split; [exact Hres|].
  exact (worker_retry_resumes_at_failure "b1" w run.1.1 run.1.2 run.2 _
           Hlimit (run_eta run) Hres Hfail).
Defined.

(** * The parent URL *)






(** * The worker without a parent URL file *)

Section worker_no_parent.
Context {Remote : Type} `{!NotionAPI Remote}.
Implicit Types (w : World Remote).

Lemma record_handler_no_parent record tmpdir w :
  tmp w !! (tmpdir +:+ Uploader.PARENT_URL_FILENAME) = None →
  s3 w !! (S3BucketName record,
           Py.rsplit_head (S3ObjectKey record) +:+ "/" +:+ Uploader.PARENT_URL_FILENAME)
  = None →
  Uploader.record_handler record tmpdir w
  = (w, [EvProcess (key_of record);
         EvS3Download (S3BucketName record)
           (Py.rsplit_head (S3ObjectKey record) +:+ "/" +:+ Uploader.PARENT_URL_FILENAME)
           false],
     Raise S3ClientError).
Proof.
  intros Htmp Hs3. unfold Uploader.record_handler. rewrite bind_run.
  unfold emit at 1. rewrite bind_run. unfold isfile at 1. rewrite Htmp.
  rewrite bool_decide_eq_false_2 by (by intros []%is_Some_None).
  rewrite bind_run. unfold download_file at 1. by rewrite Hs3.
Qed.

(** The staging bucket holds no parent URL file for the blocks of the batch
    and the worker has no local copy: the invocation stops at the first
    block and reports FAIL with no success and one failure; it has made no
    call to Notion and has changed neither table. *)
Theorem worker_fails_without_parent_url batch w w' evs r :
  (1 ≤ max_blocks w)%Z →
  backlog batch (blocks w) ≠ [] →
  tmp w !! (tmpdir_of batch +:+ Uploader.PARENT_URL_FILENAME) = None →
  (∀ item, item ∈ backlog batch (blocks w) →
     s3 w !! (S3BucketName item,
              Py.rsplit_head (S3ObjectKey item) +:+ "/" +:+ Uploader.PARENT_URL_FILENAME)
     = None) →
  Uploader.handler batch w = (w', evs, r) →
  r = Ok (Uploader.mkResults "FAIL" 0 1)
  ∧ calls is_remote_call evs = 0
  ∧ length (processed_keys evs) = 1
  ∧ blocks w' = blocks w
  ∧ pages w' = pages w.
Proof.
  intros Hlimit Hsome Htmp Hs3.
  destruct (blocks_query_listing (max_blocks w) batch (blocks w) Hlimit)
    as (records & Hq & Hl).
  destruct (blocks_query_backlog (max_blocks w) batch (blocks w) Hlimit)
    as (l & Hq' & _ & Hnil).
  rewrite Hq in Hq'. injection Hq' as <-.
  destruct records as [|first rest]; [by destruct Hsome; apply Hnil|].
  assert (Hfirst : first ∈ backlog batch (blocks w)).
  { apply elem_of_backlog. split.
    - pose proof (listing_batch _ _ _ _ Hl) as H'. by apply Forall_cons in H' as [? _].
    - pose proof (listing_stored _ _ _ _ Hl) as H'. by apply Forall_cons in H' as [? _]. }
  unfold Uploader.handler. rewrite bind_run. unfold get_max_blocks at 1.
  rewrite bind_run. unfold query at 1. rewrite Hq. rewrite bind_run.
  cbn [Uploader.process_records]. unfold try_except_else.
  fold (tmpdir_of batch).
  rewrite (record_handler_no_parent first (tmpdir_of batch) w Htmp (Hs3 first Hfirst)).
  unfold mret at 1, M_ret at 1. rewrite bind_run. unfold rmtree at 1.
  unfold mret, M_ret. simpl. intros [= <- <- <-]. by split_and!.
Qed.

End worker_no_parent.

Lemma worker_fails_without_parent_url_witness :
  let w : World Demo.Workspace :=
    {| blocks := put_all [Demo.block "b1" 1 "b"; Demo.block "b1" 0 "a"] ∅;
       pages := ∅; s3 := ∅; tmp := ∅;
       notion := Demo.mkWorkspace [Demo.parent] [] [];
       notion_client := false; max_blocks := 200; rivals := []; uuid_seed := 0 |} in
  (1 ≤ max_blocks w)%Z
  ∧ backlog "b1" (blocks w) ≠ []
  ∧ (Uploader.handler "b1" w).2 = Ok (Uploader.mkResults "FAIL" 0 1).
Proof.
  intros w. pose (run := Uploader.handler "b1" w).
  assert (Hlimit : (1 ≤ max_blocks w)%Z) by by_compute.
  assert (Hsome : backlog "b1" (blocks w) ≠ []) by by_compute.
  assert (Htmp : tmp w !! (tmpdir_of "b1" +:+ Uploader.PARENT_URL_FILENAME) = None)
    by apply lookup_empty.
  assert (Hs3 : ∀ item, item ∈ backlog "b1" (blocks w) →
            s3 w !! (S3BucketName item,
                     Py.rsplit_head (S3ObjectKey item) +:+ "/"
                     +:+ Uploader.PARENT_URL_FILENAME) = None)
    by (intros item _; apply lookup_empty).
  destruct (worker_fails_without_parent_url "b1" w run.1.1 run.1.2 run.2
              Hlimit Hsome Htmp Hs3 (run_eta run)) as (Hres & _).
  split; [exact Hlimit|]. split; [exact Hsome|]. exact Hres.
Defined.
